(** * Binance Futures Terminal: validator, grid generator, order executor,
      sequential grid dispatcher and reconnecting stream sessions.

    A shallow embedding of the TypeScript sources

    - [utils/validator.ts]   ([getSymbolRules], [countDecimals],
                              [validateOrderInput], [validateGridInput]),
    - [components/GridForm.tsx] ([generateGrid]),
    - [components/OrderForm.tsx] ([handleSubmit], [fillPrice]),
    - [components/CancelForm.tsx] ([handleSubmit]),
    - [services/api.ts]      ([mockPlaceOrder], [realPlaceOrder],
                              [mockCancelOrder], [realCancelOrder],
                              [placeOrder], [cancelOrder],
                              [getListenKey], [keepAliveListenKey]),
    - [App.tsx]              ([handleGridSubmit], [handleOrderSubmit],
                              [handleCancelSubmit], the effects that
                              subscribe to the ticker and to the user
                              data stream),
    - [services/websocket.ts] ([subscribeToTicker], [subscribeToUserData],
                              the ticker's [onmessage]),

    followed by the properties of these functions.

    Conventions of the embedding.

    - A JavaScript number is a [JS.number]: [NaN], a signed [Infinity], or a
      finite number of IEEE-754 binary64, carried as the rational it
      denotes.  The arithmetic operations, [parseFloat] and the Number
      value of an integer or of a decimal literal round the exact result
      with [JS.round64]: to the nearest number of the format, to the one
      with the even significand on a tie, with gradual underflow, and to an
      infinity from 2^1024 - 2^970 on.  [toFixed], [Math.abs], negation and
      the comparisons are exact on the numbers they are given, as they are
      in JavaScript.  There is no negative zero: the code compares, prints,
      adds and multiplies the zeros it computes, and divides by none of
      them.
    - [parseInt] gives the integer that the digits denote, and the loop of
      [generateGrid] counts in integers; the Number value of the count is
      taken where the code computes with it.  From 2^53 on, where the
      counter of the source stops advancing, the embedding does not follow
      the source; the properties of the levels are for smaller counts.
    - A JavaScript string is a [string] of 8-bit characters; the inputs
      considered are ASCII, for which [length] and [toUpperCase] agree with
      the UTF-16 ones.
    - An optional field ([price?: string]) is an [option string]; [None] is
      [undefined].
    - Messages built with template literals are carried as constructors of
      an error type with the interpolated values as arguments. *)

From Stdlib Require Import ZArith QArith Qround Qabs Qpower Lqa.
From Stdlib Require Qcanon.
From Stdlib Require Import String Ascii List Bool Lia Sorted.
Import ListNotations.

Local Open Scope string_scope.

(* ================================================================== *)
(** * The JavaScript values and built-ins the sources rely on *)
(* ================================================================== *)

Module JS.

(** ** Numbers

    [Fin q] is the binary64 number of value [q]; the operations below give
    numbers of the format when they are given such numbers. *)

Inductive number : Type :=
| NaN
| Infinity (negative : bool)
| Fin (q : Q).

Definition isNaN (x : number) : bool :=
  match x with NaN => true | _ => false end.

Definition Qltb (a b : Q) : bool :=
  (Qnum a * QDen b <? Qnum b * QDen a)%Z.

Definition Qneg (a : Q) : bool := Qltb a 0.
Definition Qzero (a : Q) : bool := Qeq_bool a 0.

(** [x < y]: false as soon as one side is [NaN]. *)
Definition lt (x y : number) : bool :=
  match x, y with
  | NaN, _ | _, NaN => false
  | Infinity nx, Infinity ny => nx && negb ny
  | Infinity nx, Fin _ => nx
  | Fin _, Infinity ny => negb ny
  | Fin a, Fin b => Qltb a b
  end.

(** [x <= y]. *)
Definition le (x y : number) : bool :=
  match x, y with
  | NaN, _ | _, NaN => false
  | Infinity nx, Infinity ny => nx || negb ny
  | Infinity nx, Fin _ => nx
  | Fin _, Infinity ny => negb ny
  | Fin a, Fin b => Qle_bool a b
  end.

(** [x === y] on numbers: [NaN] equals nothing. *)
Definition eq (x y : number) : bool :=
  match x, y with
  | NaN, _ | _, NaN => false
  | Infinity nx, Infinity ny => Bool.eqb nx ny
  | Fin a, Fin b => Qeq_bool a b
  | _, _ => false
  end.

Definition gt (x y : number) : bool := lt y x.
Definition ge (x y : number) : bool := le y x.

Definition neg (x : number) : number :=
  match x with
  | NaN => NaN
  | Infinity n => Infinity (negb n)
  | Fin a => Fin (- a)
  end.

(** *** Rounding to binary64

    The finite numbers of JavaScript are those of IEEE-754 binary64: the
    integers of magnitude at most 2^53 times a power of two 2^k with
    [-1074 <= k], below 2^1024 in magnitude.  The result of an arithmetic
    operation, and the value of a decimal literal, is the exact result
    rounded to the nearest of them, to the one with an even significand
    when two are as near, and to an infinity from 2^1024 - 2^970 on. *)

Definition pow2 (e : Z) : Q := 2 ^ e.

(** The exponent [e] with [2^e <= |q| < 2^(e+1)], for [q] other than 0. *)
Definition ilog2 (q : Q) : Z :=
  let e := (Z.log2 (Z.abs (Qnum q)) - Z.log2 (Z.pos (Qden q)))%Z in
  if Qle_bool (pow2 e) (Qabs q) then e else (e - 1)%Z.

(** The integer nearest to [t], the even one on a tie. *)
Definition roundEven (t : Q) : Z :=
  let f := Qfloor t in
  match Qcompare (t - inject_Z f) (1 # 2) with
  | Lt => f
  | Gt => (f + 1)%Z
  | Eq => if Z.even f then f else (f + 1)%Z
  end.

(** The distance between the binary64 numbers around [q]: 2^(e-52) for
    [2^e <= |q| < 2^(e+1)], and 2^-1074 below 2^-1022. *)
Definition ulp (q : Q) : Q := pow2 (Z.max (ilog2 q) (-1022) - 52).

(** The multiple of [ulp q] nearest to [q]. *)
Definition nearest (q : Q) : Q := inject_Z (roundEven (q / ulp q)) * ulp q.

(** The Number value for the real number [q]. *)
Definition round64 (q : Q) : number :=
  let r := nearest q in
  if Qle_bool (pow2 1024) (Qabs r) then Infinity (Qneg q)
  else Fin (Qred r).

Definition add (x y : number) : number :=
  match x, y with
  | NaN, _ | _, NaN => NaN
  | Infinity nx, Infinity ny => if Bool.eqb nx ny then Infinity nx else NaN
  | Infinity nx, Fin _ => Infinity nx
  | Fin _, Infinity ny => Infinity ny
  | Fin a, Fin b => round64 (a + b)
  end.

Definition sub (x y : number) : number := add x (neg y).

Definition mul (x y : number) : number :=
  match x, y with
  | NaN, _ | _, NaN => NaN
  | Infinity nx, Infinity ny => Infinity (xorb nx ny)
  | Infinity nx, Fin b => if Qzero b then NaN else Infinity (xorb nx (Qneg b))
  | Fin a, Infinity ny => if Qzero a then NaN else Infinity (xorb (Qneg a) ny)
  | Fin a, Fin b => round64 (a * b)
  end.

(** Division; a zero divisor is taken as [+0]. *)
Definition div (x y : number) : number :=
  match x, y with
  | NaN, _ | _, NaN => NaN
  | Infinity _, Infinity _ => NaN
  | Infinity nx, Fin b => Infinity (xorb nx (Qneg b))
  | Fin _, Infinity _ => Fin 0
  | Fin a, Fin b =>
      if Qzero b then (if Qzero a then NaN else Infinity (Qneg a))
      else round64 (a / b)
  end.

(** [Math.abs]. *)
Definition abs (x : number) : number :=
  match x with
  | NaN => NaN
  | Infinity _ => Infinity false
  | Fin a => Fin (Qabs a)
  end.

(** The Number value of an integer: the integer itself up to 2^53 in
    magnitude. *)
Definition ofZ (z : Z) : number := round64 (inject_Z z).

(** The Number value of a decimal literal of the sources, such as the
    [0.001] of [TRADING_RULES]. *)
Definition ofDecimal (q : Q) : number := round64 q.

(** [Math.pow(10, d)] for a natural exponent: the power itself up to
    10^22, and the precisions of [TRADING_RULES] are at most 5. *)
Definition pow10 (d : nat) : number := ofZ (10 ^ Z.of_nat d).

(** ** Strings *)

Definition truthy (s : string) : bool :=
  match s with "" => false | _ => true end.

(** Truthiness of an optional string: [undefined] and [""] are falsy. *)
Definition truthyOpt (o : option string) : bool :=
  match o with None => false | Some s => truthy s end.

(** [a || b] on optional strings with a string default. *)
Definition orElse (o : option string) (dflt : string) : string :=
  match o with
  | Some s => if truthy s then s else dflt
  | None => dflt
  end.

Definition upperChar (c : ascii) : ascii :=
  let n := N_of_ascii c in
  if ((97 <=? n) && (n <=? 122))%N then ascii_of_N (n - 32) else c.

Definition lowerChar (c : ascii) : ascii :=
  let n := N_of_ascii c in
  if ((65 <=? n) && (n <=? 90))%N then ascii_of_N (n + 32) else c.

Fixpoint toUpperCase (s : string) : string :=
  match s with
  | "" => ""
  | String c r => String (upperChar c) (toUpperCase r)
  end.

Fixpoint toLowerCase (s : string) : string :=
  match s with
  | "" => ""
  | String c r => String (lowerChar c) (toLowerCase r)
  end.

(** [s.indexOf(c)] for a one-character needle: the first position, or -1. *)
Fixpoint indexOfFrom (c : ascii) (s : string) (i : Z) : Z :=
  match s with
  | "" => (-1)%Z
  | String a r => if Ascii.eqb a c then i else indexOfFrom c r (i + 1)%Z
  end.

Definition indexOf (c : ascii) (s : string) : Z := indexOfFrom c s 0.

(** [s.split(c)] for a one-character separator. *)
Fixpoint split (c : ascii) (s : string) : list string :=
  match s with
  | "" => [""]
  | String a r =>
      if Ascii.eqb a c then "" :: split c r
      else match split c r with
           | p :: ps => String a p :: ps
           | [] => [String a ""]
           end
  end.

Definition isDigit (c : ascii) : bool :=
  let n := N_of_ascii c in ((48 <=? n) && (n <=? 57))%N.

Definition digitVal (c : ascii) : Z := (Z.of_N (N_of_ascii c) - 48)%Z.

(** [/^\d+$/.test(s)]. *)
Fixpoint allDigits (s : string) : bool :=
  match s with
  | "" => true
  | String c r => isDigit c && allDigits r
  end.

Definition isNumericId (s : string) : bool := truthy s && allDigits s.

(** The longest prefix of decimal digits, and the rest. *)
Fixpoint spanDigits (s : string) : string * string :=
  match s with
  | "" => ("", "")
  | String c r =>
      if isDigit c
      then let (d, t) := spanDigits r in (String c d, t)
      else ("", s)
  end.

(** The value of a string of decimal digits, most significant first. *)
Fixpoint digitsValue (acc : Z) (s : string) : Z :=
  match s with
  | "" => acc
  | String c r => digitsValue (10 * acc + digitVal c)%Z r
  end.

Definition isWhiteSpace (c : ascii) : bool :=
  let n := N_of_ascii c in ((9 <=? n) && (n <=? 13) || (n =? 32))%N.

Fixpoint trimStart (s : string) : string :=
  match s with
  | "" => ""
  | String c r => if isWhiteSpace c then trimStart r else s
  end.

Definition parseSign (s : string) : bool * string :=
  match s with
  | String "-" r => (true, r)
  | String "+" r => (false, r)
  | _ => (false, s)
  end.

Definition signed (negative : bool) (z : Z) : Z :=
  if negative then (- z)%Z else z.

(** The value of an optional [ExponentPart]; 0 when there is none. *)
Definition parseExponent (s : string) : Z :=
  match s with
  | "" => 0%Z
  | String c r =>
      if Ascii.eqb c "e" || Ascii.eqb c "E" then
        let (n, r') := parseSign r in
        let (ds, _) := spanDigits r' in
        match ds with
        | "" => 0%Z
        | _ => signed n (digitsValue 0 ds)
        end
      else 0%Z
  end.

(** [m * 10^e] for an integer exponent. *)
Definition scale10 (m e : Z) : Q :=
  if (0 <=? e)%Z then inject_Z (m * 10 ^ e)
  else Qmake m (Z.to_pos (10 ^ (- e))).

(** What [parseFloat] reads: after leading white space, the longest prefix
    that is a [StrDecimalLiteral], with its mathematical value. *)
Inductive literal : Type :=
| NoLiteral
| InfinityLiteral (negative : bool)
| DecimalLiteral (value : Q).

Definition readLiteral (s : string) : literal :=
  let (n, t) := parseSign (trimStart s) in
  if prefix "Infinity" t then InfinityLiteral n else
  let (ip, t1) := spanDigits t in
  let (fp, t2) :=
    match t1 with
    | String "." r => spanDigits r
    | _ => ("", t1)
    end in
  match ip, fp with
  | "", "" => NoLiteral
  | _, _ =>
      let e := parseExponent t2 in
      DecimalLiteral (scale10 (signed n (digitsValue 0 (ip ++ fp)))
                              (e - Z.of_nat (String.length fp)))
  end.

(** [parseFloat]: the Number value for the literal read, [NaN] when there
    is none. *)
Definition parseFloat (s : string) : number :=
  match readLiteral s with
  | NoLiteral => NaN
  | InfinityLiteral n => Infinity n
  | DecimalLiteral q => round64 q
  end.

Definition isHexDigit (c : ascii) : bool :=
  let n := N_of_ascii c in
  (((48 <=? n) && (n <=? 57)) || ((65 <=? n) && (n <=? 70))
   || ((97 <=? n) && (n <=? 102)))%N.

Definition hexVal (c : ascii) : Z :=
  let n := Z.of_N (N_of_ascii c) in
  if (n <=? 57)%Z then (n - 48)%Z
  else if (n <=? 70)%Z then (n - 55)%Z else (n - 87)%Z.

Fixpoint spanHex (s : string) : string * string :=
  match s with
  | "" => ("", "")
  | String c r =>
      if isHexDigit c
      then let (d, t) := spanHex r in (String c d, t)
      else ("", s)
  end.

Fixpoint hexValue (acc : Z) (s : string) : Z :=
  match s with
  | "" => acc
  | String c r => hexValue (16 * acc + hexVal c)%Z r
  end.

(** [parseInt] without a radix: white space, sign, an optional [0x]/[0X]
    prefix, then the longest run of digits of the radix; [None] is [NaN]. *)
Definition parseInt (s : string) : option Z :=
  let (n, t) := parseSign (trimStart s) in
  match t with
  | String "0" (String x r) =>
      if Ascii.eqb x "x" || Ascii.eqb x "X" then
        match fst (spanHex r) with
        | "" => None
        | ds => Some (signed n (hexValue 0 ds))
        end
      else Some (signed n (digitsValue 0 (fst (spanDigits t))))
  | _ =>
      match fst (spanDigits t) with
      | "" => None
      | ds => Some (signed n (digitsValue 0 ds))
      end
  end.

Definition ofInt (c : option Z) : number :=
  match c with None => NaN | Some z => ofZ z end.

(** ** Printing *)

Definition digitChar (d : Z) : ascii := ascii_of_N (48 + Z.to_N d).

Fixpoint digitsAux (fuel : nat) (n : Z) (acc : string) : string :=
  match fuel with
  | O => acc
  | S f =>
      let acc' := String (digitChar (n mod 10)) acc in
      if (n / 10 =? 0)%Z then acc' else digitsAux f (n / 10)%Z acc'
  end.

(** The decimal digits of a non-negative integer; ["0"] for zero. *)
Definition decimalDigits (n : Z) : string :=
  digitsAux (S (Z.to_nat (Z.log2 n))) n "".

(** [String(z)] for an integer below 10^21 in magnitude. *)
Definition intToString (z : Z) : string :=
  if (z <? 0)%Z then "-" ++ decimalDigits (- z) else decimalDigits z.

Fixpoint zeros (k : nat) : string :=
  match k with O => "" | S k' => String "0" (zeros k') end.

(** The integer nearest to a non-negative [q], the larger one on a tie. *)
Definition roundHalfUp (q : Q) : Z := Qfloor (q + (1 # 2)).

Section ToFixed.

(** [Number::toString] for magnitudes of at least 10^21, where
    [toFixed] hands over to it (it prints the shortest digits that read
    back as the same number, in exponent notation): a parameter of the
    embedding. *)
Variable bigToString : Q -> string.

(** [x.toFixed(d)], for [0 <= d <= 100] (outside of which the built-in
    throws a [RangeError]; the precisions of [TRADING_RULES] are at
    most 5). *)
Definition toFixed (x : number) (d : nat) : string :=
  match x with
  | NaN => "NaN"
  | Infinity n => if n then "-Infinity" else "Infinity"
  | Fin q =>
      let s := if Qneg q then "-" else "" in
      let a := Qabs q in
      if Qle_bool (inject_Z (10 ^ 21)) a then s ++ bigToString a
      else
        let m := decimalDigits (roundHalfUp (a * inject_Z (10 ^ Z.of_nat d))) in
        match d with
        | O => s ++ m
        | _ =>
            let m' := zeros (S d - String.length m) ++ m in
            let k := String.length m' in
            s ++ substring 0 (k - d) m' ++ "." ++ substring (k - d) d m'
        end
  end.

End ToFixed.

End JS.

(* ================================================================== *)
(** * types.ts *)
(* ================================================================== *)

Module Types.

Inductive OrderSide : Type := BUY | SELL.

Inductive OrderType : Type := MARKET | LIMIT | STOP_LIMIT.

Record OrderRequest : Type := {
  symbol : string;
  side : OrderSide;
  type : OrderType;
  quantity : string;
  price : option string;
  stopPrice : option string;
  timeInForce : option string
}.

Record ApiCredentials : Type := {
  apiKey : string;
  apiSecret : string
}.

Definition sideString (s : OrderSide) : string :=
  match s with BUY => "BUY" | SELL => "SELL" end.

Definition typeString (t : OrderType) : string :=
  match t with
  | MARKET => "MARKET"
  | LIMIT => "LIMIT"
  | STOP_LIMIT => "STOP_LIMIT"
  end.

End Types.

(* ================================================================== *)
(** * utils/validator.ts *)
(* ================================================================== *)

Module Validator.
Import JS Types.

Record SymbolRules : Type := {
  minQty : Q;
  priceDecimals : nat;
  qtyDecimals : nat
}.

Definition TRADING_RULES : list (string * SymbolRules) :=
  [ ("BTCUSDT",  {| minQty := 1 # 1000; priceDecimals := 1; qtyDecimals := 3 |});
    ("ETHUSDT",  {| minQty := 1 # 100;  priceDecimals := 2; qtyDecimals := 3 |});
    ("BNBUSDT",  {| minQty := 1 # 100;  priceDecimals := 2; qtyDecimals := 2 |});
    ("SOLUSDT",  {| minQty := 1;        priceDecimals := 3; qtyDecimals := 0 |});
    ("XRPUSDT",  {| minQty := 1 # 10;   priceDecimals := 4; qtyDecimals := 1 |});
    ("ADAUSDT",  {| minQty := 1;        priceDecimals := 4; qtyDecimals := 0 |});
    ("DOGEUSDT", {| minQty := 1;        priceDecimals := 5; qtyDecimals := 0 |});
    ("DEFAULT",  {| minQty := 1 # 1000; priceDecimals := 2; qtyDecimals := 3 |}) ].

Definition DEFAULT_RULES : SymbolRules :=
  {| minQty := 1 # 1000; priceDecimals := 2; qtyDecimals := 3 |}.

Fixpoint lookup (k : string) (t : list (string * SymbolRules))
  : option SymbolRules :=
  match t with
  | [] => None
  | (k', v) :: t' => if String.eqb k k' then Some v else lookup k t'
  end.

Definition getSymbolRules (symbol : string) : SymbolRules :=
  match lookup (toUpperCase symbol) TRADING_RULES with
  | Some r => r
  | None =>
      match lookup "DEFAULT" TRADING_RULES with
      | Some r => r
      | None => DEFAULT_RULES
      end
  end.

Definition countDecimals (valueStr : string) : nat :=
  if (indexOf "." valueStr =? -1)%Z then 0
  else String.length (nth 1 (split "." valueStr) "").

(** The messages of the two validators. *)
Inductive ValidationError : Type :=
| QuantityRequired
| QuantityBelowMinimum (qty : number) (min : Q) (symbol : string)
| QuantityPrecisionTooHigh (max : nat)
| PriceRequired
| PriceNotPositive
| PricePrecisionTooHigh (max : nat)
| StopPriceRequired
| StopPriceNotPositive
| StopPricePrecisionTooHigh (max : nat)
| GridPricesRequired
| GridMinNotLower
| GridMinNotPositive
| GridMinPrecisionTooHigh (max : nat)
| GridMaxPrecisionTooHigh (max : nat)
| GridQuantityRequired
| GridQuantityBelowMinimum (min : Q)
| GridQuantityPrecisionTooHigh (max : nat)
| GridCountTooLow.

(** [!s || isNaN(parseFloat(s))] on an optional string. *)
Definition missingOrNaN (o : option string) : bool :=
  match o with
  | None => true
  | Some s => negb (truthy s) || isNaN (parseFloat s)
  end.

(** Step 2 of [validateOrderInput]: the price of a LIMIT or STOP_LIMIT
    order. *)
Definition validatePrice (rules : SymbolRules) (order : OrderRequest)
  : option ValidationError :=
  match type order with
  | LIMIT | STOP_LIMIT =>
      if missingOrNaN (price order) then Some PriceRequired
      else
        let p := orElse (price order) "" in
        if le (parseFloat p) (ofZ 0) then Some PriceNotPositive
        else if (priceDecimals rules <? countDecimals p)%nat
        then Some (PricePrecisionTooHigh (priceDecimals rules))
        else None
  | MARKET => None
  end.

(** Step 3 of [validateOrderInput]: the stop price of a STOP_LIMIT order. *)
Definition validateStopPrice (rules : SymbolRules) (order : OrderRequest)
  : option ValidationError :=
  match type order with
  | STOP_LIMIT =>
      if missingOrNaN (stopPrice order) then Some StopPriceRequired
      else
        let p := orElse (stopPrice order) "" in
        if le (parseFloat p) (ofZ 0) then Some StopPriceNotPositive
        else if (priceDecimals rules <? countDecimals p)%nat
        then Some (StopPricePrecisionTooHigh (priceDecimals rules))
        else None
  | _ => None
  end.

(** [validateOrderInput]: [None] is the [null] of an accepted order. *)
Definition validateOrderInput (order : OrderRequest)
  : option ValidationError :=
  let rules := getSymbolRules (symbol order) in
  if negb (truthy (quantity order)) || isNaN (parseFloat (quantity order))
  then Some QuantityRequired
  else
    let qty := parseFloat (quantity order) in
    if lt qty (ofDecimal (minQty rules))
    then Some (QuantityBelowMinimum qty (minQty rules) (symbol order))
    else if (qtyDecimals rules <? countDecimals (quantity order))%nat
    then Some (QuantityPrecisionTooHigh (qtyDecimals rules))
    else
      match validatePrice rules order with
      | Some e => Some e
      | None => validateStopPrice rules order
      end.

Definition validateGridInput (symbol minPrice maxPrice quantity : string)
  : option ValidationError :=
  let rules := getSymbolRules symbol in
  if negb (truthy minPrice) || negb (truthy maxPrice)
  then Some GridPricesRequired
  else
    let min := parseFloat minPrice in
    let max := parseFloat maxPrice in
    if ge min max then Some GridMinNotLower
    else if le min (ofZ 0) then Some GridMinNotPositive
    else if (priceDecimals rules <? countDecimals minPrice)%nat
    then Some (GridMinPrecisionTooHigh (priceDecimals rules))
    else if (priceDecimals rules <? countDecimals maxPrice)%nat
    then Some (GridMaxPrecisionTooHigh (priceDecimals rules))
    else if negb (truthy quantity) then Some GridQuantityRequired
    else
      let qty := parseFloat quantity in
      if lt qty (ofDecimal (minQty rules))
      then Some (GridQuantityBelowMinimum (minQty rules))
      else if (qtyDecimals rules <? countDecimals quantity)%nat
      then Some (GridQuantityPrecisionTooHigh (qtyDecimals rules))
      else None.

End Validator.

(* ================================================================== *)
(** * components/GridForm.tsx *)
(* ================================================================== *)

Module GridForm.
Import JS Types Validator.

(** What the submit handler ends with: [setValidationError(msg)] or
    [onSubmit(orders)]. *)
Inductive Outcome : Type :=
| ValidationFailed (e : ValidationError)
| Submitted (orders : list OrderRequest).

Section Generator.

Variable bigToString : Q -> string.

(** [1 / Math.pow(10, rules.priceDecimals)]. *)
Definition priceUnit (rules : SymbolRules) : number :=
  div (ofZ 1) (pow10 (priceDecimals rules)).

(** [min + (i * step)]. *)
Definition priceLevel (min step : number) (i : Z) : number :=
  add min (mul (ofZ i) step).

(** The body of the [for] loop at index [i], run for [fuel] more
    iterations. *)
Fixpoint gridLoop (fuel : nat) (i : Z) (symbol : string)
    (rules : SymbolRules) (min step ref : number) (qty : string)
  : list OrderRequest :=
  match fuel with
  | O => []
  | S fuel' =>
      let level := priceLevel min step i in
      let priceStr := toFixed bigToString level (priceDecimals rules) in
      let rest := gridLoop fuel' (i + 1) symbol rules min step ref qty in
      if lt (abs (sub level ref)) (priceUnit rules) then rest
      else
        {| symbol := symbol;
           side := if lt level ref then BUY else SELL;
           type := LIMIT;
           quantity := qty;
           price := Some priceStr;
           stopPrice := None;
           timeInForce := Some "GTC" |} :: rest
  end.

(** The number of times [for (let i = 0; i < count; i++)] runs its body;
    none when [count] is [NaN]. *)
Definition iterations (count : option Z) : nat :=
  match count with
  | Some c => Z.to_nat c
  | None => O
  end.

(** [generateGrid] on the form's state: the symbol and the five input
    strings. *)
Definition generateGrid
    (symbol minPrice maxPrice gridCount refPrice quantityPerGrid : string)
  : Outcome :=
  match validateGridInput symbol minPrice maxPrice quantityPerGrid with
  | Some error => ValidationFailed error
  | None =>
      let min := parseFloat minPrice in
      let max := parseFloat maxPrice in
      let count := parseInt gridCount in
      let ref := parseFloat refPrice in
      let qty := quantityPerGrid in
      if lt (ofInt count) (ofZ 2) then ValidationFailed GridCountTooLow
      else
        let rules := getSymbolRules symbol in
        let step := div (sub max min) (sub (ofInt count) (ofZ 1)) in
        Submitted (gridLoop (iterations count) 0 symbol rules min step ref qty)
  end.

End Generator.

End GridForm.

(* ================================================================== *)
(** * Effects: clock, randomness, signing, network, logging *)
(* ================================================================== *)

Module Effects.
Import JS Types.

(** [BinanceOrderResponse] of types.ts. *)
Record BinanceOrderResponse : Type := {
  orderId : Z;
  r_symbol : string;
  status : string;
  clientOrderId : string;
  r_price : string;
  avgPrice : string;
  origQty : string;
  executedQty : string;
  cumQuote : string;
  r_timeInForce : string;
  r_type : string;
  r_side : string;
  r_stopPrice : string;
  workingType : string;
  priceProtect : bool;
  origType : string;
  updateTime : Z
}.

(** The object [mockCancelOrder] resolves with. *)
Record MockCancelResponse : Type := {
  c_symbol : string;
  c_orderId : Z;
  c_clientOrderId : string;
  c_status : string;
  c_origQty : string;
  c_executedQty : string;
  c_cumQuote : string;
  c_timeInForce : string;
  c_type : string;
  c_side : string;
  c_updateTime : Z
}.

(** A parsed JSON body: its [msg] property, and its fields read at type
    [BinanceOrderResponse] (the sources cast it without a check). *)
Record Data : Type := {
  msg : option string;
  view : BinanceOrderResponse
}.

Record Request : Type := {
  method : string;
  url : string;
  apiKeyHeader : string   (* the X-MBX-APIKEY header *)
}.

Record Response : Type := {
  ok : bool;
  http_status : Z;
  json : option Data      (* [None]: [response.json()] rejects *)
}.

(** What [await fetch(...)] gives: a rejection, or a response after some
    time. *)
Inductive FetchResult : Type :=
| Rejected
| Responded (elapsed : Z) (r : Response).

(** The values of JavaScript [Error]s thrown by the sources. *)
Inductive Error : Type :=
| ApiCredentialsMissing            (* 'API Credentials missing' *)
| PriceRequiredForLimit            (* 'Price is required for LIMIT orders' *)
| PriceRequiredForStopLimit        (* 'Price is required for STOP_LIMIT orders' *)
| StopPriceRequiredForStopLimit    (* 'Stop Price is required for STOP_LIMIT orders' *)
| ExchangeMessage (m : string)     (* data.msg *)
| ApiErrorStatus (code : Z)        (* `API Error: ${response.status}` *)
| SimulatedFailure                 (* 'Simulated network error or insufficient balance' *)
| TransportFailure.                (* a rejected fetch or json() *)

Inductive LogLevel : Type := INFO | SUCCESS | ERROR | WARN.

(** The messages [handleGridSubmit] passes to [addLog]. *)
Inductive LogMessage : Type :=
| GridStarting (count : nat)
| GridCredentialsRequired
| GridOrderPlaced (order : OrderRequest)
| GridOrderFailed (order : OrderRequest) (error : Error)
| GridComplete (successCount failCount : Z).

Inductive Event : Type :=
| CallPlaceOrder (isDemo : bool) (order : OrderRequest)
      (* entry of [placeOrder]; a marker, not an effect of its own *)
| CallCancelOrder (isDemo : bool) (symbol orderId : string)
      (* entry of [cancelOrder]; a marker *)
| Sleep (ms : Z)                (* an awaited [setTimeout] of [ms] *)
| Sign (key message : string)   (* [crypto.subtle.sign] with HMAC/SHA-256 *)
| Fetch (req : Request)
| Log (level : LogLevel) (m : LogMessage)
| SetIsLoading (b : bool).

(** The part of the world the code reads: the clock behind [Date.now()],
    and how many network calls and [Math.random()] draws were made. *)
Record World : Type := {
  clock : Z;
  calls : nat;
  draws : nat
}.

(** What the code cannot determine: the digest function behind
    [crypto.subtle], the outcome of the n-th network call, and the n-th
    value of [Math.random()]. *)
Record Env : Type := {
  hmac : string -> string -> string;
  network : nat -> Request -> FetchResult;
  randomValue : nat -> Q
}.

Inductive Result (A : Type) : Type :=
| Ok (a : A)
| Throw (e : Error).
Arguments Ok {A} a.
Arguments Throw {A} e.

(** An asynchronous computation: from a world to a result (a resolved or a
    rejected promise), the world after it, and the events it emitted, in
    order.  [await] is sequencing. *)
Definition M (A : Type) : Type := World -> Result A * World * list Event.

Definition ret {A} (a : A) : M A := fun w => (Ok a, w, []).

Definition throw {A} (e : Error) : M A := fun w => (Throw e, w, []).

Definition bind {A B} (c : M A) (k : A -> M B) : M B :=
  fun w =>
    match c w with
    | (Ok a, w1, t1) =>
        match k a w1 with
        | (r, w2, t2) => (r, w2, (t1 ++ t2)%list)
        end
    | (Throw e, w1, t1) => (Throw e, w1, t1)
    end.

(** [try { c } catch (e) { h e }]. *)
Definition tryCatch {A} (c : M A) (h : Error -> M A) : M A :=
  fun w =>
    match c w with
    | (Ok a, w1, t1) => (Ok a, w1, t1)
    | (Throw e, w1, t1) =>
        match h e w1 with
        | (r, w2, t2) => (r, w2, (t1 ++ t2)%list)
        end
    end.

Definition emit (e : Event) : M unit := fun w => (Ok tt, w, [e]).

(** [Date.now()]. *)
Definition now : M Z := fun w => (Ok (clock w), w, []).

(** [await new Promise(r => setTimeout(r, ms))]; the timer is taken to fire
    on time. *)
Definition sleep (ms : Z) : M unit :=
  fun w => (Ok tt, {| clock := clock w + ms; calls := calls w; draws := draws w |},
            [Sleep ms]).

End Effects.

Declare Scope js_scope.
Delimit Scope js_scope with js.
Notation "x <- c ;; k" := (Effects.bind c (fun x => k))
  (at level 61, c at next level, right associativity) : js_scope.
Notation "c ;; k" := (Effects.bind c (fun _ => k))
  (at level 61, right associativity) : js_scope.

(* ================================================================== *)
(** * services/api.ts and utils/crypto.ts *)
(* ================================================================== *)

Module Api.
Import JS Types Effects.
Local Open Scope js_scope.

Definition BASE_URL : string := "https://testnet.binancefuture.com".

(** A [Record<string, string>] whose keys are enumerated by [Object.keys]:
    none of the keys used is an array index, so the order is the order of
    first assignment. *)
Definition Params : Type := list (string * string).

(** [params[k] = v]. *)
Fixpoint setParam (k v : string) (params : Params) : Params :=
  match params with
  | [] => [(k, v)]
  | (k', v') :: rest =>
      if String.eqb k k' then (k, v) :: rest
      else (k', v') :: setParam k v rest
  end.

(** [parts.join(sep)]. *)
Fixpoint join (sep : string) (parts : list string) : string :=
  match parts with
  | [] => ""
  | [p] => p
  | p :: rest => p ++ sep ++ join sep rest
  end.

(** [Object.keys(params).map(key => `${key}=${params[key]}`).join('&')]. *)
Definition toQueryString (params : Params) : string :=
  join "&" (map (fun kv => fst kv ++ "=" ++ snd kv) params).

Section WithEnv.

Variable env : Env.

(** [Math.random()]. *)
Definition random : M Q :=
  fun w => (Ok (randomValue env (draws w)),
            {| clock := clock w; calls := calls w; draws := S (draws w) |},
            []).

(** [hmacSha256(key, message)]: the hexadecimal digest. *)
Definition hmacSha256 (key message : string) : M string :=
  emit (Sign key message);;
  ret (hmac env key message).

(** [await fetch(url, {method, headers})] followed by
    [await response.json()]. *)
Definition fetchJson (req : Request) : M (Response * Data) :=
  fun w =>
    let w' elapsed := {| clock := clock w + elapsed;
                         calls := S (calls w);
                         draws := draws w |} in
    match network env (calls w) req with
    | Rejected => (Throw TransportFailure, w' 0%Z, [Fetch req])
    | Responded elapsed r =>
        match json r with
        | None => (Throw TransportFailure, w' elapsed, [Fetch req])
        | Some d => (Ok (r, d), w' elapsed, [Fetch req])
        end
    end.

Definition mockPlaceOrder (order : OrderRequest) : M BinanceOrderResponse :=
  sleep 800;;
  let success := true in
  if success then
    r <- random;;
    t <- now;;
    ret {| orderId := Qfloor (r * inject_Z 1000000000);
           r_symbol := toUpperCase (symbol order);
           status := "NEW";
           clientOrderId := "web_" ++ intToString t;
           r_price := orElse (price order) "0";
           avgPrice := "0.00000";
           origQty := quantity order;
           executedQty := "0";
           cumQuote := "0";
           r_timeInForce := "GTC";
           r_type := typeString (type order);
           r_side := sideString (side order);
           r_stopPrice := orElse (stopPrice order) "0";
           workingType := "CONTRACT_PRICE";
           priceProtect := false;
           origType := typeString (type order);
           updateTime := t |}
  else throw SimulatedFailure.

Definition mockCancelOrder (symbol orderId : string) : M MockCancelResponse :=
  sleep 600;;
  id <- (if isNumericId orderId
         then ret (match parseInt orderId with Some z => z | None => 0%Z end)
         else (r <- random;; ret (Qfloor (r * inject_Z 1000000000))));;
  t <- now;;
  ret {| c_symbol := toUpperCase symbol;
         c_orderId := id;
         c_clientOrderId :=
           if isNumericId orderId then "web_" ++ intToString t else orderId;
         c_status := "CANCELED";
         c_origQty := "0.100";
         c_executedQty := "0.000";
         c_cumQuote := "0.000";
         c_timeInForce := "GTC";
         c_type := "LIMIT";
         c_side := "BUY";
         c_updateTime := t |}.

(** The parameters of [realPlaceOrder], with the mapping of the order type
    to the exchange's. *)
Definition orderParams (order : OrderRequest) (timestamp : Z) : M Params :=
  let params :=
    [ ("symbol", toUpperCase (symbol order));
      ("side", sideString (side order));
      ("quantity", quantity order);
      ("timestamp", intToString timestamp);
      ("recvWindow", "5000") ] in
  match type order with
  | MARKET => ret (setParam "type" "MARKET" params)
  | LIMIT =>
      let params := setParam "type" "LIMIT" params in
      if negb (truthyOpt (price order)) then throw PriceRequiredForLimit
      else
        let params := setParam "price" (orElse (price order) "") params in
        ret (setParam "timeInForce" "GTC" params)
  | STOP_LIMIT =>
      let params := setParam "type" "STOP" params in
      if negb (truthyOpt (price order)) then throw PriceRequiredForStopLimit
      else if negb (truthyOpt (stopPrice order))
      then throw StopPriceRequiredForStopLimit
      else
        let params := setParam "price" (orElse (price order) "") params in
        let params :=
          setParam "stopPrice" (orElse (stopPrice order) "") params in
        ret (setParam "timeInForce" "GTC" params)
  end.

(** The tail shared by [realPlaceOrder] and [realCancelOrder]: sign the
    query string, append the signature, issue the request, and fail on a
    non-success status. *)
Definition signedRequest (httpMethod : string) (creds : ApiCredentials)
    (params : Params) : M Data :=
  let endpoint := "/fapi/v1/order" in
  let queryString := toQueryString params in
  signature <- hmacSha256 (apiSecret creds) queryString;;
  let fullQueryString := queryString ++ "&signature=" ++ signature in
  rd <- fetchJson {| method := httpMethod;
                     url := BASE_URL ++ endpoint ++ "?" ++ fullQueryString;
                     apiKeyHeader := apiKey creds |};;
  let (response, data) := rd : Response * Data in
  if negb (ok response) then
    throw (match msg data with
           | Some m => if truthy m then ExchangeMessage m
                       else ApiErrorStatus (http_status response)
           | None => ApiErrorStatus (http_status response)
           end)
  else ret data.

Definition realPlaceOrder (order : OrderRequest) (creds : ApiCredentials)
  : M BinanceOrderResponse :=
  if negb (truthy (apiKey creds)) || negb (truthy (apiSecret creds))
  then throw ApiCredentialsMissing
  else
    timestamp <- now;;
    params <- orderParams order timestamp;;
    data <- signedRequest "POST" creds params;;
    ret (view data).

Definition realCancelOrder (symbol orderId : string) (creds : ApiCredentials)
  : M Data :=
  if negb (truthy (apiKey creds)) || negb (truthy (apiSecret creds))
  then throw ApiCredentialsMissing
  else
    timestamp <- now;;
    let params :=
      [ ("symbol", toUpperCase symbol);
        ("timestamp", intToString timestamp);
        ("recvWindow", "5000") ] in
    let params :=
      if isNumericId orderId then setParam "orderId" orderId params
      else setParam "origClientOrderId" orderId params in
    signedRequest "DELETE" creds params.

Definition placeOrder (isDemo : bool) (order : OrderRequest)
    (creds : ApiCredentials) : M BinanceOrderResponse :=
  emit (CallPlaceOrder isDemo order);;
  if isDemo then mockPlaceOrder order
  else realPlaceOrder order creds.

(** [cancelOrder] resolves with [any]: the mock's object or the
    exchange's JSON. *)
Definition cancelOrder (isDemo : bool) (symbol orderId : string)
    (creds : ApiCredentials) : M (MockCancelResponse + Data) :=
  emit (CallCancelOrder isDemo symbol orderId);;
  if isDemo then (r <- mockCancelOrder symbol orderId;; ret (inl r))
  else (d <- realCancelOrder symbol orderId creds;; ret (inr d)).

End WithEnv.

End Api.

(* ================================================================== *)
(** * App.tsx: the grid dispatcher *)
(* ================================================================== *)

Module App.
Import JS Types Effects Api.
Local Open Scope js_scope.

Section WithEnv.

Variable env : Env.

Definition addLog (level : LogLevel) (m : LogMessage) : M unit :=
  emit (Log level m).

Definition setIsLoading (b : bool) : M unit := emit (SetIsLoading b).

(** The [for (const order of orders)] loop of [handleGridSubmit], with
    the two counters it updates. *)
Fixpoint submitEach (demoMode : bool) (creds : ApiCredentials)
    (orders : list OrderRequest) (successCount failCount : Z)
  : M (Z * Z) :=
  match orders with
  | [] => ret (successCount, failCount)
  | order :: rest =>
      counts <-
        tryCatch
          (placeOrder env demoMode order creds;;
           addLog SUCCESS (GridOrderPlaced order);;
           sleep 200;;
           ret (successCount + 1, failCount)%Z)
          (fun error =>
             addLog ERROR (GridOrderFailed order error);;
             ret (successCount, failCount + 1)%Z);;
      submitEach demoMode creds rest (fst counts) (snd counts)
  end.

(** [handleGridSubmit], in a component whose state holds [demoMode],
    [apiKey] and [apiSecret]. *)
Definition handleGridSubmit (demoMode : bool) (apiKey apiSecret : string)
    (orders : list OrderRequest) : M unit :=
  setIsLoading true;;
  addLog INFO (GridStarting (List.length orders));;
  if negb demoMode && (negb (truthy apiKey) || negb (truthy apiSecret))
  then
    addLog ERROR GridCredentialsRequired;;
    setIsLoading false
  else
    let creds := {| Types.apiKey := apiKey; Types.apiSecret := apiSecret |} in
    counts <- submitEach demoMode creds orders 0 0;;
    addLog INFO (GridComplete (fst counts) (snd counts));;
    setIsLoading false.

End WithEnv.

End App.

(* ================================================================== *)
(** * services/websocket.ts: reconnecting stream sessions *)
(* ================================================================== *)

Module Websocket.
Import JS.

Definition RECONNECT_DELAY : Z := 3000.

(** What a session does to the browser and to its subscriber. *)
Inductive Action : Type :=
| NewWebSocket (endpoint : string)        (* [new WebSocket(endpoint)] *)
| SetTimeout (id : nat) (delay : Z)       (* [setTimeout(connect, delay)] *)
| ClearTimeout (id : nat)
| CloseSocket (socket : nat)              (* [ws.close()] *)
| Console (text : string)
| Deliver (payload : string).             (* the subscriber's callback *)

(** What an [onmessage] handler makes of a payload: a call of the
    subscriber's callback, nothing (another kind of event), or a logged
    parse error. *)
Inductive Handled : Type :=
| Callback (payload : string)
| Skipped
| ParseFailed.

(** What the browser does to a session: the events of its sockets, the
    expiry of a timer (with whether the [WebSocket] constructor, called by
    [connect], throws), and the call of the cleanup function returned to the
    subscriber. *)
Inductive Input : Type :=
| SocketOpened (socket : nat)
| SocketMessage (socket : nat) (data : string)
| SocketError (socket : nat)
| SocketClosed (socket : nat)
| TimerFired (id : nat) (constructorThrows : bool)
| Unsubscribe.

(** The closure variables [active], [ws] and [reconnectTimeout] of a
    subscription, with the browser's side of it: the sockets it created
    whose [close] event is still to come, the timeouts that are pending,
    the supply of handles, and the actions taken so far. *)
Record Session : Type := {
  active : bool;
  ws : option nat;
  reconnectTimeout : option nat;
  sockets : list nat;
  timers : list (nat * Z);
  nextSocket : nat;
  nextTimer : nat;
  actions : list Action
}.

Definition act (a : Action) (st : Session) : Session :=
  {| active := active st; ws := ws st;
     reconnectTimeout := reconnectTimeout st;
     sockets := sockets st; timers := timers st;
     nextSocket := nextSocket st; nextTimer := nextTimer st;
     actions := actions st ++ [a] |}.

(** [reconnectTimeout = setTimeout(connect, RECONNECT_DELAY)]. *)
Definition scheduleReconnect (st : Session) : Session :=
  let id := nextTimer st in
  act (SetTimeout id RECONNECT_DELAY)
    {| active := active st; ws := ws st;
       reconnectTimeout := Some id;
       sockets := sockets st;
       timers := timers st ++ [(id, RECONNECT_DELAY)];
       nextSocket := nextSocket st; nextTimer := S id;
       actions := actions st |}.

(** [active = false]. *)
Definition deactivate (st : Session) : Session :=
  {| active := false; ws := ws st;
     reconnectTimeout := reconnectTimeout st;
     sockets := sockets st; timers := timers st;
     nextSocket := nextSocket st; nextTimer := nextTimer st;
     actions := actions st |}.

Definition removeTimer (id : nat) (l : list (nat * Z)) : list (nat * Z) :=
  filter (fun t => negb (Nat.eqb (fst t) id)) l.

Definition removeSocket (s : nat) (l : list nat) : list nat :=
  filter (fun x => negb (Nat.eqb x s)) l.

Definition hasTimer (id : nat) (l : list (nat * Z)) : bool :=
  existsb (fun t => Nat.eqb (fst t) id) l.

Definition hasSocket (s : nat) (l : list nat) : bool :=
  existsb (Nat.eqb s) l.

(** [clearTimeout(id)]. *)
Definition clearTimeout (id : nat) (st : Session) : Session :=
  act (ClearTimeout id)
    {| active := active st; ws := ws st;
       reconnectTimeout := reconnectTimeout st;
       sockets := sockets st;
       timers := removeTimer id (timers st);
       nextSocket := nextSocket st; nextTimer := nextTimer st;
       actions := actions st |}.

(** [ws.close(); ws = null]: the socket's [close] event comes later. *)
Definition closeSocket (s : nat) (st : Session) : Session :=
  act (CloseSocket s)
    {| active := active st; ws := None;
       reconnectTimeout := reconnectTimeout st;
       sockets := sockets st; timers := timers st;
       nextSocket := nextSocket st; nextTimer := nextTimer st;
       actions := actions st |}.

(** The browser takes a timer off its list when it expires, and a socket
    when it delivers its [close] event. *)
Definition expire (id : nat) (st : Session) : Session :=
  {| active := active st; ws := ws st;
     reconnectTimeout := reconnectTimeout st;
     sockets := sockets st;
     timers := removeTimer id (timers st);
     nextSocket := nextSocket st; nextTimer := nextTimer st;
     actions := actions st |}.

Definition closed (s : nat) (st : Session) : Session :=
  {| active := active st; ws := ws st;
     reconnectTimeout := reconnectTimeout st;
     sockets := removeSocket s (sockets st);
     timers := timers st;
     nextSocket := nextSocket st; nextTimer := nextTimer st;
     actions := actions st |}.

Section Stream.

(** The address of the stream and what its [onmessage] handler, which
    parses the JSON payload, makes of it; the handler reads and writes
    none of [active], [ws] and [reconnectTimeout]. *)
Variable endpoint : string.
Variable onmessage : string -> Handled.

(** [connect()]. *)
Definition connect (constructorThrows : bool) (st : Session) : Session :=
  if negb (active st) then st
  else
    let st := act (NewWebSocket endpoint) st in
    if constructorThrows then
      let st := act (Console "Failed to connect") st in
      if active st then scheduleReconnect st else st
    else
      let s := nextSocket st in
      {| active := active st;
         ws := Some s;
         reconnectTimeout := reconnectTimeout st;
         sockets := sockets st ++ [s];
         timers := timers st;
         nextSocket := S s; nextTimer := nextTimer st;
         actions := actions st |}.

(** The [onclose] handler installed by [connect]. *)
Definition onclose (st : Session) : Session :=
  if active st
  then scheduleReconnect (act (Console "closed. Reconnecting") st)
  else st.

(** The cleanup function returned to the subscriber. *)
Definition cleanup (st : Session) : Session :=
  let st := deactivate st in
  let st :=
    match reconnectTimeout st with
    | Some id => if Nat.eqb id 0 then st else clearTimeout id st
    | None => st
    end in
  match ws st with
  | Some s => closeSocket s st
  | None => st
  end.

(** One turn of the event loop.  An event of a socket that has already
    closed, or the expiry of a timeout that is not pending, does not
    happen: such an input leaves the session as it is.  The line that
    [onopen] logs is that of the user data stream; the ticker's [onopen]
    logs nothing, and no property below speaks of that line. *)
Definition step (st : Session) (i : Input) : Session :=
  match i with
  | SocketOpened s =>
      if hasSocket s (sockets st) then act (Console "Connected") st else st
  | SocketMessage s data =>
      if hasSocket s (sockets st) then
        match onmessage data with
        | Callback payload => act (Deliver payload) st
        | Skipped => st
        | ParseFailed => act (Console "Error parsing") st
        end
      else st
  | SocketError s =>
      if hasSocket s (sockets st) then act (Console "WebSocket error") st
      else st
  | SocketClosed s =>
      if hasSocket s (sockets st) then onclose (closed s st) else st
  | TimerFired id constructorThrows =>
      if hasTimer id (timers st)
      then connect constructorThrows (expire id st)
      else st
  | Unsubscribe => cleanup st
  end.

Definition run (st : Session) (inputs : list Input) : Session :=
  fold_left step inputs st.

(** The variables at the start of a subscription; timer handles are
    positive. *)
Definition fresh : Session :=
  {| active := true; ws := None; reconnectTimeout := None;
     sockets := []; timers := [];
     nextSocket := 0; nextTimer := 1; actions := [] |}.

(** The session after the first [connect()] of a subscription. *)
Definition subscribe (constructorThrows : bool) : Session :=
  connect constructorThrows fresh.

End Stream.

(** [subscribeToTicker(symbol, callback)]: no session for an empty symbol,
    whose cleanup function does nothing. *)
Definition subscribeToTicker (symbol : string) (constructorThrows : bool)
  : option Session :=
  if negb (truthy symbol) then None
  else
    Some (subscribe
            ("wss://stream.binancefuture.com/ws/"
               ++ toLowerCase symbol ++ "@bookTicker")
            constructorThrows).

(** [subscribeToUserData(listenKey, onOrderUpdate)]. *)
Definition subscribeToUserData (listenKey : string)
    (constructorThrows : bool) : Session :=
  subscribe ("wss://stream.binancefuture.com/ws/" ++ listenKey)
    constructorThrows.

(** The number of connection attempts among some actions. *)
Definition isConnect (a : Action) : bool :=
  match a with NewWebSocket _ => true | _ => false end.

Definition connectionAttempts (st : Session) : nat :=
  List.length (filter isConnect (actions st)).

(** The states a session is in between two turns of the event loop: no
    socket and no timer; one socket; or, while active, no socket and one
    pending timer of [RECONNECT_DELAY], the one [reconnectTimeout] holds. *)
Inductive Shape (st : Session) : Prop :=
| Idle :
    timers st = [] -> sockets st = [] -> Shape st
| Connected (s : nat) :
    timers st = [] -> sockets st = [s] -> Shape st
| ReconnectScheduled (id : nat) :
    active st = true ->
    timers st = [(id, RECONNECT_DELAY)] -> sockets st = [] ->
    reconnectTimeout st = Some id -> id <> O ->
    Shape st.

Definition Inv (st : Session) : Prop := Shape st /\ nextTimer st <> O.

(** A session that is connected or about to reconnect. *)
Definition Retrying (st : Session) : Prop :=
  (exists s, sockets st = [s] /\ timers st = [])
  \/ (exists id, timers st = [(id, RECONNECT_DELAY)] /\ sockets st = []
                 /\ reconnectTimeout st = Some id).

End Websocket.

(* ================================================================== *)
(** * services/websocket.ts: the message handlers *)
(* ================================================================== *)

Module Streams.
Import JS Websocket.

(** The fields of a parsed ticker payload that the handler reads, each a
    string or absent. *)
Record BookTicker : Type := {
  e : option string;
  b : option string;
  a : option string
}.

(** [(bid + ask) / 2]. *)
Definition midPrice (bid ask : number) : number :=
  div (add bid ask) (ofZ 2).

Section Ticker.

Variable bigToString : Q -> string.

(** [mid < 10 ? mid.toFixed(4) : mid.toFixed(2)]. *)
Definition formatMid (mid : number) : string :=
  if lt mid (ofZ 10) then toFixed bigToString mid 4
  else toFixed bigToString mid 2.

(** The body of the ticker's [onmessage], on the result of
    [JSON.parse(event.data)]; [None] is a payload that does not parse to an
    object. *)
Definition tickerMessage (data : option BookTicker) : Handled :=
  match data with
  | None => ParseFailed
  | Some d =>
      if match e d with Some k => String.eqb k "bookTicker" | None => false end
         && truthyOpt (b d) && truthyOpt (a d)
      then
        let bid := parseFloat (orElse (b d) "") in
        let ask := parseFloat (orElse (a d) "") in
        Callback (formatMid (midPrice bid ask))
      else Skipped
  end.

End Ticker.

End Streams.

(* ================================================================== *)
(** * components/OrderForm.tsx and components/CancelForm.tsx *)
(* ================================================================== *)

Module OrderForm.
Import JS Types Validator.

(** The state of the form. *)
Record Form : Type := {
  f_symbol : string;
  f_side : OrderSide;
  f_type : OrderType;
  f_quantity : string;
  f_price : string;
  f_stopPrice : string
}.

(** What [handleSubmit] ends with: [setValidationError(error)] or
    [onSubmit(order)]. *)
Inductive Outcome : Type :=
| Rejected (error : ValidationError)
| Sent (order : OrderRequest).

(** The order [handleSubmit] assembles from the form. *)
Definition formOrder (f : Form) : OrderRequest :=
  {| symbol := f_symbol f;
     side := f_side f;
     type := f_type f;
     quantity := f_quantity f;
     price := match f_type f with
              | MARKET => None
              | _ => Some (f_price f)
              end;
     stopPrice := match f_type f with
                  | STOP_LIMIT => Some (f_stopPrice f)
                  | _ => None
                  end;
     timeInForce := None |}.

Definition handleSubmit (f : Form) : Outcome :=
  let order := formOrder f in
  match validateOrderInput order with
  | Some error => Rejected error
  | None => Sent order
  end.

(** [fillPrice]: [if (currentPrice) setPrice(currentPrice)]. *)
Definition fillPrice (currentPrice : option string) (f : Form) : Form :=
  match currentPrice with
  | Some p =>
      if truthy p then
        {| f_symbol := f_symbol f; f_side := f_side f; f_type := f_type f;
           f_quantity := f_quantity f; f_price := p;
           f_stopPrice := f_stopPrice f |}
      else f
  | None => f
  end.

End OrderForm.

Module CancelForm.
Import JS.

(** [handleSubmit]: the arguments of [onSubmit], when it is called. *)
Definition handleSubmit (symbol orderId : string) : option (string * string) :=
  if negb (truthy symbol) || negb (truthy orderId) then None
  else Some (symbol, orderId).

End CancelForm.

(* ================================================================== *)
(** * services/api.ts: the listen key *)
(* ================================================================== *)

Module ListenKey.
Import JS Effects Api.

(** The errors of [getListenKey] and [keepAliveListenKey]. *)
Inductive KeyError : Type :=
| KeyExchangeMessage (m : string)       (* data.msg *)
| FailedToGetListenKey (code : Z)       (* `Failed to get listenKey: ${status}` *)
| FailedToKeepAlive (code : Z)          (* `Failed to keep-alive listenKey: ${status}` *)
| KeyTransportFailure.                  (* a rejected fetch or json() *)

Section WithEnv.

Variable env : Env.

(** The property [listenKey] of a parsed body, which [Data] does not
    carry. *)
Variable listenKeyOf : Data -> string.

(** The request both functions issue, with its outcome: the response and
    its body, or a transport failure. *)
Definition keyRequest (httpMethod apiKey : string) (w : World)
  : option (Response * Data) * World * list Event :=
  let req := {| method := httpMethod;
                url := BASE_URL ++ "/fapi/v1/listenKey";
                apiKeyHeader := apiKey |} in
  let w' elapsed := {| clock := clock w + elapsed;
                       calls := S (calls w);
                       draws := draws w |} in
  match network env (calls w) req with
  | Effects.Rejected => (None, w' 0%Z, [Fetch req])
  | Responded elapsed r =>
      match json r with
      | None => (None, w' elapsed, [Fetch req])
      | Some d => (Some (r, d), w' elapsed, [Fetch req])
      end
  end.

(** [data.msg || fallback]. *)
Definition keyFailure (d : Data) (fallback : KeyError) : KeyError :=
  match msg d with
  | Some m => if truthy m then KeyExchangeMessage m else fallback
  | None => fallback
  end.

Definition getListenKey (apiKey : string) (w : World)
  : (KeyError + string) * World * list Event :=
  match keyRequest "POST" apiKey w with
  | (None, w', t) => (inl KeyTransportFailure, w', t)
  | (Some (response, data), w', t) =>
      if negb (ok response)
      then (inl (keyFailure data (FailedToGetListenKey (http_status response))),
            w', t)
      else (inr (listenKeyOf data), w', t)
  end.

Definition keepAliveListenKey (apiKey : string) (w : World)
  : (KeyError + Data) * World * list Event :=
  match keyRequest "PUT" apiKey w with
  | (None, w', t) => (inl KeyTransportFailure, w', t)
  | (Some (response, data), w', t) =>
      if negb (ok response)
      then (inl (keyFailure data (FailedToKeepAlive (http_status response))),
            w', t)
      else (inr data, w', t)
  end.

End WithEnv.

End ListenKey.

(* ================================================================== *)
(** * App.tsx: the handlers of the order and cancel forms *)
(* ================================================================== *)

Module Handlers.
Import JS Types Effects Api.

(** What the two handlers throw and catch: an error of the executor, or
    their own 'API Key and Secret required for Live Mode'. *)
Inductive HandlerError : Type :=
| Executor (error : Error)
| KeyAndSecretRequired.

(** The messages the two handlers pass to [addLog]. *)
Inductive HandlerLog : Type :=
| PreparingOrder (order : OrderRequest)
| OrderPlaced (response : BinanceOrderResponse)
| SimulatedFill (order : OrderRequest) (price : string)
| OrderFailed (error : HandlerError)
| AttemptingCancel (symbol orderId : string)
| OrderCanceled (id : string)
| SimulatedCancel
| CancelFailed (error : HandlerError).

(** What a handler does, in order: an event of [placeOrder] or
    [cancelOrder], a log entry, a change of [isLoading], or a log entry set
    to be made [ms] later by a [setTimeout] that is not awaited. *)
Inductive HandlerEvent : Type :=
| Inner (event : Event)
| AddLog (level : LogLevel) (m : HandlerLog)
| SetLoading (loading : bool)
| Later (ms : Z) (level : LogLevel) (m : HandlerLog).

Section WithEnv.

Variable env : Env.

(** [!demoMode && (!apiKey || !apiSecret)]. *)
Definition credentialsMissing (demoMode : bool) (apiKey apiSecret : string)
  : bool :=
  negb demoMode && (negb (truthy apiKey) || negb (truthy apiSecret)).

(** [handleOrderSubmit], in a component whose state holds [demoMode],
    [apiKey], [apiSecret] and [currentPrice]: the world after it and what it
    did.  The [finally] block runs on every path. *)
Definition handleOrderSubmit (demoMode : bool) (apiKey apiSecret : string)
    (currentPrice : option string) (order : OrderRequest) (w : World)
  : World * list HandlerEvent :=
  let start := [SetLoading true; AddLog INFO (PreparingOrder order)] in
  let finish := [SetLoading false] in
  if credentialsMissing demoMode apiKey apiSecret then
    (w, start ++ [AddLog ERROR (OrderFailed KeyAndSecretRequired)] ++ finish)%list
  else
    let creds := {| Types.apiKey := apiKey; Types.apiSecret := apiSecret |} in
    match placeOrder env demoMode order creds w with
    | (Ok response, w', t) =>
        (w',
         start ++ map Inner t
         ++ [AddLog SUCCESS (OrderPlaced response)]
         ++ (if demoMode
             then [Later 2000 SUCCESS
                     (SimulatedFill order
                        (orElse currentPrice (orElse (price order) "Market")))]
             else [])
         ++ finish)%list
    | (Throw error, w', t) =>
        (w',
         start ++ map Inner t
         ++ [AddLog ERROR (OrderFailed (Executor error))] ++ finish)%list
    end.

(** [response.orderId || orderId], as text. *)
Definition canceledId (response : MockCancelResponse + Data) (orderId : string)
  : string :=
  let id := match response with
            | inl r => c_orderId r
            | inr d => Effects.orderId (view d)
            end in
  if (id =? 0)%Z then orderId else intToString id.

(** [handleCancelSubmit]. *)
Definition handleCancelSubmit (demoMode : bool) (apiKey apiSecret : string)
    (targetSymbol orderId : string) (w : World)
  : World * list HandlerEvent :=
  let start :=
    [SetLoading true; AddLog INFO (AttemptingCancel targetSymbol orderId)] in
  let finish := [SetLoading false] in
  if credentialsMissing demoMode apiKey apiSecret then
    (w, start ++ [AddLog ERROR (CancelFailed KeyAndSecretRequired)] ++ finish)%list
  else
    let creds := {| Types.apiKey := apiKey; Types.apiSecret := apiSecret |} in
    match cancelOrder env demoMode targetSymbol orderId creds w with
    | (Ok response, w', t) =>
        (w',
         start ++ map Inner t
         ++ [AddLog SUCCESS (OrderCanceled (canceledId response orderId))]
         ++ (if demoMode then [AddLog WARN SimulatedCancel] else [])
         ++ finish)%list
    | (Throw error, w', t) =>
        (w',
         start ++ map Inner t
         ++ [AddLog ERROR (CancelFailed (Executor error))] ++ finish)%list
    end.

End WithEnv.

End Handlers.

(* ================================================================== *)
(** * App.tsx: the effect that subscribes to the ticker *)
(* ================================================================== *)

Module TickerEffect.
Import JS Websocket.

(** What the browser does to a subscription: every input of a session but
    the call of its cleanup function, which is the subscriber's to make. *)
Inductive BrowserInput : Type :=
| Opened (socket : nat)
| Message (socket : nat) (data : string)
| Failed (socket : nat)
| Closed (socket : nat)
| Expired (id : nat) (constructorThrows : bool).

Definition browser (b : BrowserInput) : Websocket.Input :=
  match b with
  | Opened s => SocketOpened s
  | Message s data => SocketMessage s data
  | Failed s => SocketError s
  | Closed s => SocketClosed s
  | Expired id c => TimerFired id c
  end.

(** The effect between two turns of the event loop: the pending 500 ms
    timer [handler], with the symbol its callback closed over, and every
    subscription made so far, with its symbol.  The cleanup function that
    [subscribeToTicker] returns is returned by the timer's callback, which
    [setTimeout] ignores: it is stored nowhere. *)
Record State : Type := {
  handler : option string;
  subscriptions : list (string * Session)
}.

(** What happens to the component: a render in which [symbol] has changed
    (React runs the cleanup of the previous effect, then the effect), the
    expiry of the 500 ms timer, the unmounting of the component (the
    cleanup alone), and an event of the browser on the [k]-th
    subscription. *)
Inductive Input : Type :=
| SymbolChanged (symbol : string)
| HandlerFired (constructorThrows : bool)
| Unmounted
| Stream (k : nat) (b : BrowserInput).

Definition streamEndpoint (symbol : string) : string :=
  "wss://stream.binancefuture.com/ws/" ++ toLowerCase symbol ++ "@bookTicker".

(** [l] with [f] applied to its element of index [k], if any. *)
Fixpoint onNth {A : Type} (k : nat) (f : A -> A) (l : list A) {struct l}
  : list A :=
  match l with
  | [] => []
  | x :: r =>
      match k with
      | O => f x :: r
      | S k' => x :: onNth k' f r
      end
  end.

Section Effect.

(** What the [onmessage] handler of a ticker subscription makes of a
    payload. *)
Variable onmessage : string -> Handled.

(** The body of the effect: [const handler = setTimeout(..., 500)]. *)
Definition effect (symbol : string) (st : State) : State :=
  {| handler := Some symbol; subscriptions := subscriptions st |}.

(** The function the effect returns: [clearTimeout(handler)], then
    [subscribeToTicker('', () => {})], whose result is dropped. *)
Definition effectCleanup (st : State) : State :=
  match subscribeToTicker "" false with
  | Some s => {| handler := None; subscriptions := subscriptions st ++ [("", s)] |}
  | None => {| handler := None; subscriptions := subscriptions st |}
  end.

(** The callback of the 500 ms timer. *)
Definition handlerCallback (constructorThrows : bool) (st : State) : State :=
  match handler st with
  | None => st
  | Some symbol =>
      if (3 <=? String.length symbol)%nat then
        match subscribeToTicker symbol constructorThrows with
        | Some s =>
            {| handler := None;
               subscriptions := subscriptions st ++ [(symbol, s)] |}
        | None => {| handler := None; subscriptions := subscriptions st |}
        end
      else {| handler := None; subscriptions := subscriptions st |}
  end.

Definition step (st : State) (i : Input) : State :=
  match i with
  | SymbolChanged symbol => effect symbol (effectCleanup st)
  | HandlerFired c => handlerCallback c st
  | Unmounted => effectCleanup st
  | Stream k b =>
      {| handler := handler st;
         subscriptions :=
           onNth k
             (fun p => (fst p,
                        Websocket.step (streamEndpoint (fst p)) onmessage
                          (snd p) (browser b)))
             (subscriptions st) |}
  end.

Definition run (st : State) (inputs : list Input) : State :=
  fold_left step inputs st.

(** The first render, with the initial symbol. *)
Definition mount (symbol : string) : State :=
  effect symbol {| handler := None; subscriptions := [] |}.

End Effect.

End TickerEffect.

(* ================================================================== *)
(** * App.tsx: the effect that connects the user data stream *)
(* ================================================================== *)

Module UserDataEffect.
Import JS Effects Websocket.

(** The messages the effect passes to [addLog]. *)
Inductive UserLog : Type :=
| Initializing                                  (* 'Initializing Real-time User Data Stream...' *)
| StreamConnected                               (* 'User Data Stream Connected' *)
| ConnectFailed (error : ListenKey.KeyError)    (* 'Failed to connect to User Stream. ...' *)
| KeyExtended                                   (* 'User Stream ListenKey extended' *)
| ExtendFailed (error : ListenKey.KeyError).    (* 'Failed to extend ListenKey' *)

(** What one run of the effect does, in order. *)
Inductive Action : Type :=
| RequestKey (apiKey : string)          (* [getListenKey(apiKey)] is called *)
| RequestKeepAlive (apiKey : string)    (* [keepAliveListenKey(apiKey)] is called *)
| AddLog (level : LogLevel) (m : UserLog)
| SetInterval (ms : Z)
| ClearInterval.

(** [50 * 60 * 1000]. *)
Definition KEEP_ALIVE_PERIOD : Z := 50 * 60 * 1000.

(** One run of the effect, between two turns of the event loop: whether
    the promise of [getListenKey] is still pending; the closure variable
    [cleanupFn], which is set exactly when the subscription was made, with
    the listen key and the session of that subscription; whether the
    interval held by [keepAliveInterval] is running; and what the run did
    so far. *)
Record Run : Type := {
  apiKey : string;
  awaiting : bool;
  cleanupFn : option (string * Session);
  intervalRunning : bool;
  done : list Action
}.

(** What happens to a run: the promise of [getListenKey] settles (with
    whether the [WebSocket] constructor will throw in [connect]), the
    keep-alive interval fires and its request settles, React calls the
    function the effect returned, and an event of the browser on the
    subscription. *)
Inductive Input : Type :=
| KeySettled (result : ListenKey.KeyError + string) (constructorThrows : bool)
| IntervalFired (result : ListenKey.KeyError + Data)
| CleanupCalled
| Stream (b : TickerEffect.BrowserInput).

Definition userEndpoint (listenKey : string) : string :=
  "wss://stream.binancefuture.com/ws/" ++ listenKey.

Definition act (a : list Action) (r : Run) : Run :=
  {| apiKey := apiKey r; awaiting := awaiting r; cleanupFn := cleanupFn r;
     intervalRunning := intervalRunning r; done := done r ++ a |}.

Section Effect.

(** What the [onmessage] handler of the user data stream makes of a
    payload. *)
Variable onmessage : string -> Handled.

(** The body of the effect, up to the [await]: [connectUserData()] is
    called in live mode with a non-empty API key. *)
Definition start (demoMode : bool) (key : string) : Run :=
  if negb demoMode && truthy key then
    {| apiKey := key; awaiting := true; cleanupFn := None;
       intervalRunning := false;
       done := [AddLog INFO Initializing; RequestKey key] |}
  else
    {| apiKey := key; awaiting := false; cleanupFn := None;
       intervalRunning := false; done := [] |}.

(** The rest of [connectUserData], once the promise has settled. *)
Definition keySettled (result : ListenKey.KeyError + string)
    (constructorThrows : bool) (r : Run) : Run :=
  if awaiting r then
    match result with
    | inr listenKey =>
        {| apiKey := apiKey r; awaiting := false;
           cleanupFn :=
             Some (listenKey, subscribeToUserData listenKey constructorThrows);
           intervalRunning := true;
           done := done r ++ [AddLog SUCCESS StreamConnected;
                              SetInterval KEEP_ALIVE_PERIOD] |}
    | inl error =>
        {| apiKey := apiKey r; awaiting := false; cleanupFn := cleanupFn r;
           intervalRunning := intervalRunning r;
           done := done r ++ [AddLog ERROR (ConnectFailed error)] |}
    end
  else r.

(** The callback of the interval. *)
Definition intervalFired (result : ListenKey.KeyError + Data) (r : Run) : Run :=
  if intervalRunning r then
    act [RequestKeepAlive (apiKey r);
         match result with
         | inr _ => AddLog INFO KeyExtended
         | inl error => AddLog WARN (ExtendFailed error)
         end] r
  else r.

(** The function the effect returns: [if (cleanupFn) cleanupFn()], then
    [if (keepAliveInterval) clearInterval(keepAliveInterval)]. *)
Definition cleanup (r : Run) : Run :=
  let stream :=
    match cleanupFn r with
    | Some (listenKey, s) =>
        Some (listenKey,
              Websocket.step (userEndpoint listenKey) onmessage s Unsubscribe)
    | None => None
    end in
  {| apiKey := apiKey r; awaiting := awaiting r; cleanupFn := stream;
     intervalRunning := false;
     done := if intervalRunning r then done r ++ [ClearInterval] else done r |}.

Definition step (r : Run) (i : Input) : Run :=
  match i with
  | KeySettled result c => keySettled result c r
  | IntervalFired result => intervalFired result r
  | CleanupCalled => cleanup r
  | Stream b =>
      {| apiKey := apiKey r; awaiting := awaiting r;
         cleanupFn :=
           match cleanupFn r with
           | Some (listenKey, s) =>
               Some (listenKey,
                     Websocket.step (userEndpoint listenKey) onmessage s
                       (TickerEffect.browser b))
           | None => None
           end;
         intervalRunning := intervalRunning r;
         done := done r |}
  end.

Definition run (r : Run) (inputs : list Input) : Run :=
  fold_left step inputs r.

End Effect.

End UserDataEffect.

(* ================================================================== *)
(** * Vocabulary of the properties *)
(* ================================================================== *)

Import JS Types Validator GridForm Effects Api App Websocket.

(** The exponent of the binade of [q], not below that of the subnormal
    numbers. *)
Definition expo (q : Q) : Z := Z.max (ilog2 q) (-1022).

(** The finite value of [round64 q], when it has one. *)
Definition rounded (q : Q) : Q := Qred (nearest q).

(** A number of the binary64 format, its magnitude apart: an integer of
    at most 53 bits times a power of two from 2^-1074 on. *)
Definition representable (q : Q) : Prop :=
  exists m k,
    q == inject_Z m * pow2 k /\ (Z.abs m <= 2 ^ 53)%Z /\ (-1074 <= k)%Z.

(** A MARKET order, and a LIMIT order as [generateGrid] builds them. *)
Definition marketOrder (symbol : string) (side : OrderSide)
    (quantity : string) (price stopPrice tif : option string)
  : OrderRequest :=
  {| symbol := symbol; side := side; type := MARKET; quantity := quantity;
     price := price; stopPrice := stopPrice; timeInForce := tif |}.

Definition limitOrder (symbol : string) (side : OrderSide)
    (quantity price : string) : OrderRequest :=
  {| symbol := symbol; side := side; type := LIMIT; quantity := quantity;
     price := Some price; stopPrice := None; timeInForce := Some "GTC" |}.

(** [!creds.apiKey || !creds.apiSecret]. *)
Definition noCredentials (creds : ApiCredentials) : bool :=
  negb (truthy (apiKey creds)) || negb (truthy (apiSecret creds)).

(** An event that signs or reaches the network. *)
Definition isRequest (e : Event) : bool :=
  match e with
  | Sign _ _ | Fetch _ => true
  | _ => false
  end.

(** The message to sign as section 4.2 of the specification words it: the
    [key=value] pairs joined by [&], in the order symbol, side, quantity,
    timestamp, recvWindow, then the parameters that depend on the type. *)
Definition specMessage (order : OrderRequest) (timestamp : Z) : string :=
  "symbol=" ++ toUpperCase (symbol order)
  ++ "&side=" ++ sideString (side order)
  ++ "&quantity=" ++ quantity order
  ++ "&timestamp=" ++ intToString timestamp
  ++ "&recvWindow=5000"
  ++ match type order with
     | MARKET => "&type=MARKET"
     | LIMIT =>
         "&type=LIMIT&price=" ++ orElse (price order) ""
         ++ "&timeInForce=GTC"
     | STOP_LIMIT =>
         "&type=STOP&price=" ++ orElse (price order) ""
         ++ "&stopPrice=" ++ orElse (stopPrice order) ""
         ++ "&timeInForce=GTC"
     end.

(** The live submissions that get as far as signing: both credentials are
    there, and so are the prices the order type needs. *)
Definition reachesSigning (order : OrderRequest) (creds : ApiCredentials)
  : bool :=
  negb (noCredentials creds)
  && match type order with
     | MARKET => true
     | LIMIT => truthyOpt (price order)
     | STOP_LIMIT => truthyOpt (price order) && truthyOpt (stopPrice order)
     end.

(** The effects [placeOrder] makes inside a call: signing, the request, and
    the mock's wait of 800 ms. *)
Definition isExecutorEvent (e : Event) : bool :=
  match e with
  | Sign _ _ | Fetch _ => true
  | Sleep ms => (ms =? 800)%Z
  | _ => false
  end.

(** A run of the dispatcher without what happens inside [placeOrder]. *)
Definition dispatcherEvents (t : list Event) : list Event :=
  filter (fun e => negb (isExecutorEvent e)) t.

(** What one turn of the loop of [handleGridSubmit] does around
    [placeOrder], given how the submission ended ([None]: it resolved). *)
Definition orderEvents (demoMode : bool) (oc : OrderRequest * option Error)
  : list Event :=
  match oc with
  | (order, None) =>
      [CallPlaceOrder demoMode order; Log SUCCESS (GridOrderPlaced order);
       Sleep 200]
  | (order, Some error) =>
      [CallPlaceOrder demoMode order; Log ERROR (GridOrderFailed order error)]
  end.

(** The credential check at the head of [handleGridSubmit]. *)
Definition refused (demoMode : bool) (apiKey apiSecret : string) : bool :=
  negb demoMode && (negb (truthy apiKey) || negb (truthy apiSecret)).

(** The events that mark the progress of a deployment: the entry of
    [placeOrder] for an order, and the log entry of its outcome. *)
Definition isGridStep (e : Event) : bool :=
  match e with
  | CallPlaceOrder _ _ => true
  | Log _ (GridOrderPlaced _) => true
  | Log _ (GridOrderFailed _ _) => true
  | _ => false
  end.

(** The steps of one order, given how its submission ended ([None]: it
    resolved). *)
Definition gridSteps (demoMode : bool) (oc : OrderRequest * option Error)
  : list Event :=
  match oc with
  | (order, None) =>
      [CallPlaceOrder demoMode order; Log SUCCESS (GridOrderPlaced order)]
  | (order, Some error) =>
      [CallPlaceOrder demoMode order; Log ERROR (GridOrderFailed order error)]
  end.

(** The numbers of resolved and of rejected submissions among some
    outcomes. *)
Definition succeeded (oc : option Error) : bool :=
  match oc with None => true | Some _ => false end.

Definition successes (outcomes : list (option Error)) : Z :=
  Z.of_nat (List.length (filter succeeded outcomes)).

Definition failures (outcomes : list (option Error)) : Z :=
  Z.of_nat (List.length (filter (fun oc => negb (succeeded oc)) outcomes)).

(** The log entry that closes a deployment. *)
Definition isCompletion (e : Event) : bool :=
  match e with
  | Log _ (GridComplete _ _) => true
  | _ => false
  end.

(** Whether every [placeOrder] but the first is entered after a 200 ms
    wait that followed the entry before it. *)
Fixpoint throttled (waited : bool) (t : list Event) : bool :=
  match t with
  | [] => true
  | CallPlaceOrder _ _ :: rest => waited && throttled false rest
  | Sleep ms :: rest => throttled (waited || (ms =? 200)%Z) rest
  | _ :: rest => throttled waited rest
  end.

Definition delayHonoured (t : list Event) : bool := throttled true t.

(** What the specification asks of a deployment of [orders]: it
    resolves, and there is an outcome for each order such that the entries
    of [placeOrder] and the outcome logs occur as entry of order 1, outcome
    of order 1, entry of order 2, outcome of order 2, and so on through the
    whole input in its order; the counts logged at the end are the numbers
    of resolved and of rejected submissions, and add up to the number of
    orders. *)
Definition dispatchedInTurn (env : Env) (demoMode : bool)
    (apiKey apiSecret : string) (orders : list OrderRequest) (w : World)
  : Prop :=
  exists outcomes w' t,
    handleGridSubmit env demoMode apiKey apiSecret orders w = (Ok tt, w', t)
    /\ List.length outcomes = List.length orders
    /\ filter isGridStep t
       = flat_map (gridSteps demoMode) (combine orders outcomes)
    /\ filter isCompletion t
       = [Log INFO (GridComplete (successes outcomes) (failures outcomes))]
    /\ (successes outcomes + failures outcomes
        = Z.of_nat (List.length orders))%Z.

(** A response body, a world and two orders to run the dispatcher on. *)
Definition sampleBody (message : option string) : Data :=
  {| msg := message;
     view := {| orderId := 1; r_symbol := "BTCUSDT"; status := "NEW";
                clientOrderId := "c1"; r_price := "0"; avgPrice := "0";
                origQty := "0.001"; executedQty := "0"; cumQuote := "0";
                r_timeInForce := "GTC"; r_type := "LIMIT"; r_side := "BUY";
                r_stopPrice := "0"; workingType := "CONTRACT_PRICE";
                priceProtect := false; origType := "LIMIT";
                updateTime := 0 |} |}.

(** An exchange that answers the first request with status 400 and a
    message, and every later one with status 200. *)
Definition rejectsFirst : Env :=
  {| hmac := fun _ _ => "5f";
     network := fun n _ =>
       match n with
       | O => Responded 120
                {| ok := false; http_status := 400;
                   json := Some (sampleBody (Some "Margin is insufficient.")) |}
       | S _ => Responded 120
                  {| ok := true; http_status := 200;
                     json := Some (sampleBody None) |}
       end;
     randomValue := fun _ => 0 |}.

Definition startOfDay : World := {| clock := 0; calls := 0; draws := 0 |}.

Definition lowBuy : OrderRequest :=
  limitOrder "BTCUSDT" BUY "0.001" "90000.0".

Definition highSell : OrderRequest :=
  limitOrder "BTCUSDT" SELL "0.001" "100000.0".

(** The values [i], [i + 1], ... that the loop index takes in [n] turns. *)
Fixpoint indices (n : nat) (i : Z) : list Z :=
  match n with
  | O => []
  | S n' => i :: indices n' (i + 1)%Z
  end.

(** The test of the loop's [continue]: the level of index [i] is less than
    one price unit away from the reference. *)
Definition nearReference (rules : SymbolRules) (min step ref : number)
    (i : Z) : bool :=
  lt (abs (sub (priceLevel min step i) ref)) (priceUnit rules).

(** The order the loop pushes for the level of index [i]. *)
Definition gridOrder (bigToString : Q -> string) (symbol : string)
    (rules : SymbolRules) (min step ref : number) (qty : string) (i : Z)
  : OrderRequest :=
  let level := priceLevel min step i in
  {| symbol := symbol;
     side := if lt level ref then BUY else SELL;
     type := LIMIT;
     quantity := qty;
     price := Some (toFixed bigToString level (priceDecimals rules));
     stopPrice := None;
     timeInForce := Some "GTC" |}.

(** The price of an order read as a number. *)
Definition priceOf (o : OrderRequest) : number :=
  parseFloat (orElse (price o) "").

(** [q] is a multiple of the price unit 10^-d. *)
Definition onGrid (d : nat) (q : Q) : Prop :=
  exists a : Z, q * inject_Z (10 ^ Z.of_nat d) == inject_Z a.

(** [min <= price && price <= max] for every order. *)
Definition pricesInRange (min max : number) (orders : list OrderRequest)
  : Prop :=
  Forall (fun o => le min (priceOf o) = true /\ le (priceOf o) max = true)
    orders.



(** A number written with digits only, or digits, a point and digits. *)
Inductive PlainDecimal : string -> Prop :=
| PlainInteger a :
    allDigits a = true -> a <> "" -> PlainDecimal a
| PlainFraction a b :
    allDigits a = true -> a <> "" -> allDigits b = true ->
    PlainDecimal (a ++ "." ++ b).

(** A [Number::toString] for the runs that never reach it. *)
Definition noBigNumbers : Q -> string := fun _ => "".



(** The grid of the form's default values. *)
Definition defaultGrid : list OrderRequest :=
  [ limitOrder "BTCUSDT" BUY "0.001" "90000.0";
    limitOrder "BTCUSDT" BUY "0.001" "92500.0";
    limitOrder "BTCUSDT" SELL "0.001" "97500.0";
    limitOrder "BTCUSDT" SELL "0.001" "100000.0" ].

(** ** Vocabulary of the further properties *)

(** A string without a point. *)
Fixpoint hasNoPoint (s : string) : bool :=
  match s with
  | "" => true
  | String c r => negb (Ascii.eqb c ".") && hasNoPoint r
  end.

(** What may follow the digits of a number without being read by
    [parseFloat] or counted by [countDecimals]: nothing, or text without a
    point that starts with neither a digit nor an exponent mark. *)
Definition isTrailingText (t : string) : bool :=
  match t with
  | "" => true
  | String c _ =>
      negb (isDigit c) && negb (Ascii.eqb c "e") && negb (Ascii.eqb c "E")
      && hasNoPoint t
  end.

(** [order] with another quantity. *)
Definition withQuantity (order : OrderRequest) (quantity : string)
  : OrderRequest :=
  {| symbol := symbol order; side := side order; type := type order;
     quantity := quantity; price := price order;
     stopPrice := stopPrice order; timeInForce := timeInForce order |}.

(** The errors that come from the exchange or the network, as opposed to
    the checks [realPlaceOrder] and [realCancelOrder] make themselves. *)
Definition isRemoteError (e : Error) : bool :=
  match e with
  | ExchangeMessage _ | ApiErrorStatus _ | TransportFailure => true
  | _ => false
  end.

(** The POST a live submission of [order] at time [timestamp] issues. *)
Definition orderRequest (env : Env) (order : OrderRequest)
    (creds : ApiCredentials) (timestamp : Z) : Request :=
  let message := specMessage order timestamp in
  {| method := "POST";
     url := BASE_URL ++ "/fapi/v1/order" ++ "?" ++ message
            ++ "&signature=" ++ hmac env (apiSecret creds) message;
     apiKeyHeader := apiKey creds |}.

(** The number of decimals the ticker's handler prints a mid-price
    with. *)
Definition midDecimals (mid : Q) : nat :=
  if Qltb mid (inject_Z 10) then 4%nat else 2%nat.

(** A LIMIT order typed into the order form, and a pair of credentials. *)
Definition sampleForm : OrderForm.Form :=
  {| OrderForm.f_symbol := "BTCUSDT"; OrderForm.f_side := BUY;
     OrderForm.f_type := LIMIT; OrderForm.f_quantity := "0.001";
     OrderForm.f_price := "95000.0"; OrderForm.f_stopPrice := "" |}.

Definition sampleCredentials : ApiCredentials :=
  {| apiKey := "key"; apiSecret := "secret" |}.

(** A STOP_LIMIT order. *)
Definition sampleStopOrder : OrderRequest :=
  {| symbol := "BTCUSDT"; side := SELL; type := STOP_LIMIT;
     quantity := "0.001"; price := Some "94000.0";
     stopPrice := Some "94500.0"; timeInForce := None |}.

(** The message a live cancellation signs: the symbol, the time and the
    window, then the id, as [orderId] when it is all digits and as
    [origClientOrderId] otherwise. *)
Definition cancelMessage (symbol orderId : string) (timestamp : Z) : string :=
  "symbol=" ++ toUpperCase symbol
  ++ "&timestamp=" ++ intToString timestamp
  ++ "&recvWindow=5000"
  ++ (if isNumericId orderId then "&orderId=" else "&origClientOrderId=")
  ++ orderId.

(** The DELETE a live cancellation issues. *)
Definition cancelRequest (env : Env) (symbol orderId : string)
    (creds : ApiCredentials) (timestamp : Z) : Request :=
  let message := cancelMessage symbol orderId timestamp in
  {| method := "DELETE";
     url := BASE_URL ++ "/fapi/v1/order" ++ "?" ++ message
            ++ "&signature=" ++ hmac env (apiSecret creds) message;
     apiKeyHeader := apiKey creds |}.

(** The log entries by which the two handlers would report the
    executor's 'API Credentials missing'. *)
Definition reportsExecutorCredentials (e : Handlers.HandlerEvent) : bool :=
  match e with
  | Handlers.AddLog _ (Handlers.OrderFailed (Handlers.Executor ApiCredentialsMissing))
  | Handlers.AddLog _ (Handlers.CancelFailed (Handlers.Executor ApiCredentialsMissing)) =>
      true
  | _ => false
  end.

(** The request for a listen key, or for its extension. *)
Definition listenKeyRequest (httpMethod apiKey : string) : Request :=
  {| method := httpMethod;
     url := BASE_URL ++ "/fapi/v1/listenKey";
     apiKeyHeader := apiKey |}.

(** The expiry of a timer, among the inputs of a session. *)
Definition isTimerFired (i : Input) : bool :=
  match i with TimerFired _ _ => true | _ => false end.

(** The expiries of the effect's 500 ms timer that subscribe: those that
    find a symbol of three characters or more pending. *)
Fixpoint subscribingExpiries (pending : option string)
    (inputs : list TickerEffect.Input) : nat :=
  match inputs with
  | [] => O
  | TickerEffect.SymbolChanged symbol :: rest =>
      subscribingExpiries (Some symbol) rest
  | TickerEffect.HandlerFired _ :: rest =>
      match pending with
      | Some symbol =>
          if (3 <=? String.length symbol)%nat
          then S (subscribingExpiries None rest)
          else subscribingExpiries None rest
      | None => subscribingExpiries None rest
      end
  | TickerEffect.Unmounted :: rest => subscribingExpiries None rest
  | TickerEffect.Stream _ _ :: rest => subscribingExpiries pending rest
  end.

(** What a simulated deployment does for one order: the entry of
    [placeOrder], the mock's wait, the log of the placed order and the
    pause before the next one. *)
Definition demoOrderEvents (order : OrderRequest) : list Event :=
  [CallPlaceOrder true order; Sleep 800;
   Log SUCCESS (GridOrderPlaced order); Sleep 200].

(** An order whose quantity and prices are all the text "Infinity". *)
Definition infiniteOrder (symbol : string) (side : OrderSide)
    (type : OrderType) (tif : option string) : OrderRequest :=
  {| symbol := symbol; side := side; type := type; quantity := "Infinity";
     price := Some "Infinity"; stopPrice := Some "Infinity";
     timeInForce := tif |}.

(** The call of the function a run of the user data effect returned,
    among its inputs. *)
Definition isCleanupCalled (i : UserDataEffect.Input) : bool :=
  match i with UserDataEffect.CleanupCalled => true | _ => false end.

(** The requests a run of the user data effect made. *)
Definition isUserRequest (a : UserDataEffect.Action) : bool :=
  match a with
  | UserDataEffect.RequestKey _ | UserDataEffect.RequestKeepAlive _ => true
  | _ => false
  end.

(* ================================================================== *)
(** * Properties *)
(* ================================================================== *)

(** ** Binary64 rounding

    What the arithmetic of the code relies on: [round64] keeps the order of
    the non-negative numbers ([nearest_mono]) and their sign, leaves the
    numbers of the format as they are ([nearest_exact], [round64_idem],
    [round64_Z]), and moves a number by at most half a unit in the last
    place, that is by at most 2^-53 of its magnitude ([nearest_error],
    [round64_error]). *)

(** *** Powers of two *)

Lemma two_neq_0 : ~ 2 == 0.
Proof. discriminate. Qed.

Lemma pow2_pos e : 0 < pow2 e.
Proof. apply Qpower_0_lt. reflexivity. Qed.

Lemma pow2_neq_0 e : ~ pow2 e == 0.
Proof. intros E. pose proof (pow2_pos e) as H. rewrite E in H. discriminate H. Qed.

Lemma pow2_add a b : pow2 (a + b) == pow2 a * pow2 b.
Proof. apply Qpower_plus, two_neq_0. Qed.

Lemma pow2_sub a b : pow2 (a - b) == pow2 a / pow2 b.
Proof. apply Qpower_minus, two_neq_0. Qed.

Lemma pow2_le a b : (a <= b)%Z -> pow2 a <= pow2 b.
Proof. intros H. apply Qpower_le_compat_l; [exact H|discriminate]. Qed.

Lemma pow2_lt a b : (a < b)%Z -> pow2 a < pow2 b.
Proof. intros H. apply Qpower_lt_compat_l; [exact H|reflexivity]. Qed.

Lemma pow2_lt_inv a b : pow2 a < pow2 b -> (a < b)%Z.
Proof. intros H. apply (Qpower_lt_compat_l_inv 2); [exact H|reflexivity]. Qed.

Lemma pow2_Z n : (0 <= n)%Z -> pow2 n == inject_Z (2 ^ n).
Proof. intros H. unfold pow2. rewrite (Zpower_Qpower 2 n H). reflexivity. Qed.

Lemma pow2_succ a : pow2 (a + 1) == 2 * pow2 a.
Proof. rewrite pow2_add. unfold pow2 at 2. rewrite Qpower_1_r. ring. Qed.

(** *** Rounding to an integer *)

Lemma roundEven_cases t :
  let f := Qfloor t in
  inject_Z f <= t < inject_Z f + 1
  /\ ((t - inject_Z f < 1 # 2 /\ roundEven t = f)
      \/ (1 # 2 < t - inject_Z f /\ roundEven t = (f + 1)%Z)
      \/ (t - inject_Z f == 1 # 2
          /\ roundEven t = if Z.even f then f else (f + 1)%Z)).
Proof.
  intros f. split.
  - split; [apply Qfloor_le|].
    pose proof (Qlt_floor t) as H. fold f in H.
    rewrite inject_Z_plus in H. exact H.
  - unfold roundEven. fold f.
    destruct (Qcompare_spec (t - inject_Z f) (1 # 2)) as [E|E|E].
    + right. right. split; [exact E|reflexivity].
    + left. split; [exact E|reflexivity].
    + right. left. split; [exact E|reflexivity].
Qed.

Lemma roundEven_near t :
  t - (1 # 2) <= inject_Z (roundEven t) <= t + (1 # 2).
Proof.
  destruct (roundEven_cases t) as [[Hlo Hhi] [[H ->]|[[H ->]|[H ->]]]].
  - lra.
  - rewrite inject_Z_plus. change (inject_Z 1) with 1. lra.
  - destruct (Z.even (Qfloor t)).
    + lra.
    + rewrite inject_Z_plus. change (inject_Z 1) with 1. lra.
Qed.

Lemma roundEven_wd s t : s == t -> roundEven s = roundEven t.
Proof.
  intros H. unfold roundEven. rewrite (Qfloor_comp _ _ H).
  rewrite H. reflexivity.
Qed.

Lemma roundEven_int k : roundEven (inject_Z k) = k.
Proof.
  unfold roundEven. rewrite Qfloor_Z.
  assert (E : inject_Z k - inject_Z k == 0) by ring.
  rewrite E. reflexivity.
Qed.

Lemma roundEven_mono s t : s <= t -> (roundEven s <= roundEven t)%Z.
Proof.
  intros H.
  pose proof (Qfloor_resp_le _ _ H) as Hf.
  destruct (roundEven_cases s) as [[Hs1 Hs2] Hs].
  destruct (roundEven_cases t) as [[Ht1 Ht2] Ht].
  assert (Hslo : (Qfloor s <= roundEven s <= Qfloor s + 1)%Z).
  { destruct Hs as [[_ ->]|[[_ ->]|[_ ->]]]; [lia|lia|].
    destruct (Z.even (Qfloor s)); lia. }
  assert (Htlo : (Qfloor t <= roundEven t <= Qfloor t + 1)%Z).
  { destruct Ht as [[_ ->]|[[_ ->]|[_ ->]]]; [lia|lia|].
    destruct (Z.even (Qfloor t)); lia. }
  destruct (Z.eq_dec (Qfloor s) (Qfloor t)) as [E|E]; [|lia].
  rewrite E in *.
  destruct Hs as [[Hs ->]|[[Hs ->]|[Hs ->]]];
    destruct Ht as [[Ht ->]|[[Ht ->]|[Ht ->]]];
    try lia; try (exfalso; lra);
    destruct (Z.even (Qfloor t)); try lia; exfalso; lra.
Qed.

Lemma roundEven_le_int t k : t <= inject_Z k -> (roundEven t <= k)%Z.
Proof.
  intros H. rewrite <- (roundEven_int k). apply roundEven_mono, H.
Qed.

Lemma roundEven_ge_int t k : inject_Z k <= t -> (k <= roundEven t)%Z.
Proof.
  intros H. rewrite <- (roundEven_int k). apply roundEven_mono, H.
Qed.

(** *** The binary exponent *)

Lemma Qdiv_lt_cross a b c d :
  0 < b -> 0 < d -> a * d < c * b -> a / b < c / d.
Proof.
  intros Hb Hd H.
  apply Qlt_shift_div_l; [exact Hd|].
  assert (E : a / b * d == (a * d) / b) by (field; lra).
  rewrite E. apply Qlt_shift_div_r; [exact Hb|exact H].
Qed.

Lemma Qdiv_le_cross a b c d :
  0 < b -> 0 < d -> a * d <= c * b -> a / b <= c / d.
Proof.
  intros Hb Hd H.
  apply Qle_shift_div_l; [exact Hd|].
  assert (E : a / b * d == (a * d) / b) by (field; lra).
  rewrite E. apply Qle_shift_div_r; [exact Hb|exact H].
Qed.

Lemma Qabs_Qmake q :
  Qabs q == inject_Z (Z.abs (Qnum q)) / inject_Z (Z.pos (Qden q)).
Proof.
  destruct q as [n d]. cbn [Qabs Qnum Qden].
  rewrite (Qmake_Qdiv (Z.abs n) d). reflexivity.
Qed.

Lemma log2_bounds n : (0 < n)%Z -> (2 ^ Z.log2 n <= n < 2 ^ (Z.log2 n + 1))%Z.
Proof.
  intros H. pose proof (Z.log2_spec n H) as L.
  replace (Z.log2 n + 1)%Z with (Z.succ (Z.log2 n)) by lia. exact L.
Qed.

Lemma ilog2_spec q :
  ~ q == 0 -> pow2 (ilog2 q) <= Qabs q < pow2 (ilog2 q + 1).
Proof.
  intros Hq.
  set (n := Z.abs (Qnum q)). set (d := Z.pos (Qden q)).
  assert (Hn : (0 < n)%Z).
  { unfold n. destruct q as [k m]. cbn [Qnum].
    assert (k <> 0)%Z; [|lia].
    intros ->. apply Hq. reflexivity. }
  assert (Hd : (0 < d)%Z) by (unfold d; lia).
  pose proof (log2_bounds n Hn) as [Ln1 Ln2].
  pose proof (log2_bounds d Hd) as [Ld1 Ld2].
  pose proof (Z.log2_nonneg n) as Ha. pose proof (Z.log2_nonneg d) as Hb.
  set (a := Z.log2 n) in *. set (b := Z.log2 d) in *.
  assert (Habs : Qabs q == inject_Z n / inject_Z d) by apply Qabs_Qmake.
  assert (Qn : 0 < inject_Z n) by (change 0 with (inject_Z 0); rewrite <- Zlt_Qlt; exact Hn).
  assert (Qd : 0 < inject_Z d) by (change 0 with (inject_Z 0); rewrite <- Zlt_Qlt; exact Hd).
  assert (Hup : Qabs q < pow2 (a - b + 1)).
  { rewrite Habs. replace (a - b + 1)%Z with ((a + 1) - b)%Z by lia.
    rewrite pow2_sub, !pow2_Z by lia.
    apply Qdiv_lt_cross.
    - exact Qd.
    - change 0 with (inject_Z 0). rewrite <- Zlt_Qlt. apply Z.pow_pos_nonneg; lia.
    - rewrite <- !inject_Z_mult, <- Zlt_Qlt.
      apply Z.lt_le_trans with (2 ^ (a + 1) * 2 ^ b)%Z.
      + apply Z.mul_lt_mono_pos_r; [apply Z.pow_pos_nonneg; lia|exact Ln2].
      + apply Z.mul_le_mono_nonneg_l; [apply Z.pow_nonneg; lia|exact Ld1]. }
  assert (Hlo : pow2 (a - b - 1) <= Qabs q).
  { rewrite Habs. replace (a - b - 1)%Z with (a - (b + 1))%Z by lia.
    rewrite pow2_sub, !pow2_Z by lia.
    apply Qdiv_le_cross.
    - change 0 with (inject_Z 0). rewrite <- Zlt_Qlt. apply Z.pow_pos_nonneg; lia.
    - exact Qd.
    - rewrite <- !inject_Z_mult, <- Zle_Qle.
      apply Z.le_trans with (2 ^ a * 2 ^ (b + 1))%Z.
      + apply Z.mul_le_mono_nonneg_l; [apply Z.pow_nonneg; lia|lia].
      + apply Z.mul_le_mono_nonneg_r; [apply Z.pow_nonneg; lia|exact Ln1]. }
  unfold ilog2. fold n d a b.
  destruct (Qle_bool (pow2 (a - b)) (Qabs q)) eqn:T.
  - apply Qle_bool_iff in T. split; [exact T|exact Hup].
  - split.
    + exact Hlo.
    + replace (a - b - 1 + 1)%Z with (a - b)%Z by lia.
      apply Qnot_le_lt. intros C. apply Qle_bool_iff in C. congruence.
Qed.

Lemma ilog2_unique q e :
  pow2 e <= Qabs q -> Qabs q < pow2 (e + 1) -> ilog2 q = e.
Proof.
  intros H1 H2.
  assert (Hq : ~ q == 0).
  { intros E. rewrite E in H1. pose proof (pow2_pos e). cbn in H1. lra. }
  destruct (ilog2_spec q Hq) as [L1 L2].
  assert (ilog2 q < e + 1)%Z by (apply pow2_lt_inv; lra).
  assert (e < ilog2 q + 1)%Z by (apply pow2_lt_inv; lra).
  lia.
Qed.

Lemma ilog2_lt q e : ~ q == 0 -> Qabs q < pow2 e -> (ilog2 q < e)%Z.
Proof.
  intros Hq H. destruct (ilog2_spec q Hq) as [L1 _].
  apply pow2_lt_inv. lra.
Qed.

Lemma ilog2_ge q e : pow2 e <= Qabs q -> (e <= ilog2 q)%Z.
Proof.
  intros H.
  assert (Hq : ~ q == 0).
  { intros E. rewrite E in H. pose proof (pow2_pos e). cbn in H. lra. }
  destruct (ilog2_spec q Hq) as [_ L2].
  assert (e < ilog2 q + 1)%Z by (apply pow2_lt_inv; lra). lia.
Qed.

(** *** The nearest multiple of the unit in the last place *)

Lemma ulp_expo q : ulp q = pow2 (expo q - 52).
Proof. reflexivity. Qed.

Lemma ulp_pos q : 0 < ulp q.
Proof. apply pow2_pos. Qed.

Lemma Qabs_wd_0 q : q == 0 -> Qabs q == 0.
Proof. intros ->. reflexivity. Qed.

Lemma ilog2_wd x y : ~ x == 0 -> x == y -> ilog2 x = ilog2 y.
Proof.
  intros Hx E. destruct (ilog2_spec x Hx) as [L1 L2].
  symmetry. apply ilog2_unique; rewrite <- E; assumption.
Qed.

Lemma Qdiv_0_l u : 0 / u == 0.
Proof. unfold Qdiv. ring. Qed.

Lemma nearest_0 q : q == 0 -> nearest q == 0.
Proof.
  intros E. unfold nearest.
  rewrite (roundEven_wd (q / ulp q) (inject_Z 0)).
  - rewrite roundEven_int. ring.
  - generalize (ulp q). intros u. rewrite E. apply Qdiv_0_l.
Qed.

Lemma nearest_wd x y : x == y -> nearest x == nearest y.
Proof.
  intros E. destruct (Qeq_dec x 0) as [Z|NZ].
  - rewrite (nearest_0 x Z). rewrite E in Z. rewrite (nearest_0 y Z). reflexivity.
  - unfold nearest, ulp. rewrite (ilog2_wd x y NZ E).
    rewrite (roundEven_wd (x / pow2 (Z.max (ilog2 y) (-1022) - 52))
                          (y / pow2 (Z.max (ilog2 y) (-1022) - 52))).
    + reflexivity.
    + rewrite E. reflexivity.
Qed.

Lemma nearest_error q : Qabs (nearest q - q) <= ulp q / 2.
Proof.
  unfold nearest. pose proof (ulp_pos q) as U.
  set (u := ulp q) in *.
  pose proof (roundEven_near (q / u)) as [N1 N2].
  set (m := inject_Z (roundEven (q / u))) in *.
  assert (E : q == q / u * u) by (field; lra).
  set (t := q / u) in *.
  assert (D : m * u - q == (m - t) * u) by (rewrite E; ring).
  rewrite D. apply Qabs_Qle_condition. split.
  - setoid_replace (- (u / 2)) with ((- (1 # 2)) * u) by field.
    apply Qmult_le_compat_r; lra.
  - setoid_replace (u / 2) with ((1 # 2) * u) by field.
    apply Qmult_le_compat_r; lra.
Qed.

Lemma ulp_rel q : pow2 (-1022) <= Qabs q -> ulp q <= pow2 (-52) * Qabs q.
Proof.
  intros H. pose proof (ilog2_ge q (-1022) H) as G.
  assert (Hq : ~ q == 0).
  { intros E. rewrite E in H. pose proof (pow2_pos (-1022)). cbn in H. lra. }
  destruct (ilog2_spec q Hq) as [L1 _].
  unfold ulp. rewrite Z.max_l by lia.
  replace (ilog2 q - 52)%Z with (-52 + ilog2 q)%Z by lia.
  rewrite pow2_add. pose proof (pow2_pos (-52)).
  apply Qmult_le_l; assumption.
Qed.

Lemma ulp_small q : ~ q == 0 -> Qabs q < pow2 (-1022) -> ulp q = pow2 (-1074).
Proof.
  intros Hq H. pose proof (ilog2_lt q (-1022) Hq H).
  unfold ulp. rewrite Z.max_r by lia. reflexivity.
Qed.

Lemma nearest_nonneg q : 0 <= q -> 0 <= nearest q.
Proof.
  intros H. unfold nearest. pose proof (ulp_pos q) as U.
  apply Qmult_le_0_compat; [|lra].
  change 0 with (inject_Z 0). rewrite <- Zle_Qle.
  apply roundEven_ge_int. change (inject_Z 0) with 0.
  apply Qle_shift_div_l; [exact U|]. lra.
Qed.

Lemma nearest_nonpos q : q <= 0 -> nearest q <= 0.
Proof.
  intros H. unfold nearest. pose proof (ulp_pos q) as U.
  assert (Z : (roundEven (q / ulp q) <= 0)%Z).
  { apply roundEven_le_int. change (inject_Z 0) with 0.
    apply Qle_shift_div_r; [exact U|]. lra. }
  rewrite Zle_Qle in Z. change (inject_Z 0) with 0 in Z.
  set (m := inject_Z _) in *.
  setoid_replace 0 with (0 * ulp q) by ring.
  apply Qmult_le_compat_r; lra.
Qed.

Lemma expo_mono x y : 0 < x -> x <= y -> (expo x <= expo y)%Z.
Proof.
  intros Hx H. unfold expo.
  assert (Nx : ~ x == 0) by (intros E; rewrite E in Hx; discriminate Hx).
  assert (Ny : ~ y == 0) by (intros E; rewrite E in H; lra).
  destruct (ilog2_spec x Nx) as [X1 X2]. destruct (ilog2_spec y Ny) as [Y1 Y2].
  rewrite Qabs_pos in X1, X2 by lra. rewrite Qabs_pos in Y1, Y2 by lra.
  assert (ilog2 x < ilog2 y + 1)%Z by (apply pow2_lt_inv; lra).
  lia.
Qed.

Lemma below_next_binade x : Qabs x <= pow2 (expo x + 1).
Proof.
  destruct (Qeq_dec x 0) as [Z|NZ].
  - rewrite (Qabs_wd_0 x Z). pose proof (pow2_pos (expo x + 1)). lra.
  - destruct (ilog2_spec x NZ) as [_ X2].
    assert (pow2 (ilog2 x + 1) <= pow2 (expo x + 1)); [|lra].
    apply pow2_le. unfold expo. lia.
Qed.

Lemma nearest_le_binade x e :
  (expo x + 1 <= e)%Z -> nearest x <= pow2 e.
Proof.
  intros H. pose proof (below_next_binade x) as B.
  unfold nearest. rewrite ulp_expo. 
  assert (U : 0 < pow2 (expo x - 52)) by apply pow2_pos.
  assert (M : (roundEven (x / pow2 (expo x - 52)) <= 2 ^ 53)%Z).
  { apply roundEven_le_int. rewrite <- pow2_Z by lia.
    apply Qle_shift_div_r; [exact U|].
    rewrite <- pow2_add. replace (53 + (expo x - 52))%Z with (expo x + 1)%Z by lia.
    pose proof (Qle_Qabs x). lra. }
  rewrite Zle_Qle in M. rewrite <- pow2_Z in M by lia.
  set (m := inject_Z _) in *.
  apply Qle_trans with (pow2 53 * pow2 (expo x - 52)).
  - apply Qmult_le_compat_r; lra.
  - rewrite <- pow2_add. apply pow2_le. lia.
Qed.

Lemma nearest_ge_binade y : 
  (-1022 <= ilog2 y)%Z -> 0 < y -> pow2 (ilog2 y) <= nearest y.
Proof.
  intros G Hy.
  assert (Ny : ~ y == 0) by (intros E; rewrite E in Hy; discriminate Hy).
  destruct (ilog2_spec y Ny) as [Y1 _]. rewrite Qabs_pos in Y1 by lra.
  unfold nearest, ulp. rewrite Z.max_l by lia.
  set (e := ilog2 y) in *.
  assert (U : 0 < pow2 (e - 52)) by apply pow2_pos.
  assert (M : (2 ^ 52 <= roundEven (y / pow2 (e - 52)))%Z).
  { apply roundEven_ge_int. rewrite <- pow2_Z by lia.
    apply Qle_shift_div_l; [exact U|].
    rewrite <- pow2_add. replace (52 + (e - 52))%Z with e by lia. exact Y1. }
  rewrite Zle_Qle in M. rewrite <- pow2_Z in M by lia.
  set (m := inject_Z _) in *.
  apply Qle_trans with (pow2 52 * pow2 (e - 52)).
  - rewrite <- pow2_add. apply pow2_le. lia.
  - apply Qmult_le_compat_r; lra.
Qed.

Lemma nearest_mono x y : 0 <= x -> x <= y -> nearest x <= nearest y.
Proof.
  intros Hx H.
  destruct (Qeq_dec x 0) as [Z|NZ].
  - rewrite (nearest_0 x Z). apply nearest_nonneg. lra.
  - assert (Px : 0 < x).
    { apply Qnot_le_lt. intros C. apply NZ. lra. }
    pose proof (expo_mono x y Px H) as E.
    destruct (Z.eq_dec (expo x) (expo y)) as [Same|Diff].
    + unfold nearest. rewrite !ulp_expo, Same.
      assert (U : 0 < pow2 (expo y - 52)) by apply pow2_pos.
      apply Qmult_le_compat_r; [|lra].
      rewrite <- Zle_Qle. apply roundEven_mono.
      apply Qmult_le_compat_r; [exact H|].
      apply Qlt_le_weak, Qinv_lt_0_compat, U.
    + assert (L : (expo x < expo y)%Z) by lia.
      assert (G : expo y = ilog2 y) by (unfold expo in *; lia).
      apply Qle_trans with (pow2 (ilog2 y)).
      * apply nearest_le_binade. lia.
      * apply nearest_ge_binade; [unfold expo in *; lia|lra].
Qed.

(** *** The numbers of the format *)

Lemma Qabs_scaled m k :
  Qabs (inject_Z m * pow2 k) == inject_Z (Z.abs m) * pow2 k.
Proof.
  rewrite Qabs_Qmult. rewrite (Qabs_pos (pow2 k)).
  - reflexivity.
  - apply Qlt_le_weak, pow2_pos.
Qed.

Lemma scaled_0 m k : inject_Z m * pow2 k == 0 -> m = 0%Z.
Proof.
  intros E. apply Qmult_integral in E. destruct E as [E|E].
  - unfold Qeq in E. cbn in E. lia.
  - exfalso. exact (pow2_neq_0 k E).
Qed.

Lemma nearest_of_integer x n :
  x / ulp x == inject_Z n -> nearest x == x.
Proof.
  intros E. unfold nearest. rewrite (roundEven_wd _ _ E), roundEven_int.
  rewrite <- E. pose proof (pow2_neq_0 (expo x - 52)). rewrite ulp_expo.
  set (u := pow2 _) in *. field. assumption.
Qed.

Lemma nearest_exact m k :
  (Z.abs m <= 2 ^ 53)%Z -> (-1074 <= k)%Z ->
  nearest (inject_Z m * pow2 k) == inject_Z m * pow2 k.
Proof.
  intros Hm Hk. set (x := inject_Z m * pow2 k).
  destruct (Z.eq_dec m 0) as [->|NZ].
  { assert (Z : x == 0) by (unfold x; change (inject_Z 0) with 0; ring).
    rewrite (nearest_0 x Z). symmetry. exact Z. }
  assert (Nx : ~ x == 0) by (intros E; apply NZ, (scaled_0 m k E)).
  destruct (ilog2_spec x Nx) as [L1 L2].
  assert (A : Qabs x == inject_Z (Z.abs m) * pow2 k) by apply Qabs_scaled.
  pose proof (pow2_pos k) as Pk.
  destruct (Z_le_gt_dec (expo x - 52) k) as [Fine|Coarse].
  - apply (nearest_of_integer x (m * 2 ^ (k - (expo x - 52)))).
    rewrite ulp_expo, inject_Z_mult, <- pow2_Z by lia.
    rewrite (pow2_sub k (expo x - 52)).
    pose proof (pow2_neq_0 k). pose proof (pow2_neq_0 (expo x - 52)).
    set (b := pow2 (expo x - 52)) in *. unfold x.
    set (a := pow2 k) in *. field. assumption.
  - assert (G : expo x = ilog2 x) by (unfold expo in *; lia).
    rewrite G in Coarse.
    assert (B : inject_Z (Z.abs m) * pow2 k <= pow2 (53 + k)).
    { rewrite pow2_add. apply Qmult_le_compat_r; [|lra].
      rewrite pow2_Z by lia. rewrite <- Zle_Qle. exact Hm. }
    assert (ilog2 x < 53 + k + 1)%Z.
    { apply pow2_lt_inv. apply Qle_lt_trans with (pow2 (53 + k)).
      - apply Qle_trans with (Qabs x); [exact L1|]. rewrite A. exact B.
      - apply pow2_lt. lia. }
    assert (I : ilog2 x = (k + 53)%Z) by lia.
    assert (M : (2 ^ 53 <= Z.abs m)%Z).
    { rewrite I, A in L1. replace (k + 53)%Z with (53 + k)%Z in L1 by lia.
      rewrite pow2_add in L1.
      apply Qmult_le_r in L1; [|exact Pk].
      rewrite pow2_Z in L1 by lia. rewrite <- Zle_Qle in L1. exact L1. }
    apply (nearest_of_integer x (m / 2)).
    rewrite ulp_expo, G, I. replace (k + 53 - 52)%Z with (k + 1)%Z by lia.
    rewrite pow2_succ. unfold x. pose proof (pow2_neq_0 k).
    set (a := pow2 k) in *.
    assert (D : inject_Z m == 2 * inject_Z (m / 2)).
    { change 2 with (inject_Z 2). rewrite <- inject_Z_mult.
      assert (m = 2 * (m / 2))%Z; [|congruence].
      assert (Z.abs m = 2 ^ 53)%Z by lia.
      destruct (Z.abs_spec m) as [[_ Em]|[_ Em]].
      - rewrite Em in *. subst m. reflexivity.
      - assert (m = - 2 ^ 53)%Z by lia. subst m. reflexivity. }
    rewrite D. field. assumption.
Qed.

Lemma nearest_mantissa q : (Z.abs (roundEven (q / ulp q)) <= 2 ^ 53)%Z.
Proof.
  pose proof (below_next_binade q) as B.
  pose proof (ulp_pos q) as U. rewrite ulp_expo in *.
  set (u := pow2 (expo q - 52)) in *.
  assert (S : pow2 (expo q + 1) == inject_Z (2 ^ 53) * u).
  { rewrite <- pow2_Z by lia. unfold u. rewrite <- pow2_add.
    replace (53 + (expo q - 52))%Z with (expo q + 1)%Z by lia. reflexivity. }
  rewrite S in B. apply Qabs_Qle_condition in B. destruct B as [B1 B2].
  apply Z.abs_le. split.
  - apply roundEven_ge_int. apply Qle_shift_div_l; [exact U|].
    rewrite inject_Z_opp. lra.
  - apply roundEven_le_int. apply Qle_shift_div_r; [exact U|]. lra.
Qed.

Lemma expo_ge q : (-1022 <= expo q)%Z.
Proof. unfold expo. lia. Qed.

Lemma nearest_idem q : nearest (nearest q) == nearest q.
Proof.
  unfold nearest at 2 3. rewrite ulp_expo.
  apply nearest_exact; [apply nearest_mantissa|].
  pose proof (expo_ge q). lia.
Qed.

Lemma nearest_representable q : representable (nearest q).
Proof.
  exists (roundEven (q / ulp q)), (expo q - 52)%Z. split; [reflexivity|]. split.
  - apply nearest_mantissa.
  - pose proof (expo_ge q). lia.
Qed.

Lemma representable_exact q : representable q -> nearest q == q.
Proof.
  intros (m & k & E & Hm & Hk).
  rewrite (nearest_wd _ _ E), E. apply nearest_exact; assumption.
Qed.

Lemma representable_wd x y : x == y -> representable x -> representable y.
Proof.
  intros E (m & k & H). exists m, k. rewrite <- E. exact H.
Qed.

Lemma representable_Z z : (Z.abs z <= 2 ^ 53)%Z -> representable (inject_Z z).
Proof.
  intros H. exists z, 0%Z. split; [|split; [exact H|lia]].
  change (pow2 0) with 1. ring.
Qed.

(** *** The rounded number *)

Lemma Qltb_lt a b : Qltb a b = true <-> a < b.
Proof. unfold Qltb, Qlt. apply Z.ltb_lt. Qed.

Lemma Qneg_wd x y : x == y -> Qneg x = Qneg y.
Proof.
  intros E. unfold Qneg.
  destruct (Qltb x 0) eqn:A; destruct (Qltb y 0) eqn:B; try reflexivity; exfalso.
  - apply Qltb_lt in A. rewrite E in A. apply Qltb_lt in A. congruence.
  - apply Qltb_lt in B. rewrite <- E in B. apply Qltb_lt in B. congruence.
Qed.

Lemma round64_wd x y : x == y -> round64 x = round64 y.
Proof.
  intros E. unfold round64. cbv zeta.
  pose proof (nearest_wd x y E) as N.
  assert (B : Qle_bool (pow2 1024) (Qabs (nearest x))
              = Qle_bool (pow2 1024) (Qabs (nearest y))).
  { rewrite N. reflexivity. }
  rewrite B. clear B. destruct (Qle_bool _ _).
  - f_equal. apply Qneg_wd, E.
  - f_equal. apply Qred_complete, N.
Qed.

Lemma round64_finite q :
  Qabs (nearest q) < pow2 1024 -> round64 q = Fin (Qred (nearest q)).
Proof.
  intros H. unfold round64. cbv zeta.
  destruct (Qle_bool _ _) eqn:T; [|reflexivity].
  apply Qle_bool_iff in T. lra.
Qed.

Lemma Qabs_triangle_le a b d : Qabs (a - b) <= d -> Qabs a <= Qabs b + d.
Proof.
  intros H. setoid_replace a with (b + (a - b)) at 1 by ring.
  eapply Qle_trans; [apply Qabs_triangle|]. lra.
Qed.

Lemma half_ulp_bound q M :
  Qabs q <= M -> pow2 (-1022) <= M -> ~ q == 0 -> ulp q / 2 <= pow2 (-53) * M.
Proof.
  intros H HM Hq. pose proof (pow2_pos (-53)) as P.
  destruct (Qlt_le_dec (Qabs q) (pow2 (-1022))) as [S|L].
  - rewrite (ulp_small q Hq S).
    assert (E : pow2 (-1074) / 2 == pow2 (-53) * pow2 (-1022)).
    { rewrite <- pow2_add. replace (-1074)%Z with (-1075 + 1)%Z by lia.
      rewrite pow2_succ. change (-53 + -1022)%Z with (-1075)%Z. field. }
    rewrite E. apply Qmult_le_l; assumption.
  - pose proof (ulp_rel q L) as R.
    assert (E : pow2 (-52) == 2 * pow2 (-53)).
    { replace (-52)%Z with (-53 + 1)%Z by lia. apply pow2_succ. }
    rewrite E in R.
    apply Qle_trans with (pow2 (-53) * Qabs q).
    + apply Qle_shift_div_r; [reflexivity|].
      eapply Qle_trans; [exact R|]. apply Qle_lteq. right. ring.
    + apply Qmult_le_l; assumption.
Qed.

Lemma nearest_error_bound q M :
  Qabs q <= M -> pow2 (-1022) <= M -> Qabs (nearest q - q) <= pow2 (-53) * M.
Proof.
  intros H HM. destruct (Qeq_dec q 0) as [Z|NZ].
  - assert (E : nearest q - q == 0) by (rewrite (nearest_0 q Z), Z; ring).
    rewrite (Qabs_wd_0 _ E).
    apply Qmult_le_0_compat; [apply Qlt_le_weak, pow2_pos|].
    apply Qle_trans with (pow2 (-1022)); [apply Qlt_le_weak, pow2_pos|exact HM].
  - eapply Qle_trans; [apply nearest_error|]. apply half_ulp_bound; assumption.
Qed.

Lemma round64_error q M :
  Qabs q <= M -> pow2 (-1022) <= M -> M <= pow2 1023 ->
  exists r, round64 q = Fin r /\ r == nearest q
            /\ Qabs (r - q) <= pow2 (-53) * M.
Proof.
  intros H HM HB. pose proof (nearest_error_bound q M H HM) as E.
  exists (Qred (nearest q)). split; [|split].
  - apply round64_finite. pose proof (Qabs_triangle_le _ _ _ E) as T.
    assert (M0 : 0 <= M).
    { apply Qle_trans with (pow2 (-1022)); [apply Qlt_le_weak, pow2_pos|exact HM]. }
    assert (S : pow2 (-53) * M <= (1 # 2) * M).
    { apply Qmult_le_compat_r; [|exact M0].
      change (1 # 2) with (pow2 (-1)). apply pow2_le. lia. }
    assert (D : pow2 1024 == 2 * pow2 1023) by (apply (pow2_succ 1023)).
    pose proof (pow2_pos 1023) as P.
    set (a := pow2 1023) in *. set (b := pow2 1024) in *.
    set (c := pow2 (-53) * M) in *. clearbody a b c. lra.
  - exact (Qred_correct (nearest q)).
  - rewrite (Qred_correct (nearest q)). exact E.
Qed.

Lemma round64_value q r :
  round64 q = Fin r -> r = Qred (nearest q) /\ Qabs (nearest q) < pow2 1024.
Proof.
  unfold round64. cbv zeta. destruct (Qle_bool _ _) eqn:T; [discriminate|].
  intros H. split; [congruence|].
  apply Qnot_le_lt. intros C. apply Qle_bool_iff in C. congruence.
Qed.

Lemma round64_representable q r : round64 q = Fin r -> representable r.
Proof.
  intros H. destruct (round64_value q r H) as [-> _].
  apply (representable_wd (nearest q)).
  - symmetry. exact (Qred_correct (nearest q)).
  - apply nearest_representable.
Qed.

Lemma round64_idem q r : round64 q = Fin r -> round64 r = Fin r.
Proof.
  intros H. destruct (round64_value q r H) as [-> B].
  pose proof (nearest_idem q) as I.
  assert (E : nearest (Qred (nearest q)) == nearest q).
  { rewrite (nearest_wd _ _ (Qred_correct (nearest q))). exact I. }
  rewrite round64_finite.
  - f_equal. rewrite (Qred_complete _ _ E). reflexivity.
  - rewrite E. exact B.
Qed.

Lemma round64_exact q :
  representable q -> Qabs q < pow2 1024 -> round64 q = Fin (Qred q).
Proof.
  intros R B. pose proof (representable_exact q R) as E.
  rewrite round64_finite.
  - f_equal. apply Qred_complete, E.
  - rewrite E. exact B.
Qed.

Lemma round64_Z z : (Z.abs z <= 2 ^ 53)%Z -> round64 (inject_Z z) = Fin (inject_Z z).
Proof.
  intros H. rewrite round64_exact.
  - f_equal. apply Qcanon.Qred_identity. cbn. apply Z.gcd_1_r.
  - apply representable_Z, H.
  - change (Qabs (inject_Z z)) with (inject_Z (Z.abs z)).
    apply Qle_lt_trans with (inject_Z (2 ^ 53)).
    + rewrite <- Zle_Qle. exact H.
    + rewrite <- pow2_Z by lia. apply pow2_lt. lia.
Qed.

(** ** The validator *)

Section ValidatorProperties.

Lemma validatePrice_market rules order :
  type order = MARKET -> validatePrice rules order = None.
Proof. unfold validatePrice. now intros ->. Qed.

Lemma validateStopPrice_market rules order :
  type order = MARKET -> validateStopPrice rules order = None.
Proof. unfold validateStopPrice. now intros ->. Qed.

(** The verdict on a MARKET order is a function of its symbol and
    quantity alone. *)
Lemma validateOrderInput_market order :
  type order = MARKET ->
  validateOrderInput order =
  validateOrderInput
    (marketOrder (symbol order) BUY (quantity order) None None None).
Proof.
  intros Hm. unfold validateOrderInput.
  rewrite (validatePrice_market _ order Hm).
  rewrite (validateStopPrice_market _ order Hm).
  reflexivity.
Qed.

End ValidatorProperties.

(** C3.  [validateGridInput] does not apply the rule "quantity numeric": on
    the quantity ["abc"], which is present and parses to [NaN], with the
    form's default symbol and prices, it returns [null] and the input is
    accepted, while [validateOrderInput] rejects the same quantity as not
    being a number. *)
Theorem validateGridInput_accepts_NaN_quantity :
  truthy "abc" = true /\
  isNaN (parseFloat "abc") = true /\
  validateGridInput "BTCUSDT" "90000" "100000" "abc" = None /\
  validateOrderInput (marketOrder "BTCUSDT" BUY "abc" None None None)
    = Some QuantityRequired.
Proof. repeat split; vm_compute; reflexivity. Qed.

(** C10.  Two MARKET orders that differ at most in [price] and [stopPrice]
    get the same verdict from [validateOrderInput]; in particular a MARKET
    order carrying a price that is no number is accepted, where the same
    order as a LIMIT order is rejected for its price. *)
Theorem validateOrderInput_market_ignores_prices :
  (forall symbol side quantity tif price stopPrice price' stopPrice',
     validateOrderInput (marketOrder symbol side quantity price stopPrice tif)
     = validateOrderInput
         (marketOrder symbol side quantity price' stopPrice' tif))
  /\ validateOrderInput
       (marketOrder "BTCUSDT" BUY "0.001" (Some "1..2e") (Some "x") None)
     = None
  /\ validateOrderInput
       {| symbol := "BTCUSDT"; side := BUY; type := LIMIT;
          quantity := "0.001"; price := Some "x"; stopPrice := Some "x";
          timeInForce := None |}
     = Some PriceRequired.
Proof.
  split; [| split; vm_compute; reflexivity].
  intros. rewrite validateOrderInput_market by reflexivity.
  symmetry. rewrite validateOrderInput_market by reflexivity.
  reflexivity.
Qed.

(** ** The grid generator on the example of the form's defaults *)

(** C5.  With minPrice 90000, maxPrice 100000, 5 levels, reference 95000
    and the one price decimal of BTCUSDT, the raw levels are 90000, 92500,
    95000, 97500 and 100000; the level of index 2, equal to the reference,
    is the only one within a price unit of it; and [generateGrid] submits
    four orders in ascending order of price: BUY at 90000.0 and at 92500.0,
    SELL at 97500.0 and at 100000.0. *)
Theorem generateGrid_default_example :
  forall bigToString,
    let min := parseFloat "90000" in
    let step := div (sub (parseFloat "100000") min) (sub (ofZ 5) (ofZ 1)) in
    let rules := getSymbolRules "BTCUSDT" in
    priceDecimals rules = 1%nat
    /\ map (fun i => eq (priceLevel min step (fst i)) (ofZ (snd i)))
         [ (0, 90000); (1, 92500); (2, 95000); (3, 97500); (4, 100000) ]%Z
       = [true; true; true; true; true]
    /\ filter (nearReference rules min step (parseFloat "95000")) (indices 5 0)
       = [2%Z]
    /\ generateGrid bigToString "BTCUSDT" "90000" "100000" "5" "95000" "0.001"
       = Submitted defaultGrid
    /\ map (fun o => eq (priceOf (fst o)) (ofZ (snd o)))
         (combine defaultGrid [90000; 92500; 97500; 100000]%Z)
       = [true; true; true; true].
Proof. intros. repeat split; vm_compute; reflexivity. Qed.

(** ** Decimal digits: printing and reading back *)

Lemma append_assoc (a b c : string) : (a ++ b) ++ c = a ++ (b ++ c).
Proof. induction a; simpl; congruence. Qed.

Lemma isDigit_digitChar k : (0 <= k < 10)%Z -> isDigit (digitChar k) = true.
Proof.
  intros H. assert (Hk : In k [0;1;2;3;4;5;6;7;8;9]%Z) by (simpl; lia).
  simpl in Hk. decompose [or] Hk; subst; try reflexivity; contradiction.
Qed.

Lemma digitVal_digitChar k : (0 <= k < 10)%Z -> digitVal (digitChar k) = k.
Proof.
  intros H. assert (Hk : In k [0;1;2;3;4;5;6;7;8;9]%Z) by (simpl; lia).
  simpl in Hk. decompose [or] Hk; subst; try reflexivity; contradiction.
Qed.

Lemma allDigits_app a b : allDigits (a ++ b) = allDigits a && allDigits b.
Proof.
  induction a as [|c a IH]; [reflexivity|].
  simpl. rewrite IH. apply andb_assoc.
Qed.

Lemma digitsValue_app acc a b :
  digitsValue acc (a ++ b) = digitsValue (digitsValue acc a) b.
Proof.
  revert acc. induction a as [|c a IH]; intros acc; [reflexivity|].
  simpl. apply IH.
Qed.

Lemma length_app_string a b :
  String.length (a ++ b) = (String.length a + String.length b)%nat.
Proof. induction a as [|c a IH]; simpl; congruence. Qed.

Lemma digitsAux_app fuel : forall n acc,
  digitsAux fuel n acc = digitsAux fuel n "" ++ acc.
Proof.
  induction fuel as [|f IH]; intros n acc; [reflexivity|].
  cbn [digitsAux]. destruct (n / 10 =? 0)%Z; [reflexivity|].
  rewrite (IH _ (String _ acc)), (IH _ (String _ "")).
  rewrite append_assoc. reflexivity.
Qed.

Lemma digitsAux_spec fuel : forall n,
  (0 <= n < 2 ^ Z.of_nat fuel)%Z -> fuel <> O ->
  let s := digitsAux fuel n "" in
  allDigits s = true /\ digitsValue 0 s = n /\ s <> "".
Proof.
  induction fuel as [|f IH]; intros n Hn Hf; [contradiction|].
  cbn [digitsAux].
  assert (Hm : (0 <= n mod 10 < 10)%Z) by (apply Z.mod_pos_bound; lia).
  destruct (n / 10 =? 0)%Z eqn:E.
  - apply Z.eqb_eq in E. cbn [allDigits digitsValue].
    rewrite isDigit_digitChar, digitVal_digitChar by exact Hm.
    repeat split; [|discriminate].
    pose proof (Z.div_mod n 10). lia.
  - apply Z.eqb_neq in E. rewrite digitsAux_app.
    assert (Hq : (0 <= n / 10 < 2 ^ Z.of_nat f)%Z).
    { split; [apply Z.div_pos; lia|].
      rewrite Nat2Z.inj_succ, Z.pow_succ_r in Hn by lia.
      apply Z.div_lt_upper_bound; lia. }
    assert (Hf' : f <> O).
    { intros ->. simpl in Hq. lia. }
    destruct (IH _ Hq Hf') as (Ha & Hv & Hne).
    rewrite allDigits_app, digitsValue_app, Ha, Hv.
    cbn [allDigits digitsValue andb].
    rewrite isDigit_digitChar, digitVal_digitChar by exact Hm.
    repeat split.
    + pose proof (Z.div_mod n 10). lia.
    + destruct (digitsAux f (n / 10) ""); [congruence|discriminate].
Qed.

Lemma decimalDigits_spec n :
  (0 <= n)%Z ->
  allDigits (decimalDigits n) = true
  /\ digitsValue 0 (decimalDigits n) = n
  /\ decimalDigits n <> "".
Proof.
  intros Hn. unfold decimalDigits. apply digitsAux_spec; [|discriminate].
  split; [exact Hn|].
  rewrite Nat2Z.inj_succ, Z2Nat.id by apply Z.log2_nonneg.
  destruct (Z.eq_dec n 0) as [->|Hz]; [reflexivity|].
  apply Z.log2_spec. lia.
Qed.

Lemma allDigits_zeros k : allDigits (zeros k) = true.
Proof. induction k; simpl; auto. Qed.

Lemma digitsValue_zeros k s : digitsValue 0 (zeros k ++ s) = digitsValue 0 s.
Proof. induction k; simpl; auto. Qed.

Lemma length_zeros k : String.length (zeros k) = k.
Proof. induction k; simpl; congruence. Qed.

(** Cutting a string in two with [substring]. *)
Lemma substring_all s : substring 0 (String.length s) s = s.
Proof. induction s as [|c s IH]; simpl; congruence. Qed.

Lemma substring_split s : forall n,
  (n <= String.length s)%nat ->
  substring 0 n s ++ substring n (String.length s - n) s = s.
Proof.
  induction s as [|c s IH]; intros n Hn.
  - destruct n; reflexivity.
  - destruct n as [|n].
    + cbn [substring append]. rewrite Nat.sub_0_r.
      change (substring 0 (String.length (String c s)) (String c s) = String c s).
      apply substring_all.
    + cbn [substring append String.length Nat.sub]. f_equal.
      apply IH. simpl in Hn. lia.
Qed.

Lemma length_substring s : forall n m,
  (n + m <= String.length s)%nat -> String.length (substring n m s) = m.
Proof.
  induction s as [|c s IH]; intros n m H.
  - simpl in H. assert (n = O) by lia. assert (m = O) by lia. subst. reflexivity.
  - destruct n as [|n].
    + destruct m as [|m]; [reflexivity|].
      cbn [substring String.length]. f_equal. apply (IH 0%nat). simpl in H. lia.
    + cbn [substring]. apply IH. simpl in H. lia.
Qed.

Lemma spanDigits_all s : allDigits s = true -> spanDigits s = (s, "").
Proof.
  induction s as [|c s IH]; [reflexivity|].
  simpl. intros [Hc Hs]%andb_true_iff. rewrite Hc, (IH Hs). reflexivity.
Qed.

Lemma spanDigits_stop a c r :
  allDigits a = true -> isDigit c = false ->
  spanDigits (a ++ String c r) = (a, String c r).
Proof.
  intros Ha Hc. induction a as [|x a IH].
  - simpl. rewrite Hc. reflexivity.
  - simpl in Ha. apply andb_true_iff in Ha as [Hx Ha].
    cbn [append spanDigits]. rewrite Hx, (IH Ha). reflexivity.
Qed.

Lemma digit_starts_number c r :
  isDigit c = true ->
  trimStart (String c r) = String c r
  /\ parseSign (String c r) = (false, String c r)
  /\ prefix "Infinity" (String c r) = false.
Proof.
  destruct c as [[] [] [] [] [] [] [] []]; cbv [isDigit N_of_ascii N_of_digits
    N.leb N.compare N.add N.mul Pos.compare Pos.compare_cont Pos.add Pos.mul andb];
    try discriminate; intros _; repeat split.
Qed.

Lemma scale10_spec m e :
  (e <= 0)%Z -> scale10 m e * inject_Z (10 ^ (- e)) == inject_Z m.
Proof.
  intros He. unfold scale10.
  assert (Hp : (0 < 10 ^ (- e))%Z) by (apply Z.pow_pos_nonneg; lia).
  destruct (0 <=? e)%Z eqn:E.
  - apply Z.leb_le in E. assert (e = 0%Z) by lia. subst.
    simpl. unfold Qeq. simpl. lia.
  - unfold Qeq, Qmult, inject_Z. cbn [Qnum Qden].
    rewrite Pos.mul_1_r, Z2Pos.id by exact Hp. lia.
Qed.

(** Reading back a printed decimal: digits, or digits, a point and
    digits. *)
Lemma readLiteral_digits a :
  allDigits a = true -> a <> "" ->
  readLiteral a = DecimalLiteral (scale10 (digitsValue 0 a) 0).
Proof.
  intros Ha Hne. destruct a as [|c r]; [congruence|].
  pose proof Ha as Hc. simpl in Hc. apply andb_true_iff in Hc as [Hc _].
  destruct (digit_starts_number c r Hc) as (Ht & Hs & Hi).
  unfold readLiteral. rewrite Ht, Hs, Hi, (spanDigits_all _ Ha).
  cbn [parseExponent String.length Z.of_nat Z.sub Z.opp Z.add signed].
  assert (Happ : forall s, s ++ "" = s).
  { induction s; simpl; congruence. }
  rewrite Happ. reflexivity.
Qed.

Lemma readLiteral_point a b :
  allDigits a = true -> a <> "" -> allDigits b = true ->
  readLiteral (a ++ "." ++ b)
  = DecimalLiteral
      (scale10 (digitsValue 0 (a ++ b)) (- Z.of_nat (String.length b))).
Proof.
  intros Ha Hne Hb. destruct a as [|c r]; [congruence|].
  pose proof Ha as Hc. simpl in Hc. apply andb_true_iff in Hc as [Hc _].
  destruct (digit_starts_number c (r ++ "." ++ b) Hc) as (Ht & Hs & Hi).
  unfold readLiteral. cbn [append] in *. rewrite Ht, Hs, Hi.
  change (String c (r ++ String "." b)) with (String c r ++ String "." b).
  rewrite (spanDigits_stop _ "." b Ha eq_refl).
  rewrite (spanDigits_all _ Hb).
  cbn [parseExponent signed Z.sub Z.add].
  destruct b; reflexivity.
Qed.

(** [parseFloat] on a text that reads as a decimal literal. *)
Lemma parseFloat_literal s q :
  readLiteral s = DecimalLiteral q -> parseFloat s = round64 q.
Proof. intros H. unfold parseFloat. rewrite H. reflexivity. Qed.

Lemma round64_not_NaN q : isNaN (round64 q) = false.
Proof. unfold round64. cbv zeta. destruct (Qle_bool _ _); reflexivity. Qed.

Lemma roundHalfUp_nonneg q : 0 <= q -> (0 <= roundHalfUp q)%Z.
Proof.
  intros Hq. unfold roundHalfUp.
  change 0%Z with (Qfloor 0). apply Qfloor_resp_le.
  apply Qle_trans with q; [exact Hq|].
  rewrite <- (Qplus_0_r q) at 1. apply Qplus_le_r. discriminate.
Qed.

Lemma pow10_pos d : (0 < 10 ^ Z.of_nat d)%Z.
Proof. apply Z.pow_pos_nonneg; lia. Qed.

(** A non-negative number below 10^21 printed by [toFixed] with [d]
    decimals is read as the multiple of 10^-d nearest to it. *)
Lemma toFixed_reads_back big q d :
  0 <= q -> q < inject_Z (10 ^ 21) ->
  exists p,
    readLiteral (toFixed big (Fin q) d) = DecimalLiteral p
    /\ p * inject_Z (10 ^ Z.of_nat d)
       == inject_Z (roundHalfUp (q * inject_Z (10 ^ Z.of_nat d))).
Proof.
  intros H0 Hbig.
  set (n := roundHalfUp (q * inject_Z (10 ^ Z.of_nat d))).
  assert (Hn : (0 <= n)%Z).
  { apply roundHalfUp_nonneg. apply Qmult_le_0_compat; [exact H0|].
    unfold Qle. simpl. pose proof (pow10_pos d). lia. }
  assert (Habs : Qabs q = q).
  { destruct q as [qn qd]. unfold Qle in H0. simpl in H0.
    unfold Qabs. rewrite Z.abs_eq by lia. reflexivity. }
  assert (Hneg : Qneg q = false).
  { unfold Qneg, Qltb. unfold Qle in H0. simpl in *. apply Z.ltb_ge. lia. }
  assert (Hle : Qle_bool (inject_Z (10 ^ 21)) q = false).
  { destruct (Qle_bool (inject_Z (10 ^ 21)) q) eqn:E; [|reflexivity].
    apply Qle_bool_iff in E. exfalso. apply (Qlt_not_le _ _ Hbig E). }
  destruct (decimalDigits_spec n Hn) as (Hd & Hv & Hne).
  unfold toFixed. rewrite Hneg, Habs, Hle. fold n.
  destruct d as [|d'].
  - cbn [append]. rewrite (readLiteral_digits _ Hd Hne), Hv.
    eexists. split; [reflexivity|].
    apply (scale10_spec n 0). lia.
  - set (d := S d') in *.
    set (m := decimalDigits n) in *.
    set (m' := zeros (S d - String.length m) ++ m).
    set (k := String.length m').
    assert (Hk : (S d <= k)%nat).
    { unfold k, m'. rewrite length_app_string, length_zeros. lia. }
    assert (Hm' : allDigits m' = true).
    { unfold m'. rewrite allDigits_app, allDigits_zeros. exact Hd. }
    assert (Hsplit : substring 0 (k - d) m' ++ substring (k - d) d m' = m').
    { pose proof (substring_split m' (k - d)) as Hs.
      replace (String.length m' - (k - d))%nat with d in Hs
        by (fold k; lia).
      apply Hs. fold k. lia. }
    set (a := substring 0 (k - d) m') in *.
    set (b := substring (k - d) d m') in *.
    assert (Hab : allDigits a = true /\ allDigits b = true).
    { rewrite <- Hsplit, allDigits_app in Hm'.
      apply andb_true_iff in Hm'. exact Hm'. }
    assert (Hla : String.length a = (k - d)%nat).
    { unfold a. apply length_substring. fold k. lia. }
    assert (Hlb : String.length b = d).
    { unfold b. apply length_substring. fold k. lia. }
    assert (Hane : a <> "").
    { intros E. rewrite E in Hla. simpl in Hla. lia. }
    change ("" ++ a ++ "." ++ b) with (a ++ "." ++ b).
    rewrite (readLiteral_point a b (proj1 Hab) Hane (proj2 Hab)).
    rewrite Hsplit, Hlb. unfold m'. rewrite digitsValue_zeros, Hv.
    eexists. split; [reflexivity|].
    pose proof (scale10_spec n (- Z.of_nat d)) as Hs.
    rewrite Z.opp_involutive in Hs. apply Hs. lia.
Qed.

(** ** The grid generator in general *)

Lemma gridLoop_filter big symbol rules min step ref qty fuel : forall i,
  gridLoop big fuel i symbol rules min step ref qty
  = map (gridOrder big symbol rules min step ref qty)
      (filter (fun j => negb (nearReference rules min step ref j))
         (indices fuel i)).
Proof.
  induction fuel as [|f IH]; intros i; [reflexivity|].
  cbn [gridLoop indices filter]. fold (nearReference rules min step ref i).
  rewrite IH.
  destruct (nearReference rules min step ref i); reflexivity.
Qed.

Lemma filter_complement {A} (f : A -> bool) l :
  List.length (filter (fun x => negb (f x)) l)
  = (List.length l - List.length (filter f l))%nat.
Proof.
  induction l as [|x l IH]; [reflexivity|].
  pose proof (filter_length_le f l).
  cbn [filter]. destruct (f x); cbn [negb List.length]; lia.
Qed.

Lemma length_indices n i : List.length (indices n i) = n.
Proof. revert i. induction n; intros i; simpl; congruence. Qed.

Lemma indices_sorted n : forall i,
  StronglySorted (fun x y => (i <= x < y)%Z /\ (y < i + Z.of_nat n)%Z)
    (indices n i).
Proof.
  induction n as [|n IH]; intros i; [constructor|].
  cbn [indices]. constructor.
  - specialize (IH (i + 1)%Z).
    clear -IH. induction IH as [|x l Hs IHs Hf]; constructor.
    + apply IHs.
    + eapply Forall_impl; [|exact Hf]. cbv beta. intros y. lia.
  - specialize (IH (i + 1)%Z).
    assert (Hall : Forall (fun y => (i + 1 <= y < i + 1 + Z.of_nat n)%Z)
                     (indices n (i + 1))).
    { clear. revert i. induction n as [|n IHn]; intros i; [constructor|].
      cbn [indices]. constructor; [lia|].
      eapply Forall_impl; [|apply (IHn (i + 1)%Z)]. cbv beta. intros y. lia. }
    eapply Forall_impl; [|exact Hall]. cbv beta. intros y. lia.
Qed.



Lemma u_pos d : 0 < inject_Z (10 ^ Z.of_nat d).
Proof.
  change 0 with (inject_Z 0). rewrite <- Zlt_Qlt.
  apply Z.pow_pos_nonneg; lia.
Qed.

(** What an accepted grid input has passed. *)
Lemma validateGridInput_accepts symbol minPrice maxPrice quantity :
  validateGridInput symbol minPrice maxPrice quantity = None ->
  let rules := getSymbolRules symbol in
  ge (parseFloat minPrice) (parseFloat maxPrice) = false
  /\ le (parseFloat minPrice) (ofZ 0) = false
  /\ (countDecimals minPrice <= priceDecimals rules)%nat
  /\ (countDecimals maxPrice <= priceDecimals rules)%nat.
Proof.
  unfold validateGridInput.
  destruct (negb (truthy minPrice) || negb (truthy maxPrice)); [discriminate|].
  destruct (ge (parseFloat minPrice) (parseFloat maxPrice)); [discriminate|].
  destruct (le (parseFloat minPrice) (ofZ 0)); [discriminate|].
  destruct (priceDecimals (getSymbolRules symbol) <? countDecimals minPrice)%nat
    eqn:E1; [discriminate|].
  destruct (priceDecimals (getSymbolRules symbol) <? countDecimals maxPrice)%nat
    eqn:E2; [discriminate|].
  intros _. apply Nat.ltb_ge in E1, E2. repeat split; assumption.
Qed.

Lemma Qle_bool_false a b : Qle_bool a b = false <-> b < a.
Proof.
  split; intros H.
  - apply Qnot_le_lt. intros E. apply Qle_bool_iff in E. congruence.
  - destruct (Qle_bool a b) eqn:E; [|reflexivity].
    apply Qle_bool_iff in E. exfalso. apply (Qlt_not_le _ _ H E).
Qed.

Lemma StronglySorted_map_filter {A B} (R : A -> A -> Prop)
    (S : B -> B -> Prop) (f : A -> B) (keep : A -> bool) l :
  (forall x y, R x y -> S (f x) (f y)) ->
  StronglySorted R l -> StronglySorted S (map f (filter keep l)).
Proof.
  intros HRS Hs. induction Hs as [|x l Hs IH Hf]; [constructor|].
  cbn [filter]. destruct (keep x); [|exact IH].
  cbn [map]. constructor; [exact IH|].
  apply Forall_map, Forall_forall. intros y Hy.
  apply filter_In in Hy as [Hy _].
  rewrite Forall_forall in Hf. apply HRS, Hf, Hy.
Qed.


Lemma indices_bounds n : forall i,
  Forall (fun j => (i <= j < i + Z.of_nat n)%Z) (indices n i).
Proof.
  induction n as [|n IH]; intros i; [constructor|].
  cbn [indices]. constructor; [lia|].
  eapply Forall_impl; [|apply (IH (i + 1)%Z)]. cbv beta. intros y. lia.
Qed.

(** ** Plain decimals *)

Lemma digit_not_point c : isDigit c = true -> Ascii.eqb c "." = false.
Proof.
  destruct c as [[] [] [] [] [] [] [] []]; cbv; congruence.
Qed.

Lemma indexOfFrom_digits a i :
  allDigits a = true -> indexOfFrom "." a i = (-1)%Z.
Proof.
  revert i. induction a as [|c a IH]; intros i Ha; [reflexivity|].
  simpl in Ha. apply andb_true_iff in Ha as [Hc Ha].
  cbn [indexOfFrom]. rewrite (digit_not_point c Hc). apply IH, Ha.
Qed.

Lemma indexOfFrom_found a r i :
  (0 <= i)%Z -> (0 <= indexOfFrom "." (a ++ String "." r) i)%Z.
Proof.
  revert i. induction a as [|c a IH]; intros i Hi.
  - cbn. exact Hi.
  - cbn [append indexOfFrom]. destruct (Ascii.eqb c "."); [exact Hi|].
    apply IH. lia.
Qed.

Lemma split_digits b : allDigits b = true -> split "." b = [b].
Proof.
  induction b as [|c b IH]; [reflexivity|].
  intros Ha. simpl in Ha. apply andb_true_iff in Ha as [Hc Ha].
  cbn [split]. rewrite (digit_not_point c Hc), (IH Ha). reflexivity.
Qed.

Lemma split_point a r :
  allDigits a = true -> split "." (a ++ String "." r) = a :: split "." r.
Proof.
  induction a as [|c a IH]; intros Ha; [reflexivity|].
  simpl in Ha. apply andb_true_iff in Ha as [Hc Ha].
  cbn [append split]. rewrite (digit_not_point c Hc), (IH Ha). reflexivity.
Qed.

Lemma countDecimals_integer a : allDigits a = true -> countDecimals a = O.
Proof.
  intros Ha. unfold countDecimals, indexOf.
  rewrite (indexOfFrom_digits a 0 Ha). reflexivity.
Qed.

Lemma countDecimals_fraction a b :
  allDigits a = true -> allDigits b = true ->
  countDecimals (a ++ "." ++ b) = String.length b.
Proof.
  intros Ha Hb. unfold countDecimals, indexOf.
  pose proof (indexOfFrom_found a b 0 (Z.le_refl 0)) as Hi.
  change (a ++ "." ++ b) with (a ++ String "." b).
  destruct (indexOfFrom "." (a ++ String "." b) 0 =? -1)%Z eqn:E.
  - apply Z.eqb_eq in E. lia.
  - rewrite (split_point a b Ha), (split_digits b Hb). reflexivity.
Qed.

Lemma digitsValue_nonneg s : forall acc,
  allDigits s = true -> (0 <= acc)%Z -> (0 <= digitsValue acc s)%Z.
Proof.
  induction s as [|c s IH]; intros acc Ha Hacc; [exact Hacc|].
  simpl in Ha. apply andb_true_iff in Ha as [Hc Ha].
  cbn [digitsValue]. apply IH; [exact Ha|].
  unfold isDigit in Hc. apply andb_true_iff in Hc as [Hc _].
  apply N.leb_le in Hc. unfold digitVal. lia.
Qed.

Lemma scale10_onGrid m k d :
  (k <= d)%nat -> (0 <= m)%Z ->
  0 <= scale10 m (- Z.of_nat k) /\ onGrid d (scale10 m (- Z.of_nat k)).
Proof.
  intros Hk Hm.
  pose proof (scale10_spec m (- Z.of_nat k)) as Hs.
  rewrite Z.opp_involutive in Hs. specialize (Hs ltac:(lia)).
  set (q := scale10 m (- Z.of_nat k)) in *.
  pose proof (u_pos k) as Hu.
  split.
  - apply (Qmult_le_r _ _ _ Hu). rewrite Hs, Qmult_0_l.
    change 0 with (inject_Z 0). rewrite <- Zle_Qle. exact Hm.
  - exists (m * 10 ^ Z.of_nat (d - k))%Z.
    replace (Z.of_nat d) with (Z.of_nat k + Z.of_nat (d - k))%Z by lia.
    rewrite Z.pow_add_r by lia.
    rewrite !inject_Z_mult, Qmult_assoc, Hs. reflexivity.
Qed.

(** A plain decimal with at most [d] decimals is a non-negative multiple
    of 10^-d. *)
Lemma plain_decimal_onGrid s d :
  PlainDecimal s -> (countDecimals s <= d)%nat ->
  exists q, readLiteral s = DecimalLiteral q /\ 0 <= q /\ onGrid d q.
Proof.
  intros [a Ha Hne | a b Ha Hne Hb] Hc.
  - rewrite (readLiteral_digits a Ha Hne). eexists. split; [reflexivity|].
    apply (scale10_onGrid _ 0 d); [lia|].
    apply digitsValue_nonneg; [exact Ha | lia].
  - rewrite (countDecimals_fraction a b Ha Hb) in Hc.
    rewrite (readLiteral_point a b Ha Hne Hb). eexists. split; [reflexivity|].
    apply scale10_onGrid; [exact Hc|].
    apply digitsValue_nonneg; [|lia].
    rewrite allDigits_app, Ha, Hb. reflexivity.
Qed.

(** The prices of an accepted grid input written as plain decimals are
    read as non-negative multiples of the symbol's price unit: the
    validator's textual count of decimals bounds their precision. *)
Lemma accepted_plain_prices_onGrid symbol minPrice maxPrice quantity :
  validateGridInput symbol minPrice maxPrice quantity = None ->
  PlainDecimal minPrice -> PlainDecimal maxPrice ->
  exists mn mx,
    readLiteral minPrice = DecimalLiteral mn
    /\ readLiteral maxPrice = DecimalLiteral mx
    /\ onGrid (priceDecimals (getSymbolRules symbol)) mn
    /\ onGrid (priceDecimals (getSymbolRules symbol)) mx.
Proof.
  intros Hval Hpmin Hpmax.
  apply validateGridInput_accepts in Hval as (_ & _ & Hdmin & Hdmax).
  destruct (plain_decimal_onGrid _ _ Hpmin Hdmin) as (mn & Hmin & _ & Hgmin).
  destruct (plain_decimal_onGrid _ _ Hpmax Hdmax) as (mx & Hmax & _ & Hgmax).
  exists mn, mx. repeat split; assumption.
Qed.

(** ** The shape of a printed number *)

(** A non-negative number below 10^21 printed by [toFixed] with [d]
    decimals is digits, followed when [d] is not 0 by a point and [d]
    digits. *)
Lemma toFixed_shape big q d :
  0 <= q -> q < inject_Z (10 ^ 21) ->
  exists a b,
    allDigits a = true /\ a <> "" /\ allDigits b = true
    /\ String.length b = d
    /\ toFixed big (Fin q) d
       = match d with O => a | S _ => a ++ "." ++ b end.
Proof.
  intros H0 Hbig.
  set (n := roundHalfUp (q * inject_Z (10 ^ Z.of_nat d))).
  assert (Hn : (0 <= n)%Z).
  { apply roundHalfUp_nonneg. apply Qmult_le_0_compat; [exact H0|].
    unfold Qle. simpl. pose proof (pow10_pos d). lia. }
  assert (Habs : Qabs q = q).
  { destruct q as [qn qd]. unfold Qle in H0. simpl in H0.
    unfold Qabs. rewrite Z.abs_eq by lia. reflexivity. }
  assert (Hneg : Qneg q = false).
  { unfold Qneg, Qltb. unfold Qle in H0. simpl in *. apply Z.ltb_ge. lia. }
  assert (Hle : Qle_bool (inject_Z (10 ^ 21)) q = false)
    by (apply Qle_bool_false; exact Hbig).
  destruct (decimalDigits_spec n Hn) as (Hd & Hv & Hne).
  unfold toFixed. rewrite Hneg, Habs, Hle. fold n.
  destruct d as [|d'].
  - exists (decimalDigits n), "". repeat split; assumption.
  - set (d := S d') in *.
    set (m := decimalDigits n) in *.
    set (m' := zeros (S d - String.length m) ++ m).
    set (k := String.length m').
    assert (Hk : (S d <= k)%nat).
    { unfold k, m'. rewrite length_app_string, length_zeros. lia. }
    assert (Hm' : allDigits m' = true).
    { unfold m'. rewrite allDigits_app, allDigits_zeros. exact Hd. }
    assert (Hsplit : substring 0 (k - d) m' ++ substring (k - d) d m' = m').
    { pose proof (substring_split m' (k - d)) as Hs.
      replace (String.length m' - (k - d))%nat with d in Hs
        by (fold k; lia).
      apply Hs. fold k. lia. }
    exists (substring 0 (k - d) m'), (substring (k - d) d m').
    set (a := substring 0 (k - d) m') in *.
    set (b := substring (k - d) d m') in *.
    assert (Hab : allDigits a = true /\ allDigits b = true).
    { rewrite <- Hsplit, allDigits_app in Hm'.
      apply andb_true_iff in Hm'. exact Hm'. }
    assert (Hla : String.length a = (k - d)%nat).
    { unfold a. apply length_substring. fold k. lia. }
    assert (Hlb : String.length b = d).
    { unfold b. apply length_substring. fold k. lia. }
    assert (Hane : a <> "").
    { intros E. rewrite E in Hla. simpl in Hla. lia. }
    repeat split; try tauto.
Qed.

(** Such a text is a plain decimal with exactly [d] decimals, and it is
    not empty. *)
Lemma toFixed_plain big q d :
  0 <= q -> q < inject_Z (10 ^ 21) ->
  PlainDecimal (toFixed big (Fin q) d)
  /\ countDecimals (toFixed big (Fin q) d) = d
  /\ truthy (toFixed big (Fin q) d) = true.
Proof.
  intros H0 Hbig.
  destruct (toFixed_shape big q d H0 Hbig) as (a & b & Ha & Hne & Hb & Hl & ->).
  destruct d as [|d'].
  - split; [apply PlainInteger; assumption|].
    split; [apply countDecimals_integer, Ha|].
    destruct a; [congruence|reflexivity].
  - split; [apply PlainFraction; assumption|].
    split; [rewrite (countDecimals_fraction a b Ha Hb); exact Hl|].
    destruct a; [congruence|reflexivity].
Qed.

(** Rounding moves a number by at most a half. *)
Lemma roundHalfUp_near x :
  inject_Z (roundHalfUp x) <= x + (1 # 2)
  /\ x + - (1 # 2) < inject_Z (roundHalfUp x).
Proof.
  unfold roundHalfUp. split.
  - apply Qfloor_le.
  - pose proof (Qlt_floor (x + (1 # 2))) as H.
    rewrite inject_Z_plus in H. change (inject_Z 1) with 1 in H. lra.
Qed.

(** ** Arithmetic on numbers of moderate size *)

Lemma rounded_eq q : rounded q == nearest q.
Proof. apply Qred_correct. Qed.

Lemma round64_rounded q r : round64 q = Fin r -> r = rounded q.
Proof. intros H. apply (round64_value q r H). Qed.

Lemma rounded_mono x y : 0 <= x -> x <= y -> rounded x <= rounded y.
Proof.
  intros Hx H. rewrite !rounded_eq. apply nearest_mono; assumption.
Qed.

Lemma rounded_nonneg q : 0 <= q -> 0 <= rounded q.
Proof. intros H. rewrite rounded_eq. apply nearest_nonneg, H. Qed.

Lemma rounded_nonpos q : q <= 0 -> rounded q <= 0.
Proof. intros H. rewrite rounded_eq. apply nearest_nonpos, H. Qed.

Lemma Qabs_bounds x e : Qabs x <= e <-> - e <= x <= e.
Proof. apply Qabs_Qle_condition. Qed.

(** The rounding of a number of magnitude at most [M], computed within [e]
    of [x], is within [e + 2^-53 M] of [x]. *)
Lemma rounded_near q x e M :
  x - e <= q <= x + e -> - M <= q <= M ->
  pow2 (-1022) <= M -> M <= pow2 1023 ->
  round64 q = Fin (rounded q)
  /\ x - (e + pow2 (-53) * M) <= rounded q <= x + (e + pow2 (-53) * M).
Proof.
  intros Hx Hq HM HB.
  assert (Habs : Qabs q <= M) by (apply Qabs_bounds; exact Hq).
  destruct (round64_error q M Habs HM HB) as (r & Hr & _ & He).
  pose proof (round64_rounded q r Hr) as E. subst r.
  split; [exact Hr|].
  apply Qabs_bounds in He.
  set (c := pow2 (-53) * M) in *. clearbody c. lra.
Qed.

Lemma round64_cases q :
  (round64 q = Fin (rounded q) /\ Qabs (nearest q) < pow2 1024)
  \/ (round64 q = Infinity (Qneg q) /\ pow2 1024 <= Qabs (nearest q)).
Proof.
  unfold round64, rounded. cbv zeta.
  destruct (Qle_bool (pow2 1024) (Qabs (nearest q))) eqn:T.
  - right. split; [reflexivity|]. apply Qle_bool_iff, T.
  - left. split; [reflexivity|].
    apply Qnot_le_lt. intros C. apply Qle_bool_iff in C. congruence.
Qed.

Lemma Qneg_false q : 0 <= q -> Qneg q = false.
Proof.
  intros H. destruct (Qneg q) eqn:E; [|reflexivity].
  apply Qltb_lt in E. lra.
Qed.

Lemma Qneg_true q : q < 0 -> Qneg q = true.
Proof. intros H. apply Qltb_lt, H. Qed.

(** Rounding keeps the order of non-negative numbers, infinite results
    included. *)
Lemma round64_le x y : 0 <= x -> x <= y -> le (round64 x) (round64 y) = true.
Proof.
  intros Hx H.
  pose proof (nearest_mono x y Hx H) as Hm.
  pose proof (nearest_nonneg x Hx) as Hnx.
  assert (Hy : 0 <= y) by lra.
  pose proof (nearest_nonneg y Hy) as Hny.
  destruct (round64_cases x) as [[-> Bx]|[-> Bx]];
    destruct (round64_cases y) as [[-> By]|[-> By]].
  - cbn [le]. apply Qle_bool_iff. rewrite !rounded_eq. exact Hm.
  - rewrite (Qneg_false y Hy). reflexivity.
  - exfalso. rewrite Qabs_pos in Bx, By by assumption.
    set (c := pow2 1024) in *. clearbody c. lra.
  - rewrite (Qneg_false x Hx), (Qneg_false y Hy). reflexivity.
Qed.

Lemma round64_le_signs x y : x <= 0 -> 0 <= y -> le (round64 x) (round64 y) = true.
Proof.
  intros Hx Hy.
  pose proof (nearest_nonpos x Hx) as Hnx.
  pose proof (nearest_nonneg y Hy) as Hny.
  destruct (round64_cases x) as [[-> Bx]|[-> Bx]];
    destruct (round64_cases y) as [[-> By]|[-> By]].
  - cbn [le]. apply Qle_bool_iff. rewrite !rounded_eq. lra.
  - rewrite (Qneg_false y Hy). reflexivity.
  - destruct (Qeq_dec x 0) as [Z|NZ].
    + exfalso. rewrite (Qabs_wd_0 _ (nearest_0 x Z)) in Bx.
      pose proof (pow2_pos 1024) as P. set (c := pow2 1024) in *. clearbody c. lra.
    + rewrite Qneg_true; [reflexivity|].
      apply Qnot_le_lt. intros C. apply NZ. lra.
  - rewrite (Qneg_false y Hy). destruct (Qneg x); reflexivity.
Qed.

Lemma ofZ_exact z : (Z.abs z <= 2 ^ 53)%Z -> ofZ z = Fin (inject_Z z).
Proof. apply round64_Z. Qed.

Lemma ofZ_0 : ofZ 0 = Fin 0.
Proof. apply (ofZ_exact 0). vm_compute. discriminate. Qed.

(** A number that the validators find greater than 0 is the rounding of a
    positive one. *)
Lemma round64_positive q : le (round64 q) (ofZ 0) = false -> 0 < q.
Proof.
  intros H. apply Qnot_le_lt. intros C.
  assert (E : ofZ 0 = round64 0) by reflexivity.
  rewrite E, (round64_le_signs q 0 C) in H; [discriminate|lra].
Qed.

Lemma round64_less x y :
  0 <= x -> le (round64 y) (round64 x) = false -> x < y.
Proof.
  intros Hx H. apply Qnot_le_lt. intros C.
  destruct (Qlt_le_dec y 0) as [Hy|Hy].
  - rewrite round64_le_signs in H; [discriminate|lra|exact Hx].
  - rewrite round64_le in H; [discriminate|exact Hy|exact C].
Qed.

(** The count, as a number, against 2. *)
Lemma count_below_2 N : (N < 2)%Z -> lt (ofZ N) (ofZ 2) = true.
Proof.
  intros H. rewrite (ofZ_exact 2) by (vm_compute; discriminate).
  destruct (Z_le_gt_dec 0 N) as [P|Ng].
  - rewrite ofZ_exact by lia. cbn [lt]. apply Qltb_lt.
    rewrite <- Zlt_Qlt. exact H.
  - unfold ofZ.
    assert (Hq : inject_Z N < 0).
    { change 0 with (inject_Z 0). rewrite <- Zlt_Qlt. lia. }
    destruct (round64_cases (inject_Z N)) as [[-> _]|[-> _]].
    + cbn [lt]. apply Qltb_lt.
      pose proof (rounded_nonpos (inject_Z N) ltac:(lra)).
      change (inject_Z 2) with 2. lra.
    + rewrite (Qneg_true _ Hq). reflexivity.
Qed.


(** The rounded values stay folded in the arithmetic of the levels. *)
Opaque rounded.

(** ** The levels of a grid, as binary64 computes them *)

Lemma pow10_le_pow2 d : (d <= 5)%nat -> (10 ^ Z.of_nat d <= 2 ^ 17)%Z.
Proof.
  intros H. apply Z.le_trans with (10 ^ 5)%Z.
  - apply Z.pow_le_mono_r; lia.
  - vm_compute. discriminate.
Qed.

Lemma Qdiv_mult_cancel x n : ~ n == 0 -> x / n * n == x.
Proof. intros H. field. exact H. Qed.

Lemma step_error t S n x y e :
  0 < n -> x * n == 3 * e -> y * n == e ->
  S - (x + y) <= t <= S + (x + y) ->
  - (4 * e) <= (t - S) * n <= 4 * e.
Proof. intros Hn Hx Hy [H1 H2]. nra. Qed.

Lemma integer_below a b : inject_Z a < inject_Z b + 1 -> (a <= b)%Z.
Proof.
  intros H. change 1 with (inject_Z 1) in H.
  rewrite <- inject_Z_plus, <- Zlt_Qlt in H. lia.
Qed.

Lemma integer_above a b : inject_Z a - 1 < inject_Z b -> (a <= b)%Z.
Proof.
  intros H. apply integer_below. lra.
Qed.


(** *** The test of the reference price *)

(** The price unit as computed, [1 / Math.pow(10, d)], in units. *)
Lemma priceUnit_value rules :
  (priceDecimals rules <= 5)%nat ->
  let u := inject_Z (10 ^ Z.of_nat (priceDecimals rules)) in
  exists t, priceUnit rules = Fin t /\ (15 # 16) <= t * u <= (17 # 16).
Proof.
  intros Hd u.
  pose proof (pow10_le_pow2 _ Hd) as H17. pose proof (pow10_pos (priceDecimals rules)) as Hp.
  assert (Hu : 0 < u) by apply u_pos.
  assert (Hu1 : 1 <= u).
  { unfold u. change 1 with (inject_Z 1). rewrite <- Zle_Qle. lia. }
  assert (Hu17 : u <= inject_Z (2 ^ 17)).
  { unfold u. rewrite <- Zle_Qle. exact H17. }
  assert (Hune : ~ u == 0) by (intros E; rewrite E in Hu; discriminate Hu).
  unfold priceUnit, pow10.
  rewrite (ofZ_exact 1) by (vm_compute; discriminate).
  rewrite (ofZ_exact (10 ^ Z.of_nat (priceDecimals rules))) by lia.
  fold u. cbn [div].
  assert (Hz : Qzero u = false).
  { unfold Qzero. destruct (Qeq_bool u 0) eqn:E; [|reflexivity].
    apply Qeq_bool_iff in E. contradiction. }
  rewrite Hz. change (inject_Z 1) with 1.
  assert (Hq : 0 < 1 / u <= 1).
  { split; [apply Qlt_shift_div_l; lra|apply Qle_shift_div_r; lra]. }
  destruct (rounded_near (1 / u) (1 / u) 0 1) as [R1 R2].
  - lra.
  - lra.
  - change 1 with (pow2 0). apply pow2_le. lia.
  - change 1 with (pow2 0). apply pow2_le. lia.
  - exists (rounded (1 / u)). split; [exact R1|].
    assert (E : 1 / u * u == 1) by (field; exact Hune).
    assert (P : pow2 (-53) * 1 * u <= 1 # 16).
    { apply Qle_trans with (pow2 (-53) * 1 * inject_Z (2 ^ 17)).
      - apply Qmult_le_l; [|exact Hu17].
        rewrite Qmult_1_r. apply pow2_pos.
      - vm_compute. discriminate. }
    destruct R2 as [R2 R3].
    apply (Qmult_le_compat_r _ _ u) in R2; [|lra].
    apply (Qmult_le_compat_r _ _ u) in R3; [|lra].
    set (c := pow2 (-53) * 1) in *.
    setoid_replace ((1 / u - (0 + c)) * u) with (1 / u * u - c * u) in R2 by ring.
    setoid_replace ((1 / u + (0 + c)) * u) with (1 / u * u + c * u) in R3 by ring.
    rewrite E in R2, R3. set (cu := c * u) in *. clearbody cu. lra.
Qed.

Lemma Qabs_scale x u : 0 < u -> Qabs x * u == Qabs (x * u).
Proof.
  intros Hu. rewrite Qabs_Qmult, (Qabs_pos u) by lra. reflexivity.
Qed.

(** A level that the test keeps is at least three quarters of a unit away
    from a finite reference. *)
Lemma kept_level_far rules x r :
  (priceDecimals rules <= 5)%nat ->
  lt (abs (sub (Fin x) (Fin r))) (priceUnit rules) = false ->
  let u := inject_Z (10 ^ Z.of_nat (priceDecimals rules)) in
  (3 # 4) <= Qabs (x - r) * u.
Proof.
  intros Hd Hkeep u.
  destruct (priceUnit_value rules Hd) as (t & Ht & Hl & Hh). fold u in Hl, Hh.
  rewrite Ht in Hkeep.
  pose proof (pow10_le_pow2 _ Hd) as H17.
  pose proof (pow10_pos (priceDecimals rules)) as Hp.
  assert (Hu : 0 < u) by apply u_pos.
  assert (Hu1 : 1 <= u).
  { unfold u. change 1 with (inject_Z 1). rewrite <- Zle_Qle. lia. }
  assert (Hu17 : u <= inject_Z (2 ^ 17)).
  { unfold u. rewrite <- Zle_Qle. exact H17. }
  destruct (Qlt_le_dec (Qabs (x - r) * u) (3 # 4)) as [C|C]; [|exact C].
  exfalso.
  assert (Hq : Qabs (x + - r) <= 1).
  { pose proof (Qabs_nonneg (x - r)) as H0.
    change (x + - r) with (x - r).
    set (z := Qabs (x - r)) in *. clearbody z. nra. }
  apply Qabs_bounds in Hq.
  destruct (rounded_near (x + - r) (x + - r) 0 1) as [R1 R2].
  - lra.
  - exact Hq.
  - change 1 with (pow2 0). apply pow2_le. lia.
  - change 1 with (pow2 0). apply pow2_le. lia.
  - cbn [sub neg add] in Hkeep. rewrite R1 in Hkeep. cbn [abs lt] in Hkeep.
    assert (Hlt : Qabs (rounded (x + - r)) < t); [|apply Qltb_lt in Hlt; congruence].
    apply (Qmult_lt_r _ _ u Hu).
    assert (P : pow2 (-53) * 1 * u <= 1 # 16).
    { apply Qle_trans with (pow2 (-53) * 1 * inject_Z (2 ^ 17)).
      - apply Qmult_le_l; [|exact Hu17].
        rewrite Qmult_1_r. apply pow2_pos.
      - vm_compute. discriminate. }
    set (c := pow2 (-53) * 1) in *.
    assert (Hy : Qabs (rounded (x + - r)) <= Qabs (x - r) + c).
    { apply Qabs_triangle_le. apply Qabs_bounds.
      change (x - r) with (x + - r). lra. }
    assert (Hc : 0 <= c).
    { unfold c. rewrite Qmult_1_r. apply Qlt_le_weak, pow2_pos. }
    apply (Qmult_le_compat_r _ _ u) in Hy; [|lra].
    setoid_replace ((Qabs (x - r) + c) * u) with (Qabs (x - r) * u + c * u)
      in Hy by ring.
    set (cu := c * u) in *. clearbody cu. lra.
Qed.

(** A level that the test skips is less than five quarters of a unit away
    from the reference, which is finite. *)
Lemma skipped_level_near rules x ref :
  (priceDecimals rules <= 5)%nat ->
  lt (abs (sub (Fin x) ref)) (priceUnit rules) = true ->
  let u := inject_Z (10 ^ Z.of_nat (priceDecimals rules)) in
  exists r, ref = Fin r /\ Qabs (x - r) * u < (5 # 4).
Proof.
  intros Hd Hnear u.
  destruct (priceUnit_value rules Hd) as (t & Ht & Hl & Hh). fold u in Hl, Hh.
  rewrite Ht in Hnear.
  destruct ref as [|n|r]; cbn [sub neg add abs lt] in Hnear;
    try discriminate Hnear.
  exists r. split; [reflexivity|].
  pose proof (pow10_le_pow2 _ Hd) as H17.
  pose proof (pow10_pos (priceDecimals rules)) as Hp.
  assert (Hu : 0 < u) by apply u_pos.
  assert (Hu17 : u <= inject_Z (2 ^ 17)).
  { unfold u. rewrite <- Zle_Qle. exact H17. }
  destruct (round64_cases (x + - r)) as [[E B]|[E _]];
    rewrite E in Hnear; cbn [abs lt] in Hnear; [|discriminate Hnear].
  apply Qltb_lt in Hnear.
  apply Qnot_le_lt. intros C.
  change (x - r) with (x + - r) in C.
  set (q := x + - r) in *.
  assert (Hq : pow2 (-17) * (5 # 4) <= Qabs q).
  { apply (Qmult_le_r _ _ u Hu).
    apply Qle_trans with (5 # 4); [|exact C].
    apply Qle_trans with (pow2 (-17) * (5 # 4) * inject_Z (2 ^ 17)).
    - apply Qmult_le_l; [|exact Hu17]. vm_compute. reflexivity.
    - vm_compute. discriminate. }
  assert (Hq' : pow2 (-1022) <= Qabs q).
  { eapply Qle_trans; [|exact Hq].
    apply Qle_trans with (pow2 (-17)); [apply pow2_le; lia|].
    vm_compute. discriminate. }
  pose proof (nearest_error q) as Herr. pose proof (ulp_rel q Hq') as Hulp.
  rewrite <- (rounded_eq q) in Herr.
  assert (Hy : Qabs q <= Qabs (rounded q) + ulp q / 2).
  { apply Qabs_triangle_le. rewrite Qabs_Qminus. exact Herr. }
  assert (H52 : pow2 (-52) <= 1 # 8) by (vm_compute; discriminate).
  pose proof (Qabs_nonneg q) as H0.
  assert (Hu2 : ulp q / 2 <= (1 # 16) * Qabs q).
  { apply Qle_shift_div_r; [reflexivity|].
    eapply Qle_trans; [exact Hulp|].
    apply Qle_trans with ((1 # 8) * Qabs q).
    - apply Qmult_le_compat_r; assumption.
    - lra. }
  assert (Hfin : (15 # 16) * Qabs q <= Qabs (rounded q)) by lra.
  apply (Qmult_lt_compat_r _ _ u Hu) in Hnear.
  apply (Qmult_le_compat_r _ _ u) in Hfin; [|lra].
  set (y := Qabs (rounded q)) in *. set (z := Qabs q) in *.
  setoid_replace ((15 # 16) * z * u) with ((15 # 16) * (z * u)) in Hfin by ring.
  set (zu := z * u) in *. set (yu := y * u) in *. set (tu := t * u) in *.
  clearbody zu yu tu. lra.
Qed.

Section Levels64.

Variables (a b : Q) (A B N : Z) (d : nat).
Let u : Q := inject_Z (10 ^ Z.of_nat d).
Hypothesis Ha : a * u == inject_Z A.
Hypothesis Hb : b * u == inject_Z B.
Hypothesis HA : (1 <= A)%Z.
Hypothesis HAB : (A < B)%Z.
Hypothesis HN : (2 <= N)%Z.
Hypothesis Hd : (d <= 5)%nat.
Hypothesis Hmag : (B * N <= 2 ^ 47)%Z.

(** The exact step and levels of the decimal bounds. *)
Let S : Q := (b + - a) / (inject_Z N + - inject_Z 1).
Let level (j : Z) : Q := a + inject_Z j * S.

(** The bound of one rounding error. *)
Let eta : Q := pow2 (-52) * b.

(** The minimum, the maximum, their difference, the count less one, the
    step, the offsets and the levels, as computed. *)
Local Abbreviation mn' := (rounded a).
Local Abbreviation mx' := (rounded b).
Local Abbreviation D' := (rounded (rounded b + - rounded a)).
Local Abbreviation n1 := (inject_Z (N - 1)).
Local Abbreviation s' := (rounded (D' / n1)).
Local Abbreviation p' j := (rounded (inject_Z j * s')).
Local Abbreviation L j := (rounded (rounded a + p' j)).

Lemma grid_u_pos : 0 < u.
Proof. apply u_pos. Qed.

Lemma grid_u_ge_1 : 1 <= u.
Proof.
  unfold u. change 1 with (inject_Z 1). rewrite <- Zle_Qle.
  pose proof (pow10_pos d). lia.
Qed.

Lemma grid_a_pos : 0 < a.
Proof.
  apply (Qmult_lt_r _ _ u grid_u_pos). rewrite Ha, Qmult_0_l.
  change 0 with (inject_Z 0). rewrite <- Zlt_Qlt. lia.
Qed.

Lemma grid_a_lt_b : a < b.
Proof.
  apply (Qmult_lt_r _ _ u grid_u_pos). rewrite Ha, Hb.
  rewrite <- Zlt_Qlt. exact HAB.
Qed.

Lemma grid_B_bound : (B <= 2 ^ 46)%Z.
Proof.
  assert (B * 2 <= B * N)%Z by (apply Z.mul_le_mono_nonneg_l; lia).
  change (2 ^ 47)%Z with (2 ^ 46 * 2)%Z in Hmag. lia.
Qed.

Lemma grid_N_bound : (N <= 2 ^ 46)%Z.
Proof.
  assert (2 * N <= B * N)%Z by (apply Z.mul_le_mono_nonneg_r; lia).
  change (2 ^ 47)%Z with (2 * 2 ^ 46)%Z in Hmag. lia.
Qed.

Lemma grid_n1_pos : 0 < n1.
Proof.
  change 0 with (inject_Z 0). rewrite <- Zlt_Qlt. lia.
Qed.

Lemma grid_n1_ge_1 : 1 <= n1.
Proof.
  change 1 with (inject_Z 1). rewrite <- Zle_Qle. lia.
Qed.

Lemma grid_S_spec : S * n1 == b - a.
Proof.
  unfold S. unfold Z.sub. rewrite inject_Z_plus, inject_Z_opp.
  pose proof grid_n1_pos as H. unfold Z.sub in H.
  rewrite inject_Z_plus, inject_Z_opp in H.
  field. intros E. rewrite E in H. discriminate H.
Qed.

Lemma grid_S_pos : 0 < S.
Proof.
  apply (Qmult_lt_r _ _ n1 grid_n1_pos). rewrite grid_S_spec, Qmult_0_l.
  pose proof grid_a_lt_b. lra.
Qed.

(** The exact levels lie between the bounds. *)
Lemma grid_offset_bounds j :
  (0 <= j <= N - 1)%Z -> 0 <= inject_Z j * S <= b - a.
Proof.
  intros [H0 H1]. rewrite Zle_Qle in H0, H1.
  change (inject_Z 0) with 0 in H0.
  pose proof grid_S_pos as Hs. pose proof grid_S_spec as E.
  set (q := inject_Z j) in *. clearbody q. nra.
Qed.

Lemma grid_b_le_B : b <= inject_Z B.
Proof.
  rewrite <- Hb. pose proof grid_u_ge_1. pose proof grid_a_pos.
  pose proof grid_a_lt_b. nra.
Qed.

Lemma grid_eta_pos : 0 < eta.
Proof.
  unfold eta. apply Qmult_lt_0_compat; [apply pow2_pos|].
  pose proof grid_a_pos. pose proof grid_a_lt_b. lra.
Qed.

Lemma grid_eta_spec : pow2 (-53) * (2 * b) == eta.
Proof.
  unfold eta. replace (-52)%Z with (-53 + 1)%Z by lia.
  rewrite pow2_succ. ring.
Qed.

(** In units of the last price decimal, and over all levels, the rounding
    errors stay small. *)
Lemma grid_eta_small : 32 * (eta * u * inject_Z N) <= 1.
Proof.
  unfold eta.
  assert (E : 32 * (pow2 (-52) * b * u * inject_Z N)
              == pow2 (-47) * (b * u * inject_Z N)).
  { replace (-47)%Z with (5 + -52)%Z by lia. rewrite pow2_add.
    change (pow2 5) with 32. ring. }
  rewrite E, Hb, <- inject_Z_mult.
  apply Qle_trans with (pow2 (-47) * inject_Z (2 ^ 47)).
  - apply Qmult_le_l; [apply pow2_pos|]. rewrite <- Zle_Qle. exact Hmag.
  - rewrite <- pow2_Z by lia. rewrite <- pow2_add. vm_compute. discriminate.
Qed.

Lemma grid_eta_units : 64 * (eta * u) <= 1.
Proof.
  pose proof grid_eta_small as H. pose proof grid_eta_pos as He.
  pose proof grid_u_pos as Hu.
  assert (H2 : 2 <= inject_Z N).
  { change 2 with (inject_Z 2). rewrite <- Zle_Qle. exact HN. }
  assert (0 < eta * u) by (apply Qmult_lt_0_compat; assumption).
  set (x := eta * u) in *. clearbody x.
  set (n := inject_Z N) in *. clearbody n. nra.
Qed.

Lemma grid_eta_le_a : 64 * eta <= a.
Proof.
  pose proof grid_eta_units as H. pose proof grid_u_pos as Hu.
  assert (Hau : 1 <= a * u).
  { rewrite Ha. change 1 with (inject_Z 1). rewrite <- Zle_Qle. exact HA. }
  apply (Qmult_le_r _ _ u Hu).
  set (e := eta) in *. clearbody e. nra.
Qed.

Lemma grid_eta_le_step : 64 * eta <= b - a.
Proof.
  pose proof grid_eta_units as H. pose proof grid_u_pos as Hu.
  assert (Hau : 1 <= (b - a) * u).
  { assert (E : (b - a) * u == inject_Z (B - A)).
    { unfold Z.sub. rewrite inject_Z_plus, inject_Z_opp, <- Ha, <- Hb. ring. }
    rewrite E. change 1 with (inject_Z 1). rewrite <- Zle_Qle. lia. }
  apply (Qmult_le_r _ _ u Hu).
  set (e := eta) in *. clearbody e. nra.
Qed.

Lemma grid_big : 2 * b <= pow2 1023.
Proof.
  apply Qle_trans with (inject_Z (2 ^ 47)).
  - pose proof grid_b_le_B as H. pose proof grid_B_bound as HB.
    rewrite Zle_Qle in HB.
    change (inject_Z (2 ^ 47)) with (2 * inject_Z (2 ^ 46)). lra.
  - rewrite <- pow2_Z by lia. apply pow2_le. lia.
Qed.

Lemma grid_small : pow2 (-1022) <= 2 * b / n1.
Proof.
  pose proof grid_n1_pos as Hn. pose proof grid_u_pos as Hu.
  apply Qle_shift_div_l; [exact Hn|].
  apply Qle_trans with (pow2 (-1022) * inject_Z (2 ^ 46)).
  - apply Qmult_le_l; [apply pow2_pos|]. rewrite <- Zle_Qle.
    pose proof grid_N_bound. lia.
  - apply Qle_trans with (pow2 (-17)).
    + rewrite <- pow2_Z by lia. rewrite <- pow2_add. apply pow2_le. lia.
    + apply (Qmult_le_r _ _ u Hu).
      assert (E : 2 * b * u == 2 * inject_Z B) by (rewrite <- Hb; ring).
      rewrite E.
      apply Qle_trans with (pow2 (-17) * inject_Z (2 ^ 17)).
      * apply Qmult_le_l; [apply pow2_pos|]. unfold u. rewrite <- Zle_Qle.
        apply pow10_le_pow2, Hd.
      * rewrite <- pow2_Z by lia. rewrite <- pow2_add.
        change (pow2 (-17 + 17)) with 1.
        assert (2 <= inject_Z B); [|lra].
        change 2 with (inject_Z 2). rewrite <- Zle_Qle. lia.
Qed.

Lemma grid_small_1 : pow2 (-1022) <= 2 * b.
Proof.
  eapply Qle_trans; [apply grid_small|].
  pose proof grid_n1_ge_1 as H. pose proof grid_n1_pos as Hn.
  apply Qle_shift_div_r; [exact Hn|].
  pose proof grid_a_pos. pose proof grid_a_lt_b. nra.
Qed.

(** One rounding at the scale of the maximum. *)
Lemma grid_round q x e :
  x - e <= q <= x + e -> - (2 * b) <= q <= 2 * b ->
  round64 q = Fin (rounded q)
  /\ x - (e + eta) <= rounded q <= x + (e + eta).
Proof.
  intros Hx Hq.
  destruct (rounded_near q x e (2 * b) Hx Hq grid_small_1 grid_big) as [H1 H2].
  split; [exact H1|]. rewrite grid_eta_spec in H2. exact H2.
Qed.

Lemma grid_min : round64 a = Fin mn' /\ a - eta <= mn' <= a + eta.
Proof.
  pose proof grid_a_pos. pose proof grid_a_lt_b.
  destruct (grid_round a a 0) as [R1 R2]; [lra|lra|].
  split; [exact R1|]. lra.
Qed.

Lemma grid_max : round64 b = Fin mx' /\ b - eta <= mx' <= b + eta.
Proof.
  pose proof grid_a_pos. pose proof grid_a_lt_b.
  destruct (grid_round b b 0) as [R1 R2]; [lra|lra|].
  split; [exact R1|]. lra.
Qed.

Lemma grid_min_pos : 0 < mn'.
Proof.
  pose proof grid_min as [_ H]. pose proof grid_eta_le_a.
  pose proof grid_eta_pos. lra.
Qed.

Lemma grid_difference :
  sub (Fin mx') (Fin mn') = Fin D'
  /\ b - a - 3 * eta <= D' <= b - a + 3 * eta.
Proof.
  pose proof grid_min as [_ Hm]. pose proof grid_max as [_ Hx].
  pose proof grid_a_pos. pose proof grid_a_lt_b. pose proof grid_eta_pos.
  pose proof grid_eta_le_a.
  destruct (grid_round (mx' + - mn') (b - a) (2 * eta)) as [R1 R2];
    [lra|lra|].
  split; [exact R1|]. lra.
Qed.

Lemma grid_count : sub (ofZ N) (ofZ 1) = Fin n1.
Proof.
  pose proof grid_N_bound as HB.
  rewrite (ofZ_exact N) by lia.
  rewrite (ofZ_exact 1) by (vm_compute; discriminate).
  cbn [sub neg add].
  rewrite (round64_wd _ (inject_Z (N - 1))).
  - apply round64_Z. lia.
  - unfold Z.sub. rewrite inject_Z_plus, inject_Z_opp. reflexivity.
Qed.

Lemma grid_step :
  div (sub (Fin mx') (Fin mn')) (sub (ofZ N) (ofZ 1)) = Fin s'
  /\ 0 <= s'
  /\ - (4 * eta) <= (s' - S) * n1 <= 4 * eta.
Proof.
  destruct grid_difference as [-> HD]. rewrite grid_count.
  pose proof grid_n1_pos as Hn. pose proof grid_n1_ge_1 as Hn1.
  pose proof grid_eta_pos as He. pose proof grid_eta_le_step as Hs.
  pose proof grid_a_pos. pose proof grid_a_lt_b.
  pose proof grid_S_spec as ES.
  assert (Hz : Qzero n1 = false).
  { unfold Qzero. destruct (Qeq_bool n1 0) eqn:E; [|reflexivity].
    apply Qeq_bool_iff in E. rewrite E in Hn. discriminate Hn. }
  cbn [div]. rewrite Hz.
  assert (Hne : ~ n1 == 0) by (intros E; rewrite E in Hn; discriminate Hn).
  pose proof (Qdiv_mult_cancel D' n1 Hne) as Eq.
  pose proof (Qdiv_mult_cancel (2 * b) n1 Hne) as Eb.
  pose proof (Qdiv_mult_cancel (3 * eta) n1 Hne) as Ee.
  destruct (rounded_near (D' / n1) S (3 * eta / n1) (2 * b / n1)) as [R1 R2].
  - split; apply (Qmult_le_r _ _ n1 Hn).
    + setoid_replace ((S - 3 * eta / n1) * n1) with (S * n1 - 3 * eta / n1 * n1)
        by ring.
      rewrite Eq, Ee, ES. lra.
    + setoid_replace ((S + 3 * eta / n1) * n1) with (S * n1 + 3 * eta / n1 * n1)
        by ring.
      rewrite Eq, Ee, ES. lra.
  - split; apply (Qmult_le_r _ _ n1 Hn).
    + setoid_replace (- (2 * b / n1) * n1) with (- (2 * b / n1 * n1)) by ring.
      rewrite Eq, Eb. lra.
    + rewrite Eq, Eb. lra.
  - apply grid_small.
  - eapply Qle_trans; [|apply grid_big].
    apply Qle_shift_div_r; [exact Hn|]. nra.
  - split; [exact R1|]. split.
    + apply rounded_nonneg. apply Qle_shift_div_l; [exact Hn|]. lra.
    + assert (Ep : pow2 (-53) * (2 * b / n1) * n1 == eta).
      { rewrite <- grid_eta_spec.
        rewrite <- (Qdiv_mult_cancel (2 * b) n1 Hne) at 2. ring. }
      exact (step_error s' S n1 _ _ eta Hn Ee Ep R2).
Qed.

Lemma grid_offset j :
  (0 <= j <= N - 1)%Z ->
  mul (ofZ j) (Fin s') = Fin (p' j)
  /\ 0 <= p' j
  /\ inject_Z j * S - 5 * eta <= p' j <= inject_Z j * S + 5 * eta.
Proof.
  intros Hj. pose proof grid_N_bound as HB.
  rewrite (ofZ_exact j) by lia. cbn [mul].
  destruct grid_step as (_ & Hs0 & Hs).
  pose proof (grid_offset_bounds j Hj) as Ho.
  pose proof grid_eta_pos as He. pose proof grid_eta_le_a.
  pose proof grid_a_pos. pose proof grid_a_lt_b.
  pose proof grid_n1_pos as Hn.
  assert (Hq : 0 <= inject_Z j <= n1).
  { change 0 with (inject_Z 0). rewrite <- !Zle_Qle. lia. }
  assert (Hd' : - (4 * eta) <= inject_Z j * s' - inject_Z j * S <= 4 * eta).
  { set (q := inject_Z j) in *. clearbody q.
    set (t := s' - S) in *.
    assert (E : q * s' - q * S == q * t) by (unfold t; ring).
    rewrite E. clearbody t. clear E.
    assert (Ht : 0 <= t \/ t <= 0) by (destruct (Qlt_le_dec t 0); [right|left]; lra).
    destruct Ht; nra. }
  destruct (grid_round (inject_Z j * s') (inject_Z j * S) (4 * eta))
    as [R1 R2]; [lra|lra|].
  split; [exact R1|]. split.
  - apply rounded_nonneg. apply Qmult_le_0_compat; lra.
  - lra.
Qed.

Lemma grid_level j :
  (0 <= j <= N - 1)%Z ->
  priceLevel (Fin mn') (Fin s') j = Fin (L j)
  /\ level j - 7 * eta <= L j <= level j + 7 * eta.
Proof.
  intros Hj. unfold priceLevel.
  destruct (grid_offset j Hj) as (-> & Hp0 & Hp). cbn [add].
  pose proof grid_min as [_ Hm].
  pose proof (grid_offset_bounds j Hj) as Ho.
  pose proof grid_eta_pos as He. pose proof grid_eta_le_a.
  pose proof grid_a_pos. pose proof grid_a_lt_b.
  destruct (grid_round (mn' + p' j) (level j) (6 * eta)) as [R1 R2].
  - unfold level. lra.
  - lra.
  - split; [exact R1|]. lra.
Qed.

(** The computed levels do not decrease, and start at the minimum. *)
Lemma grid_level_mono j j' :
  (0 <= j <= j')%Z -> L j <= L j'.
Proof.
  intros Hj. destruct grid_step as (_ & Hs0 & _).
  pose proof grid_min_pos as Hm.
  assert (Hq : 0 <= inject_Z j <= inject_Z j').
  { change 0 with (inject_Z 0). rewrite <- !Zle_Qle. lia. }
  assert (Hp : p' j <= p' j').
  { apply rounded_mono; [apply Qmult_le_0_compat; lra|].
    apply Qmult_le_compat_r; lra. }
  assert (Hp0 : 0 <= p' j).
  { apply rounded_nonneg. apply Qmult_le_0_compat; lra. }
  apply rounded_mono; lra.
Qed.

Lemma grid_level_ge_min j : (0 <= j)%Z -> mn' <= L j.
Proof.
  intros Hj. destruct grid_step as (_ & Hs0 & _).
  pose proof grid_min_pos as Hm.
  assert (Hq : 0 <= inject_Z j).
  { change 0 with (inject_Z 0). rewrite <- !Zle_Qle. lia. }
  assert (Hp0 : 0 <= p' j).
  { apply rounded_nonneg. apply Qmult_le_0_compat; lra. }
  assert (E : mn' = rounded mn').
  { pose proof grid_min as [H _].
    apply round64_idem in H. apply round64_rounded in H. exact H. }
  rewrite E at 1. apply rounded_mono; lra.
Qed.

(** *** The prices of the orders *)

Variable bigToString : Q -> string.
Variables (symbol qty : string) (ref : number) (rules : SymbolRules).
Hypothesis Hrules : priceDecimals rules = d.

Local Abbreviation order :=
  (gridOrder bigToString symbol rules (Fin mn') (Fin s') ref qty).

(** The price of level [j], in units of the last price decimal. *)
Local Abbreviation units j := (roundHalfUp (L j * u)).

Lemma grid_level_exact_bounds j :
  (0 <= j <= N - 1)%Z -> a <= level j <= b.
Proof.
  intros Hj. pose proof (grid_offset_bounds j Hj). unfold level. lra.
Qed.

Lemma grid_level_plain j :
  (0 <= j <= N - 1)%Z -> 0 <= L j /\ L j < inject_Z (10 ^ 21).
Proof.
  intros Hj. destruct (grid_level j Hj) as [_ [_ Hh]].
  pose proof (grid_level_ge_min j ltac:(lia)) as Hl.
  pose proof grid_min_pos as Hm.
  pose proof (grid_level_exact_bounds j Hj) as [_ Hb'].
  pose proof grid_eta_pos. pose proof grid_eta_le_a. pose proof grid_a_pos.
  pose proof grid_a_lt_b.
  pose proof grid_b_le_B as HbB. pose proof grid_B_bound as HB.
  rewrite Zle_Qle in HB.
  assert (E : inject_Z (2 ^ 46) * 2 < inject_Z (10 ^ 21)).
  { vm_compute. reflexivity. }
  split; [lra|].
  set (c1 := inject_Z (2 ^ 46)) in *. set (c2 := inject_Z (10 ^ 21)) in *.
  clearbody c1 c2. lra.
Qed.

Lemma grid_level_units j :
  (0 <= j <= N - 1)%Z ->
  level j * u - (1 # 8) <= L j * u <= level j * u + (1 # 8).
Proof.
  intros Hj. destruct (grid_level j Hj) as [_ [Hl Hh]].
  pose proof grid_eta_units as He. pose proof grid_u_pos as Hu.
  pose proof grid_eta_pos as Hp.
  assert (E : 0 < eta * u) by (apply Qmult_lt_0_compat; assumption).
  split.
  - apply (Qmult_le_compat_r _ _ u) in Hl; [|lra].
    setoid_replace ((level j - 7 * eta) * u) with (level j * u - 7 * (eta * u))
      in Hl by ring.
    lra.
  - apply (Qmult_le_compat_r _ _ u) in Hh; [|lra].
    setoid_replace ((level j + 7 * eta) * u) with (level j * u + 7 * (eta * u))
      in Hh by ring.
    lra.
Qed.

Lemma grid_level_units_fine j :
  (0 <= j <= N - 1)%Z ->
  level j * u - 7 * (eta * u) <= L j * u <= level j * u + 7 * (eta * u).
Proof.
  intros Hj. destruct (grid_level j Hj) as [_ [Hl Hh]].
  pose proof grid_u_pos as Hu.
  split.
  - apply (Qmult_le_compat_r _ _ u) in Hl; [|lra].
    setoid_replace ((level j - 7 * eta) * u) with (level j * u - 7 * (eta * u))
      in Hl by ring.
    exact Hl.
  - apply (Qmult_le_compat_r _ _ u) in Hh; [|lra].
    setoid_replace ((level j + 7 * eta) * u) with (level j * u + 7 * (eta * u))
      in Hh by ring.
    exact Hh.
Qed.

Lemma grid_units_bounds j :
  (0 <= j <= N - 1)%Z -> (A <= units j <= B)%Z.
Proof.
  intros Hj. pose proof (grid_level_units j Hj) as [Hl Hh].
  pose proof (grid_level_exact_bounds j Hj) as [Ea Eb].
  pose proof grid_u_pos as Hu.
  apply (Qmult_le_compat_r _ _ u) in Ea, Eb; try lra.
  rewrite Ha in Ea. rewrite Hb in Eb.
  destruct (roundHalfUp_near (L j * u)) as [Nh Nl].
  set (n := roundHalfUp (L j * u)) in *. clearbody n.
  assert (H1 : inject_Z A - 1 < inject_Z n) by lra.
  assert (H2 : inject_Z n < inject_Z B + 1) by lra.
  apply integer_above in H1. apply integer_below in H2. lia.
Qed.


Lemma grid_step_units : S * u * n1 == inject_Z (B - A).
Proof.
  assert (E : inject_Z (B - A) == b * u - a * u).
  { unfold Z.sub. rewrite inject_Z_plus, inject_Z_opp, <- Ha, <- Hb. ring. }
  rewrite E.
  setoid_replace (S * u * n1) with (S * n1 * u) by ring.
  rewrite grid_S_spec. ring.
Qed.

Lemma grid_level_gap j j' :
  (j < j')%Z -> S * u <= level j' * u - level j * u.
Proof.
  intros Hj. unfold level.
  assert (E : (a + inject_Z j' * S) * u - (a + inject_Z j * S) * u
              == (inject_Z j' - inject_Z j) * (S * u)) by ring.
  rewrite E.
  assert (H1 : 1 <= inject_Z j' - inject_Z j).
  { assert (H : (j + 1 <= j')%Z) by lia. rewrite Zle_Qle in H.
    rewrite inject_Z_plus in H. change (inject_Z 1) with 1 in H. lra. }
  assert (H2 : 0 < S * u).
  { apply Qmult_lt_0_compat; [apply grid_S_pos|apply grid_u_pos]. }
  set (x := S * u) in *. clearbody x.
  set (y := inject_Z j' - inject_Z j) in *. clearbody y. nra.
Qed.


(** The price of the order of level [j]: the text that [toFixed] prints is
    read as a multiple of the unit between the bounds, and as a number it
    is the rounding of that multiple. *)
Lemma grid_price j :
  (0 <= j <= N - 1)%Z ->
  exists p,
    price (order j) = Some (toFixed bigToString (Fin (L j)) d)
    /\ readLiteral (toFixed bigToString (Fin (L j)) d) = DecimalLiteral p
    /\ p * u == inject_Z (units j)
    /\ a <= p <= b
    /\ priceOf (order j) = Fin (rounded p)
    /\ p - eta <= rounded p <= p + eta.
Proof.
  intros Hj.
  destruct (grid_level_plain j Hj) as [H0 H21].
  destruct (toFixed_reads_back bigToString (L j) d H0 H21) as (p & Hp & Hv).
  destruct (toFixed_plain bigToString (L j) d H0 H21) as (_ & _ & Ht).
  destruct (grid_units_bounds j Hj) as [Ul Uh].
  pose proof grid_u_pos as Hu.
  assert (Hr : a <= p <= b).
  { rewrite Zle_Qle in Ul, Uh. fold u in Hv. rewrite <- Hv in Ul, Uh.
    rewrite <- Ha in Ul. rewrite <- Hb in Uh.
    split; apply (Qmult_le_r _ _ u Hu); assumption. }
  pose proof grid_a_pos. pose proof grid_a_lt_b.
  destruct (grid_round p p 0) as [R1 R2]; [lra|lra|].
  assert (Hprice : price (order j)
                   = Some (toFixed bigToString (Fin (L j)) d)).
  { unfold gridOrder. cbn [price].
    destruct (grid_level j Hj) as [-> _]. rewrite Hrules. reflexivity. }
  exists p. split; [exact Hprice|]. split; [exact Hp|].
  split; [exact Hv|]. split; [exact Hr|]. split; [|lra].
  unfold priceOf. rewrite Hprice. cbn [orElse]. rewrite Ht.
  rewrite (parseFloat_literal _ _ Hp). exact R1.
Qed.




(** The side of an order follows the computed level. *)
Lemma grid_side j :
  (0 <= j <= N - 1)%Z ->
  side (order j) = if lt (Fin (L j)) ref then BUY else SELL.
Proof.
  intros Hj. unfold gridOrder. cbn [side].
  destruct (grid_level j Hj) as [-> _]. reflexivity.
Qed.

(** *** The sides and the skipped levels *)

Lemma grid_near j :
  (0 <= j <= N - 1)%Z ->
  nearReference rules (Fin mn') (Fin s') ref j
  = lt (abs (sub (Fin (L j)) ref)) (priceUnit rules).
Proof.
  intros Hj. unfold nearReference.
  destruct (grid_level j Hj) as [-> _]. reflexivity.
Qed.

(** The price of a kept level is on the side of the reference that the
    order has. *)
Lemma grid_kept_side j r :
  (0 <= j <= N - 1)%Z -> ref = Fin r ->
  nearReference rules (Fin mn') (Fin s') ref j = false ->
  match side (order j) with
  | BUY => lt (priceOf (order j)) (Fin r) = true
  | SELL => lt (Fin r) (priceOf (order j)) = true
  end.
Proof.
  intros Hj Href Hkeep. rewrite (grid_near j Hj) in Hkeep.
  rewrite (grid_side j Hj).
  destruct (grid_price j Hj) as (p & _ & _ & Hv & _ & -> & He).
  rewrite Href in *.
  assert (Hd' : (priceDecimals rules <= 5)%nat) by (rewrite Hrules; exact Hd).
  pose proof (kept_level_far rules (L j) r Hd' Hkeep) as Hfar.
  cbv zeta in Hfar. rewrite Hrules in Hfar. fold u in Hfar.
  pose proof grid_u_pos as Hu. pose proof grid_eta_units as Hs.
  pose proof grid_eta_pos as Hp.
  assert (E0 : 0 < eta * u) by (apply Qmult_lt_0_compat; assumption).
  destruct (roundHalfUp_near (L j * u)) as [Nh Nl]. rewrite <- Hv in Nh, Nl.
  destruct He as [Hel Heh].
  apply (Qmult_le_compat_r _ _ u) in Hel; [|lra].
  apply (Qmult_le_compat_r _ _ u) in Heh; [|lra].
  setoid_replace ((p - eta) * u) with (p * u - eta * u) in Hel by ring.
  setoid_replace ((p + eta) * u) with (p * u + eta * u) in Heh by ring.
  rewrite (Qabs_scale _ u Hu) in Hfar.
  setoid_replace ((L j - r) * u) with (L j * u - r * u) in Hfar by ring.
  cbn [lt]. destruct (Qltb (L j) r) eqn:E.
  - apply Qltb_lt in E. apply Qltb_lt. apply (Qmult_lt_r _ _ u Hu).
    apply (Qmult_lt_compat_r _ _ u Hu) in E.
    rewrite Qabs_neg in Hfar by lra. lra.
  - assert (E' : r <= L j).
    { apply Qnot_lt_le. intros C. apply Qltb_lt in C. congruence. }
    apply Qltb_lt. apply (Qmult_lt_r _ _ u Hu).
    apply (Qmult_le_compat_r _ _ u) in E'; [|lra].
    rewrite Qabs_pos in Hfar by lra. lra.
Qed.

(** No level at or above the reference is followed by one below it. *)
Lemma grid_sides_sorted j j' :
  (0 <= j <= j')%Z -> (j' <= N - 1)%Z ->
  side (order j) = SELL -> side (order j') = SELL.
Proof.
  intros Hj Hj'. rewrite (grid_side j), (grid_side j') by lia.
  pose proof (grid_level_mono j j' Hj) as Hm.
  destruct ref as [|n|r]; cbn [lt].
  - reflexivity.
  - destruct n; cbn [negb]; intros H; [reflexivity|discriminate H].
  - destruct (Qltb (L j) r) eqn:E; [discriminate|]. intros _.
    destruct (Qltb (L j') r) eqn:E'; [|reflexivity].
    exfalso. apply Qltb_lt in E'.
    assert (C : L j < r) by lra. apply Qltb_lt in C. congruence.
Qed.

(** When the step is at least three units, two levels are not both near
    the reference. *)
Lemma grid_near_once j j' :
  (3 * (N - 1) <= B - A)%Z -> (0 <= j < j')%Z -> (j' <= N - 1)%Z ->
  nearReference rules (Fin mn') (Fin s') ref j = true ->
  nearReference rules (Fin mn') (Fin s') ref j' = true -> False.
Proof.
  intros Hstep Hj Hj' Hx Hy.
  rewrite grid_near in Hx, Hy by lia.
  assert (Hd' : (priceDecimals rules <= 5)%nat) by (rewrite Hrules; exact Hd).
  destruct (skipped_level_near rules _ ref Hd' Hx) as (r & Hr & Nx).
  destruct (skipped_level_near rules _ ref Hd' Hy) as (r' & Hr' & Ny).
  rewrite Hr in Hr'. injection Hr' as <-.
  cbv zeta in Nx, Ny. rewrite Hrules in Nx, Ny. fold u in Nx, Ny.
  pose proof grid_u_pos as Hu. pose proof grid_eta_units as Hs.
  pose proof grid_eta_pos as Hp.
  assert (E0 : 0 < eta * u) by (apply Qmult_lt_0_compat; assumption).
  rewrite (Qabs_scale _ u Hu) in Nx. rewrite (Qabs_scale _ u Hu) in Ny.
  setoid_replace ((L j - r) * u) with (L j * u - r * u) in Nx by ring.
  setoid_replace ((L j' - r) * u) with (L j' * u - r * u) in Ny by ring.
  apply Qabs_Qlt_condition in Nx, Ny.
  pose proof (grid_level_units_fine j ltac:(lia)) as [_ Fh].
  pose proof (grid_level_units_fine j' ltac:(lia)) as [Fl' _].
  pose proof (grid_level_gap j j' ltac:(lia)) as Hgap.
  pose proof grid_step_units as Es. pose proof grid_n1_pos as Hn.
  assert (Hbig : 3 * n1 <= S * u * n1).
  { rewrite Es. change 3 with (inject_Z 3).
    rewrite <- inject_Z_mult, <- Zle_Qle. exact Hstep. }
  assert (H3 : 3 <= S * u).
  { apply (Qmult_le_r _ _ n1 Hn). exact Hbig. }
  lra.
Qed.

(** The orders pass the validator of single orders when their quantity
    does. *)
Lemma grid_order_valid j :
  (0 <= j <= N - 1)%Z ->
  getSymbolRules symbol = rules ->
  negb (truthy qty) || isNaN (parseFloat qty) = false ->
  lt (parseFloat qty) (ofDecimal (minQty rules)) = false ->
  (qtyDecimals rules <? countDecimals qty)%nat = false ->
  validateOrderInput (order j) = None.
Proof.
  intros Hj Hsym Hq1 Hq2 Hq3.
  destruct (grid_price j Hj) as (p & Hprice & Hp & _ & Hr & Hpo & He).
  destruct (grid_level_plain j Hj) as [H0 H21].
  destruct (toFixed_plain bigToString (L j) d H0 H21) as (_ & Hc & Ht).
  pose proof grid_a_pos as Ha0. pose proof grid_eta_le_a as Hea.
  pose proof grid_eta_pos as Hep.
  set (text := toFixed bigToString (Fin (L j)) d) in *. clearbody text.
  assert (Hpf : parseFloat text = Fin (rounded p)).
  { unfold priceOf in Hpo. rewrite Hprice in Hpo. cbn [orElse] in Hpo.
    rewrite Ht in Hpo. exact Hpo. }
  unfold validateOrderInput.
  change (Types.symbol (order j)) with symbol.
  change (Types.quantity (order j)) with qty.
  rewrite Hsym, Hq1, Hq2, Hq3.
  unfold validatePrice, validateStopPrice.
  change (type (order j)) with LIMIT. rewrite Hprice.
  cbn [missingOrNaN orElse]. rewrite Ht, Hpf. cbn [negb orb isNaN].
  rewrite ofZ_0. cbn [le].
  assert (Hpos : Qle_bool (rounded p) 0 = false).
  { apply Qle_bool_false. lra. }
  rewrite Hpos, Hrules.
  rewrite (proj2 (Nat.ltb_ge _ _)) by (rewrite Hc; apply Nat.le_refl).
  reflexivity.
Qed.

End Levels64.

(** ** The grid generator on accepted decimal bounds *)

Lemma priceDecimals_le_5 symbol :
  (priceDecimals (getSymbolRules symbol) <= 5)%nat.
Proof.
  unfold getSymbolRules.
  set (k := toUpperCase symbol). clearbody k.
  unfold TRADING_RULES. cbn [lookup].
  repeat match goal with
         | |- context [String.eqb k ?x] => destruct (String.eqb k x)
         end; cbn; lia.
Qed.

(** What a generated grid is, for a count that reads as [N]: the orders of
    the levels 0 to N - 1 that are not near the reference. *)
Lemma generateGrid_orders big symbol minPrice maxPrice gridCount refPrice
    quantity orders N :
  generateGrid big symbol minPrice maxPrice gridCount refPrice quantity
  = Submitted orders ->
  parseInt gridCount = Some N ->
  let rules := getSymbolRules symbol in
  let min := parseFloat minPrice in
  let step := div (sub (parseFloat maxPrice) min) (sub (ofZ N) (ofZ 1)) in
  let ref := parseFloat refPrice in
  validateGridInput symbol minPrice maxPrice quantity = None
  /\ (2 <= N)%Z
  /\ orders
     = map (gridOrder big symbol rules min step ref quantity)
         (filter (fun j => negb (nearReference rules min step ref j))
            (indices (Z.to_nat N) 0)).
Proof.
  intros Hgen Hcount rules min step ref.
  unfold generateGrid in Hgen.
  destruct (validateGridInput symbol minPrice maxPrice quantity) eqn:Hval;
    [discriminate|].
  split; [reflexivity|].
  rewrite Hcount in Hgen. cbn [ofInt iterations] in Hgen.
  destruct (lt (ofZ N) (ofZ 2)) eqn:HN2; [discriminate|].
  assert (HN : (2 <= N)%Z).
  { destruct (Z_lt_le_dec N 2) as [C|C]; [|exact C].
    rewrite (count_below_2 N C) in HN2. discriminate HN2. }
  split; [exact HN|].
  injection Hgen as <-. apply gridLoop_filter.
Qed.

(** The bounds of an accepted grid input that read as multiples of the
    price unit, in units. *)
Lemma accepted_grid_bounds symbol minPrice maxPrice quantity a b N :
  validateGridInput symbol minPrice maxPrice quantity = None ->
  readLiteral minPrice = DecimalLiteral a ->
  readLiteral maxPrice = DecimalLiteral b ->
  let d := priceDecimals (getSymbolRules symbol) in
  let u := inject_Z (10 ^ Z.of_nat d) in
  onGrid d a -> onGrid d b ->
  b * u * inject_Z N <= inject_Z (2 ^ 47) ->
  exists A B,
    a * u == inject_Z A /\ b * u == inject_Z B
    /\ (1 <= A)%Z /\ (A < B)%Z /\ (B * N <= 2 ^ 47)%Z.
Proof.
  intros Hval Hmin Hmax d u [A HA] [B HB] Hmag.
  apply validateGridInput_accepts in Hval as (Hge & Hle & _ & _).
  rewrite (parseFloat_literal _ _ Hmin) in Hge, Hle.
  rewrite (parseFloat_literal _ _ Hmax) in Hge.
  pose proof (round64_positive a Hle) as Ha0.
  assert (Hab : a < b).
  { apply round64_less; [lra|]. exact Hge. }
  pose proof (u_pos d) as Hu. fold u in Hu. fold u in HA, HB.
  exists A, B. split; [exact HA|]. split; [exact HB|].
  assert (HA1 : (0 < A)%Z).
  { rewrite Zlt_Qlt, <- HA. change (inject_Z 0) with 0.
    apply Qmult_lt_0_compat; assumption. }
  assert (HAB : (A < B)%Z).
  { rewrite Zlt_Qlt, <- HA, <- HB. apply Qmult_lt_r; assumption. }
  split; [lia|]. split; [exact HAB|].
  rewrite Zle_Qle, inject_Z_mult, <- HB. exact Hmag.
Qed.


Transparent rounded.



(** An accepted input in exponent notation need not be a multiple of the
    price unit: with minPrice 1e-7 and maxPrice 2e-7 both orders are priced
    0.0, below minPrice. *)
Lemma generateGrid_exponent_input_leaves_range :
  validateGridInput "BTCUSDT" "1e-7" "2e-7" "0.001" = None
  /\ generateGrid noBigNumbers "BTCUSDT" "1e-7" "2e-7" "2" "95000" "0.001"
     = Submitted [ limitOrder "BTCUSDT" BUY "0.001" "0.0";
                   limitOrder "BTCUSDT" BUY "0.001" "0.0" ]
  /\ ~ pricesInRange (parseFloat "1e-7") (parseFloat "2e-7")
         [ limitOrder "BTCUSDT" BUY "0.001" "0.0";
           limitOrder "BTCUSDT" BUY "0.001" "0.0" ].
Proof.
  split; [vm_compute; reflexivity|].
  split; [vm_compute; reflexivity|].
  intros Hr. apply Forall_inv in Hr as [Hr _].
  vm_compute in Hr. discriminate Hr.
Qed.

(** ** Rounding at work *)

(** What the numbers of the format make of some texts: 0.1 is read as
    3602879701896397 / 2^55, the sum of 0.1 and 0.2 is not what 0.3 is read
    as, twenty-one nines are read as 10^21, 9.99999999999999999999 as 10,
    and 1e400 as Infinity. *)
Lemma parseFloat_rounds :
  parseFloat "0.1" = Fin (3602879701896397 # 36028797018963968)
  /\ eq (add (parseFloat "0.1") (parseFloat "0.2")) (parseFloat "0.3") = false
  /\ parseFloat "999999999999999999999" = Fin (inject_Z (10 ^ 21))
  /\ parseFloat "9.99999999999999999999" = Fin 10
  /\ parseFloat "1e400" = Infinity false.
Proof. repeat split; vm_compute; reflexivity. Qed.

(** Grids on BTCUSDT, with one price decimal, outside the hypotheses of the
    properties of the levels.  From 0.4 to 0.6 in 2 levels around 0.5, a
    step of two price units, both levels are computed less than 0.1 away
    from the reference and no order is left; from 0.2 to 0.4 around 0.3,
    one is.  From 0.1 to 0.6 in 3 levels the middle level 0.35 is a number
    below 0.35, priced 0.3.  From 10^17 to 10^17 + 16 in 17 levels, where
    the numbers of the format are 16 apart, the levels a step of 1 apart
    are two numbers only. *)
Lemma generateGrid_rounds :
  generateGrid noBigNumbers "BTCUSDT" "0.4" "0.6" "2" "0.5" "0.001"
  = Submitted []
  /\ generateGrid noBigNumbers "BTCUSDT" "0.2" "0.4" "2" "0.3" "0.001"
     = Submitted [ limitOrder "BTCUSDT" SELL "0.001" "0.4" ]
  /\ generateGrid noBigNumbers "BTCUSDT" "0.1" "0.6" "3" "95000" "0.001"
     = Submitted [ limitOrder "BTCUSDT" BUY "0.001" "0.1";
                   limitOrder "BTCUSDT" BUY "0.001" "0.3";
                   limitOrder "BTCUSDT" BUY "0.001" "0.6" ]
  /\ generateGrid noBigNumbers "BTCUSDT" "100000000000000000"
       "100000000000000016" "17" "95000" "0.001"
     = Submitted
         (repeat (limitOrder "BTCUSDT" SELL "0.001" "100000000000000000.0") 9
          ++ repeat (limitOrder "BTCUSDT" SELL "0.001" "100000000000000016.0")
               8).
Proof. repeat split; vm_compute; reflexivity. Qed.

(** From 123456789 to twenty-one nines in 14 levels, an accepted input, the
    maximum is read as 10^21 and the last level is computed as
    10^21 + 131072, above it; [toFixed] hands it over to
    [Number::toString], and the text of that number,
    1.0000000000000001e+21, does not pass the validator of single
    orders. *)
Lemma generateGrid_level_above_maximum :
  let min := parseFloat "123456789" in
  let max := parseFloat "999999999999999999999" in
  let step := div (sub max min) (sub (ofZ 14) (ofZ 1)) in
  validateGridInput "BTCUSDT" "123456789" "999999999999999999999" "0.001"
  = None
  /\ max = Fin (inject_Z (10 ^ 21))
  /\ priceLevel min step 13 = Fin (inject_Z (10 ^ 21 + 131072))
  /\ (forall bigToString,
        toFixed bigToString (priceLevel min step 13) 1
        = bigToString (inject_Z (10 ^ 21 + 131072)))
  /\ parseFloat "1.0000000000000001e+21" = Fin (inject_Z (10 ^ 21 + 131072))
  /\ validateOrderInput
       (limitOrder "BTCUSDT" SELL "0.001" "1.0000000000000001e+21")
     = Some (PricePrecisionTooHigh 1).
Proof.
  cbv zeta.
  assert (E : priceLevel (parseFloat "123456789")
                (div (sub (parseFloat "999999999999999999999")
                        (parseFloat "123456789"))
                   (sub (ofZ 14) (ofZ 1))) 13
              = Fin (inject_Z (10 ^ 21 + 131072))).
  { vm_compute. reflexivity. }
  split; [vm_compute; reflexivity|].
  split; [vm_compute; reflexivity|].
  split; [exact E|].
  split; [intros big; rewrite E; reflexivity|].
  split; vm_compute; reflexivity.
Qed.

(** ** The order executor *)

Lemma truthy_false s : truthy s = false <-> s = "".
Proof. destruct s; simpl; split; congruence. Qed.

Lemma noCredentials_iff creds :
  noCredentials creds = true <-> apiKey creds = "" \/ apiSecret creds = "".
Proof.
  unfold noCredentials.
  rewrite orb_true_iff, !negb_true_iff, !truthy_false. reflexivity.
Qed.

(** C7.  In live mode with an empty API key or an empty API secret,
    [placeOrder] and [cancelOrder] reject with 'API Credentials missing'
    having signed nothing and issued no request, and leave the world as it
    was; in simulated mode both resolve, without signing or issuing a
    request, and what they do is the same whatever the credentials are. *)
Theorem missing_credentials_fail_before_any_request :
  forall env order symbol orderId creds w,
    apiKey creds = "" \/ apiSecret creds = "" ->
    placeOrder env false order creds w
      = (Throw ApiCredentialsMissing, w, [CallPlaceOrder false order])
    /\ cancelOrder env false symbol orderId creds w
      = (Throw ApiCredentialsMissing, w, [CallCancelOrder false symbol orderId])
    /\ (exists r w' t,
          placeOrder env true order creds w = (Ok r, w', t)
          /\ filter isRequest t = []
          /\ forall creds',
               placeOrder env true order creds' w
               = placeOrder env true order creds w)
    /\ (exists r w' t,
          cancelOrder env true symbol orderId creds w = (Ok r, w', t)
          /\ filter isRequest t = []
          /\ forall creds',
               cancelOrder env true symbol orderId creds' w
               = cancelOrder env true symbol orderId creds w).
Proof.
  intros env order symbol orderId creds w H.
  apply noCredentials_iff in H. unfold noCredentials in H.
  repeat split.
  - unfold placeOrder, realPlaceOrder, bind, emit. simpl. rewrite H. reflexivity.
  - unfold cancelOrder, realCancelOrder, bind, emit. simpl. rewrite H. reflexivity.
  - unfold placeOrder, mockPlaceOrder, bind, emit, sleep, random, now, ret.
    simpl. eexists _, _, _. repeat split; reflexivity.
  - unfold cancelOrder, mockCancelOrder, bind, emit, sleep, random, now, ret.
    simpl. destruct (isNumericId orderId); simpl;
      eexists _, _, _; repeat split; reflexivity.
Qed.

(** A live MARKET order with an API key and no secret. *)
Lemma missing_credentials_example :
  placeOrder {| hmac := fun _ _ => "00"; network := fun _ _ => Rejected;
                randomValue := fun _ => 0 |}
    false (marketOrder "btcusdt" BUY "0.001" None None None)
    {| apiKey := "key"; apiSecret := "" |}
    {| clock := 0; calls := 0; draws := 0 |}
  = (Throw ApiCredentialsMissing, {| clock := 0; calls := 0; draws := 0 |},
     [CallPlaceOrder false (marketOrder "btcusdt" BUY "0.001" None None None)]).
Proof.
  apply (missing_credentials_fail_before_any_request
           {| hmac := fun _ _ => "00"; network := fun _ _ => Rejected;
              randomValue := fun _ => 0 |}
           (marketOrder "btcusdt" BUY "0.001" None None None) "" ""
           {| apiKey := "key"; apiSecret := "" |}
           {| clock := 0; calls := 0; draws := 0 |}).
  right. reflexivity.
Defined.

(** C8.  In simulated mode [placeOrder] resolves for every order, 800 ms
    later, with status "NEW", executed quantity "0", the order id
    [floor(Math.random() * 1000000000)], the client order id "web_"
    followed by the time of resolution, and the request's symbol in upper
    case; it never rejects. *)
Theorem mock_placeOrder_always_resolves :
  forall env order creds w,
    exists r,
      placeOrder env true order creds w
      = (Ok r,
         {| clock := clock w + 800; calls := calls w; draws := S (draws w) |},
         [CallPlaceOrder true order; Sleep 800])
      /\ status r = "NEW"
      /\ executedQty r = "0"
      /\ orderId r = Qfloor (randomValue env (draws w) * inject_Z 1000000000)
      /\ clientOrderId r = "web_" ++ intToString (clock w + 800)
      /\ r_symbol r = toUpperCase (symbol order).
Proof.
  intros. eexists. split; [reflexivity|]. simpl. repeat split.
Qed.

(** What [signedRequest] emits: one signature, then one request. *)
Lemma signedRequest_events env httpMethod creds params w :
  let message := toQueryString params in
  snd (signedRequest env httpMethod creds params w)
  = [Sign (apiSecret creds) message;
     Fetch {| method := httpMethod;
              url := BASE_URL ++ "/fapi/v1/order" ++ "?" ++ message
                     ++ "&signature=" ++ hmac env (apiSecret creds) message;
              apiKeyHeader := apiKey creds |}].
Proof.
  intros message.
  unfold signedRequest, bind, hmacSha256, emit, ret, fetchJson.
  cbn -[append BASE_URL toQueryString]. fold message.
  match goal with
  | |- context [network env (calls w) ?req] =>
      destruct (network env (calls w) req) as [|elapsed r]
  end; [reflexivity|].
  destruct (json r) as [d|]; [|reflexivity].
  cbn -[append BASE_URL toQueryString].
  destruct (negb (ok r)); reflexivity.
Qed.

Lemma bind_events {A B} (c : M A) (k : A -> M B) w :
  snd (bind c k w)
  = match c w with
    | (Ok a, w1, t1) => (t1 ++ snd (k a w1))%list
    | (Throw _, _, t1) => t1
    end.
Proof.
  unfold bind. destruct (c w) as [[[a|e] w1] t1]; [|reflexivity].
  destruct (k a w1) as [[r w2] t2]. reflexivity.
Qed.

(** The query string of the parameters [orderParams] assembles. *)
Lemma orderParams_ok order timestamp w params w' t :
  orderParams order timestamp w = (Ok params, w', t) ->
  w' = w /\ t = [] /\ toQueryString params = specMessage order timestamp.
Proof.
  unfold orderParams, specMessage, toQueryString.
  destruct order as [sy sd ty q p sp tif].
  cbn -[append toUpperCase intToString].
  destruct ty.
  - intros [= <- <- <-]. repeat split.
  - destruct (truthyOpt p); cbn -[append toUpperCase intToString];
      [|discriminate].
    intros [= <- <- <-]. repeat split.
  - destruct (truthyOpt p); cbn -[append toUpperCase intToString];
      [|discriminate].
    destruct (truthyOpt sp); cbn -[append toUpperCase intToString];
      [|discriminate].
    intros [= <- <- <-]. repeat split.
Qed.

Lemma orderParams_throw order timestamp w :
  match type order with
  | MARKET => true
  | LIMIT => truthyOpt (price order)
  | STOP_LIMIT => truthyOpt (price order) && truthyOpt (stopPrice order)
  end = false ->
  exists e, orderParams order timestamp w = (Throw e, w, []).
Proof.
  unfold orderParams. destruct (type order); simpl.
  - discriminate.
  - intros ->. eexists; reflexivity.
  - destruct (truthyOpt (price order)); simpl.
    + intros ->. eexists; reflexivity.
    + intros _. eexists; reflexivity.
Qed.

Lemma orderParams_total order timestamp w :
  match type order with
  | MARKET => true
  | LIMIT => truthyOpt (price order)
  | STOP_LIMIT => truthyOpt (price order) && truthyOpt (stopPrice order)
  end = true ->
  exists params, orderParams order timestamp w = (Ok params, w, []).
Proof.
  unfold orderParams. destruct (type order); simpl.
  - intros _. eexists; reflexivity.
  - intros ->. eexists; reflexivity.
  - intros [-> ->]%andb_true_iff. eexists; reflexivity.
Qed.

(** What a live submission emits after the entry marker. *)
Lemma realPlaceOrder_events env order creds w :
  let message := specMessage order (clock w) in
  snd (realPlaceOrder env order creds w)
  = if reachesSigning order creds
    then [Sign (apiSecret creds) message;
          Fetch {| method := "POST";
                   url := BASE_URL ++ "/fapi/v1/order" ++ "?" ++ message
                          ++ "&signature="
                          ++ hmac env (apiSecret creds) message;
                   apiKeyHeader := apiKey creds |}]
    else [].
Proof.
  intros message.
  unfold reachesSigning, noCredentials, realPlaceOrder.
  destruct (negb (truthy (apiKey creds)) || negb (truthy (apiSecret creds)));
    [reflexivity|].
  rewrite bind_events. unfold now. cbn [negb andb app].
  rewrite bind_events.
  match goal with
  | |- context [if ?c then _ else _] => destruct c eqn:Hc
  end.
  - destruct (orderParams_total order (clock w) w Hc) as [params Hp].
    rewrite Hp. cbn [app].
    apply orderParams_ok in Hp as (_ & _ & Hq).
    rewrite bind_events.
    pose proof (signedRequest_events env "POST" creds params w) as Hs.
    cbv zeta in Hs. rewrite Hq in Hs. fold message in Hs.
    destruct (signedRequest env "POST" creds params w) as [[[d|e] w1] t1];
      cbn [snd] in Hs; subst t1; [|reflexivity].
    unfold ret. cbn [snd]. apply app_nil_r.
  - destruct (orderParams_throw order (clock w) w Hc) as [e Hp].
    rewrite Hp. reflexivity.
Qed.

(** C6.  A live [placeOrder] either stops before signing (a credential or
    a required price is missing) or signs, with the API secret, exactly
    the message of [specMessage] for the order and the time of submission,
    and then issues one POST whose query string is that message followed by
    [&signature=] and the digest, with the API key as a header. *)
Theorem live_placeOrder_signs_insertion_order :
  forall env order creds w,
    let message := specMessage order (clock w) in
    let request :=
      {| method := "POST";
         url := BASE_URL ++ "/fapi/v1/order" ++ "?" ++ message
                ++ "&signature=" ++ hmac env (apiSecret creds) message;
         apiKeyHeader := apiKey creds |} in
    snd (placeOrder env false order creds w)
    = if reachesSigning order creds
      then [CallPlaceOrder false order;
            Sign (apiSecret creds) message;
            Fetch request]
      else [CallPlaceOrder false order].
Proof.
  intros env order creds w message request.
  unfold placeOrder. rewrite bind_events. unfold emit. cbn [app].
  rewrite realPlaceOrder_events. fold message. fold request.
  destruct (reachesSigning order creds); reflexivity.
Qed.

(** ** The grid dispatcher *)

Lemma placeOrder_shape env demoMode order creds w :
  exists r w' t,
    placeOrder env demoMode order creds w
    = (r, w', CallPlaceOrder demoMode order :: t)
    /\ dispatcherEvents t = [].
Proof.
  destruct demoMode.
  - eexists _, _, _. split; reflexivity.
  - pose proof (realPlaceOrder_events env order creds w) as He.
    cbv zeta in He.
    unfold placeOrder, bind, emit.
    destruct (realPlaceOrder env order creds w) as [[r w1] t1].
    cbn [snd] in He. eexists _, _, _. split; [reflexivity|].
    subst t1. destruct (reachesSigning order creds); reflexivity.
Qed.

Lemma successes_cons oc l :
  successes (oc :: l)
  = ((if succeeded oc then 1 else 0) + successes l)%Z.
Proof.
  unfold successes. cbn [filter].
  destruct (succeeded oc); cbn [List.length]; lia.
Qed.

Lemma failures_cons oc l :
  failures (oc :: l)
  = ((if succeeded oc then 0 else 1) + failures l)%Z.
Proof.
  unfold failures. cbn [filter].
  destruct (succeeded oc); cbn [negb List.length]; lia.
Qed.

Lemma successes_failures outcomes :
  (successes outcomes + failures outcomes
   = Z.of_nat (List.length outcomes))%Z.
Proof.
  induction outcomes as [|oc l IH]; [reflexivity|].
  rewrite successes_cons, failures_cons. cbn [List.length].
  destruct (succeeded oc); lia.
Qed.

Lemma dispatcherEvents_app t1 t2 :
  dispatcherEvents (t1 ++ t2)
  = (dispatcherEvents t1 ++ dispatcherEvents t2)%list.
Proof. apply filter_app. Qed.

(** The loop takes the orders one after the other, whatever the outcomes,
    counts each of them once, and waits 200 ms after the submissions that
    resolved and only after those. *)
Lemma submitEach_trace env demoMode creds orders :
  forall s f w,
  exists outcomes w' t,
    submitEach env demoMode creds orders s f w
    = (Ok ((s + successes outcomes)%Z, (f + failures outcomes)%Z), w', t)
    /\ List.length outcomes = List.length orders
    /\ dispatcherEvents t
       = flat_map (orderEvents demoMode) (combine orders outcomes).
Proof.
  induction orders as [|order rest IH]; intros s f w.
  - exists [], w, []. unfold successes, failures. simpl.
    rewrite !Z.add_0_r. repeat split.
  - destruct (placeOrder_shape env demoMode order creds w)
      as (r & w1 & t1 & Hp & Ht1).
    cbn [submitEach]. unfold bind at 1. unfold tryCatch.
    unfold bind at 1. rewrite Hp.
    destruct r as [resp|error];
      unfold bind, addLog, emit, sleep, ret; cbn [app fst snd];
      match goal with
      | |- context [submitEach env demoMode creds rest ?s' ?f' ?w'] =>
          destruct (IH s' f' w') as (outs & w2 & t2 & Hr & Hl & Hs)
      end;
      rewrite Hr.
    + exists (None :: outs), w2. eexists. split; [|split].
      * rewrite successes_cons, failures_cons. cbn [succeeded].
        rewrite !Z.add_assoc, !Z.add_0_r. reflexivity.
      * simpl. congruence.
      * cbn [combine flat_map orderEvents app].
        change (CallPlaceOrder demoMode order
                :: (t1 ++ [Log SUCCESS (GridOrderPlaced order); Sleep 200])
                   ++ t2)
          with ([CallPlaceOrder demoMode order]
                ++ (t1 ++ [Log SUCCESS (GridOrderPlaced order); Sleep 200])
                ++ t2)%list.
        rewrite !dispatcherEvents_app, Ht1, Hs. reflexivity.
    + exists (Some error :: outs), w2. eexists. split; [|split].
      * rewrite successes_cons, failures_cons. cbn [succeeded].
        rewrite !Z.add_assoc, !Z.add_0_r. reflexivity.
      * simpl. congruence.
      * cbn [combine flat_map orderEvents app].
        change (CallPlaceOrder demoMode order
                :: (t1 ++ [Log ERROR (GridOrderFailed order error)]) ++ t2)
          with ([CallPlaceOrder demoMode order]
                ++ (t1 ++ [Log ERROR (GridOrderFailed order error)])
                ++ t2)%list.
        rewrite !dispatcherEvents_app, Ht1, Hs. reflexivity.
Qed.

Lemma refused_false demoMode apiKey apiSecret :
  refused demoMode apiKey apiSecret = false
  <-> demoMode = true \/ (apiKey <> "" /\ apiSecret <> "").
Proof.
  unfold refused. destruct demoMode; cbn [negb andb].
  - split; [left; reflexivity | reflexivity].
  - destruct apiKey, apiSecret; cbn; split;
      try discriminate; try reflexivity;
      try (intros [H | [H1 H2]]; congruence).
    intros _. right. split; discriminate.
Qed.

(** The whole run of a deployment that is not refused, without the inside
    of [placeOrder]. *)
Lemma handleGridSubmit_trace env demoMode apiKey apiSecret orders w :
  refused demoMode apiKey apiSecret = false ->
  exists outcomes w' t,
    handleGridSubmit env demoMode apiKey apiSecret orders w = (Ok tt, w', t)
    /\ List.length outcomes = List.length orders
    /\ dispatcherEvents t
       = ([SetIsLoading true; Log INFO (GridStarting (List.length orders))]
          ++ flat_map (orderEvents demoMode) (combine orders outcomes)
          ++ [Log INFO (GridComplete (successes outcomes) (failures outcomes));
              SetIsLoading false])%list.
Proof.
  intros Hg. unfold refused in Hg. unfold handleGridSubmit. rewrite Hg.
  set (creds := {| Types.apiKey := apiKey; Types.apiSecret := apiSecret |}).
  destruct (submitEach_trace env demoMode creds orders 0%Z 0%Z w)
    as (outs & w1 & t1 & Hr & Hl & Hs).
  exists outs, w1. eexists.
  unfold bind, setIsLoading, addLog, emit. rewrite Hr.
  cbn [fst snd Z.add]. split; [reflexivity|]. split; [exact Hl|].
  rewrite !dispatcherEvents_app, Hs. reflexivity.
Qed.

(** Selecting among the dispatcher's events. *)
Lemma filter_dispatcherEvents (p : Event -> bool) t :
  (forall e, p e = true -> isExecutorEvent e = false) ->
  filter p (dispatcherEvents t) = filter p t.
Proof.
  intros Hp. induction t as [|e t IH]; [reflexivity|].
  unfold dispatcherEvents in *. cbn [filter].
  destruct (isExecutorEvent e) eqn:He; cbn [negb filter].
  - destruct (p e) eqn:Hpe; [|exact IH].
    apply Hp in Hpe. congruence.
  - rewrite IH. reflexivity.
Qed.

Lemma gridSteps_of_orderEvents demoMode l :
  filter isGridStep (flat_map (orderEvents demoMode) l)
  = flat_map (gridSteps demoMode) l.
Proof.
  induction l as [|[order [error|]] l IH]; [reflexivity| |];
    cbn [flat_map orderEvents gridSteps app filter isGridStep];
    rewrite IH; reflexivity.
Qed.

Lemma completion_of_orderEvents demoMode l :
  filter isCompletion (flat_map (orderEvents demoMode) l) = [].
Proof.
  induction l as [|[order [error|]] l IH]; [reflexivity| |];
    cbn [flat_map orderEvents app filter isCompletion]; exact IH.
Qed.

(** C4.  In simulated mode, or with both credentials present,
    [handleGridSubmit] attempts every order once and in input order, each
    after the outcome of the one before, whichever submissions fail, and the
    two counts it logs add up to the number of orders.  In live mode with
    an empty API key or secret it logs an error and attempts nothing. *)
Theorem handleGridSubmit_attempts_each_order_in_turn :
  forall env demoMode apiKey apiSecret orders w,
    (demoMode = true \/ (apiKey <> "" /\ apiSecret <> "") ->
     dispatchedInTurn env demoMode apiKey apiSecret orders w)
    /\ (demoMode = false /\ (apiKey = "" \/ apiSecret = "") ->
        handleGridSubmit env demoMode apiKey apiSecret orders w
        = (Ok tt, w,
           [SetIsLoading true; Log INFO (GridStarting (List.length orders));
            Log ERROR GridCredentialsRequired; SetIsLoading false])).
Proof.
  intros env demoMode apiKey apiSecret orders w. split.
  - intros Hguard. apply refused_false in Hguard.
    destruct (handleGridSubmit_trace env demoMode apiKey apiSecret orders w
                Hguard)
      as (outs & w1 & t & Hrun & Hl & Ht).
    exists outs, w1, t. split; [exact Hrun|]. split; [exact Hl|].
    split; [|split].
    + rewrite <- (filter_dispatcherEvents isGridStep t), Ht.
      * rewrite !filter_app, gridSteps_of_orderEvents. cbn [filter isGridStep].
        apply app_nil_r.
      * intros [] He; try discriminate He; try reflexivity.
    + rewrite <- (filter_dispatcherEvents isCompletion t), Ht.
      * rewrite !filter_app, completion_of_orderEvents. reflexivity.
      * intros [] He; try discriminate He; try reflexivity.
    + rewrite successes_failures, Hl. reflexivity.
  - intros [-> Hmissing]. unfold handleGridSubmit.
    assert (Hg : negb (truthy apiKey) || negb (truthy apiSecret) = true).
    { destruct Hmissing as [-> | ->]; [reflexivity|].
      apply orb_true_r. }
    cbn [negb andb]. rewrite Hg. reflexivity.
Qed.

(** Two orders in live mode with both credentials, the first of which the
    exchange rejects. *)
Lemma handleGridSubmit_live_example :
  dispatchedInTurn rejectsFirst false "key" "secret" [lowBuy; highSell]
    startOfDay.
Proof.
  apply (handleGridSubmit_attempts_each_order_in_turn
           rejectsFirst false "key" "secret" [lowBuy; highSell] startOfDay).
  right. split; discriminate.
Defined.

(** In live mode without an API key the deployment is refused: no order is
    attempted and no counts are logged, so the batch is not dispatched in
    turn. *)
Lemma handleGridSubmit_refuses_without_credentials :
  handleGridSubmit rejectsFirst false "" "secret" [lowBuy; highSell] startOfDay
  = (Ok tt, startOfDay,
     [SetIsLoading true; Log INFO (GridStarting 2);
      Log ERROR GridCredentialsRequired; SetIsLoading false])
  /\ ~ dispatchedInTurn rejectsFirst false "" "secret" [lowBuy; highSell]
         startOfDay.
Proof.
  split; [reflexivity|].
  intros (outcomes & w' & t & Hrun & _ & _ & Hdone & _).
  assert (Ht : t = [SetIsLoading true; Log INFO (GridStarting 2);
                    Log ERROR GridCredentialsRequired; SetIsLoading false]).
  { cbv in Hrun. congruence. }
  subst t. discriminate Hdone.
Qed.

(** In simulated mode every submission resolves and every [placeOrder] but
    the first is entered after a wait of 200 ms. *)
Lemma handleGridSubmit_demo_example :
  delayHonoured
    (snd (handleGridSubmit rejectsFirst true "" "" [lowBuy; highSell]
            startOfDay)) = true.
Proof. vm_compute. reflexivity. Qed.

(** C2.  The 200 ms wait is not made after a failed submission.  In live
    mode with both credentials, on two orders of which the exchange rejects
    the first, [handleGridSubmit] enters [placeOrder] for the second order
    right after logging the failure of the first; the only wait is the one
    after the second, successful, submission. *)
Theorem handleGridSubmit_no_delay_after_failure :
  let t := snd (handleGridSubmit rejectsFirst false "key" "secret"
                  [lowBuy; highSell] startOfDay) in
  dispatcherEvents t
  = [ SetIsLoading true;
      Log INFO (GridStarting 2);
      CallPlaceOrder false lowBuy;
      Log ERROR (GridOrderFailed lowBuy
                   (ExchangeMessage "Margin is insufficient."));
      CallPlaceOrder false highSell;
      Log SUCCESS (GridOrderPlaced highSell);
      Sleep 200;
      Log INFO (GridComplete 1 1);
      SetIsLoading false ]
  /\ delayHonoured t = false.
Proof. split; vm_compute; reflexivity. Qed.

(** ** Stream sessions *)

Section SessionProperties.

Variable endpoint : string.
Variable onmessage : string -> Handled.

Let step := Websocket.step endpoint onmessage.
Let run := Websocket.run endpoint onmessage.
Let connect := Websocket.connect endpoint.

Lemma removeTimer_single id d : removeTimer id [(id, d)] = [].
Proof. unfold removeTimer. simpl. rewrite Nat.eqb_refl. reflexivity. Qed.

Lemma removeSocket_single s : removeSocket s [s] = [].
Proof. unfold removeSocket. simpl. rewrite Nat.eqb_refl. reflexivity. Qed.

Lemma hasSocket_single s x : hasSocket s [x] = true -> x = s.
Proof.
  unfold hasSocket. simpl. rewrite orb_false_r.
  intros H. apply Nat.eqb_eq in H. congruence.
Qed.

Lemma hasTimer_single id x d : hasTimer id [(x, d)] = true -> x = id.
Proof.
  unfold hasTimer. simpl. rewrite orb_false_r. apply Nat.eqb_eq.
Qed.

Lemma Inv_fresh : Inv fresh.
Proof. split; [apply Idle; reflexivity | discriminate]. Qed.

Lemma Inv_act a st : Inv st -> Inv (act a st).
Proof.
  intros [Hs Hn]. split; [|exact Hn].
  destruct Hs as [Ht Hk | s Ht Hk | id Ha Ht Hk Hr Hid].
  - apply Idle; assumption.
  - apply (Connected _ s); assumption.
  - apply (ReconnectScheduled _ id); assumption.
Qed.

(** [connect] from a state with neither socket nor timer. *)
Lemma Inv_connect c st :
  timers st = [] -> sockets st = [] -> nextTimer st <> O ->
  Inv (connect c st).
Proof.
  intros Ht Hk Hn. unfold connect, Websocket.connect.
  destruct (active st) eqn:Ha; cbn [negb].
  - destruct c.
    + cbn [act active]. rewrite Ha. split; [|discriminate].
      apply (ReconnectScheduled _ (nextTimer st)); cbn; rewrite ?Ht;
        solve [reflexivity | assumption].
    + split; [|exact Hn].
      apply (Connected _ (nextSocket st)); cbn; [assumption|].
      rewrite Hk. reflexivity.
  - split; [apply Idle; assumption | exact Hn].
Qed.

Lemma Inv_cleanup st : Inv st -> Inv (cleanup st) /\ timers (cleanup st) = [].
Proof.
  intros [Hs Hn].
  assert (Hcl : forall st', sockets st' = sockets st -> timers st' = [] ->
                  nextTimer st' = nextTimer st ->
                  Inv (match ws st' with
                       | Some s => closeSocket s st'
                       | None => st'
                       end)
                  /\ timers (match ws st' with
                             | Some s => closeSocket s st'
                             | None => st'
                             end) = []).
  { intros st' Hk' Ht' Hn'.
    assert (HI' : Inv st').
    { split; [|congruence].
      destruct Hs as [Ht Hk | s Ht Hk | id Ha Ht Hk Hr Hid].
      - apply Idle; congruence.
      - apply (Connected _ s); congruence.
      - apply Idle; congruence. }
    destruct (ws st'); [|split; assumption].
    split; [|exact Ht'].
    destruct HI' as [Hs' Hn2]. split; [|exact Hn2].
    destruct Hs' as [Ht Hk | s Ht Hk | id Ha Ht Hk Hr Hid].
    - apply Idle; assumption.
    - apply (Connected _ s); assumption.
    - rewrite Ht' in Ht. discriminate. }
  unfold cleanup. cbv zeta. cbn [deactivate reconnectTimeout].
  destruct Hs as [Ht Hk | s Ht Hk | id Ha Ht Hk Hr Hid].
  - destruct (reconnectTimeout st) as [id|]; [destruct (Nat.eqb id 0)|];
      apply Hcl; cbn; try reflexivity; try assumption.
    rewrite Ht. reflexivity.
  - destruct (reconnectTimeout st) as [id|]; [destruct (Nat.eqb id 0)|];
      apply Hcl; cbn; try reflexivity; try assumption.
    rewrite Ht. reflexivity.
  - rewrite Hr. destruct (Nat.eqb id 0) eqn:E.
    + apply Nat.eqb_eq in E. contradiction.
    + apply Hcl; cbn; try reflexivity.
      rewrite Ht. apply removeTimer_single.
Qed.

Lemma Inv_step st i : Inv st -> Inv (step st i).
Proof.
  intros HI. pose proof HI as [Hs Hn].
  destruct i as [s | s data | s | s | id c |];
    unfold step; cbn [Websocket.step].
  - destruct (hasSocket s (sockets st)); [apply Inv_act|]; exact HI.
  - destruct (hasSocket s (sockets st)); [|exact HI].
    destruct (onmessage data); [apply Inv_act| |apply Inv_act]; exact HI.
  - destruct (hasSocket s (sockets st)); [apply Inv_act|]; exact HI.
  - destruct (hasSocket s (sockets st)) eqn:Hh; [|exact HI].
    destruct Hs as [Ht Hk | x Ht Hk | x Ha Ht Hk Hr Hid];
      try (rewrite Hk in Hh; discriminate Hh).
    rewrite Hk in Hh. apply hasSocket_single in Hh. subst x.
    unfold onclose, closed. cbn [active]. rewrite Hk, removeSocket_single.
    destruct (active st) eqn:Ha.
    + split; [|discriminate].
      apply (ReconnectScheduled _ (nextTimer st)); cbn; rewrite ?Ht;
        solve [reflexivity | assumption].
    + split; [apply Idle; cbn; solve [reflexivity | assumption] | exact Hn].
  - destruct (hasTimer id (timers st)) eqn:Hh; [|exact HI].
    destruct Hs as [Ht Hk | x Ht Hk | x Ha Ht Hk Hr Hid];
      try (rewrite Ht in Hh; discriminate Hh).
    rewrite Ht in Hh. apply hasTimer_single in Hh. subst x.
    apply Inv_connect; cbn; try assumption.
    rewrite Ht. apply removeTimer_single.
  - apply Inv_cleanup. exact HI.
Qed.

Lemma Inv_run inputs : forall st, Inv st -> Inv (run st inputs).
Proof.
  induction inputs as [|i l IH]; intros st HI; [exact HI|].
  apply IH, Inv_step, HI.
Qed.

Lemma Inv_subscribe c : Inv (subscribe endpoint c).
Proof. apply Inv_connect; [reflexivity | reflexivity | discriminate]. Qed.

Lemma attempts_act a st :
  connectionAttempts (act a st)
  = ((if isConnect a then 1 else 0) + connectionAttempts st)%nat.
Proof.
  unfold connectionAttempts. cbn [act actions].
  rewrite filter_app, length_app. cbn [filter].
  destruct (isConnect a); cbn [List.length]; lia.
Qed.

(** Every input but the call of the cleanup function leaves [active] as
    it is. *)
Lemma step_keeps_active st i :
  i <> Unsubscribe -> active (step st i) = active st.
Proof.
  intros Hi. destruct i as [s | s data | s | s | id c |];
    unfold step; cbn [Websocket.step]; try contradiction.
  - destruct (hasSocket s (sockets st)); reflexivity.
  - destruct (hasSocket s (sockets st)); [|reflexivity].
    destruct (onmessage data); reflexivity.
  - destruct (hasSocket s (sockets st)); reflexivity.
  - destruct (hasSocket s (sockets st)); [|reflexivity].
    unfold onclose. cbn [closed active].
    destruct (active st) eqn:Ha; [|exact Ha]. exact Ha.
  - destruct (hasTimer id (timers st)); [|reflexivity].
    unfold Websocket.connect. cbn [expire active].
    destruct (active st) eqn:Ha; cbn [negb]; [|exact Ha].
    destruct c; cbn [act active expire]; rewrite ?Ha; cbn;
      solve [reflexivity | exact Ha].
Qed.

(** Once inactive, a session stays inactive, makes no connection
    attempt and schedules no timer. *)
Lemma step_inactive st i :
  active st = false ->
  active (step st i) = false
  /\ connectionAttempts (step st i) = connectionAttempts st
  /\ (timers st = [] -> timers (step st i) = []).
Proof.
  intros Ha.
  assert (Hact : forall a st',
             isConnect a = false ->
             active st' = false
             /\ connectionAttempts st' = connectionAttempts st
             /\ (timers st = [] -> timers st' = []) ->
             active (act a st') = false
             /\ connectionAttempts (act a st') = connectionAttempts st
             /\ (timers st = [] -> timers (act a st') = [])).
  { intros a st' Hc (H1 & H2 & H3). rewrite attempts_act, Hc.
    repeat split; assumption. }
  assert (Hst : active st = false
                /\ connectionAttempts st = connectionAttempts st
                /\ (timers st = [] -> timers st = [])).
  { repeat split; auto. }
  destruct i as [s | s data | s | s | id c |];
    unfold step; cbn [Websocket.step].
  - destruct (hasSocket s (sockets st)); [apply Hact|]; auto.
  - destruct (hasSocket s (sockets st)); [|exact Hst].
    destruct (onmessage data); [apply Hact| |apply Hact]; auto.
  - destruct (hasSocket s (sockets st)); [apply Hact|]; auto.
  - destruct (hasSocket s (sockets st)); [|exact Hst].
    unfold onclose. cbn [closed active]. rewrite Ha. exact Hst.
  - destruct (hasTimer id (timers st)); [|exact Hst].
    unfold Websocket.connect. cbn [expire active]. rewrite Ha. cbn [negb].
    repeat split; auto. cbn. intros ->. reflexivity.
  - assert (Hd : active (deactivate st) = false
                 /\ connectionAttempts (deactivate st) = connectionAttempts st
                 /\ (timers st = [] -> timers (deactivate st) = [])).
    { repeat split; auto. }
    unfold cleanup. cbv zeta.
    assert (Hclose : forall st',
               active st' = false
               /\ connectionAttempts st' = connectionAttempts st
               /\ (timers st = [] -> timers st' = []) ->
               active (match ws st' with
                       | Some s => closeSocket s st' | None => st' end) = false
               /\ connectionAttempts
                    (match ws st' with
                     | Some s => closeSocket s st' | None => st' end)
                  = connectionAttempts st
               /\ (timers st = [] ->
                   timers (match ws st' with
                           | Some s => closeSocket s st' | None => st' end)
                   = [])).
    { intros st' H. destruct (ws st'); [|exact H].
      unfold closeSocket. apply Hact; [reflexivity|exact H]. }
    apply Hclose.
    destruct (reconnectTimeout (deactivate st)) as [id|]; [|exact Hd].
    destruct (Nat.eqb id 0); [exact Hd|].
    unfold clearTimeout. apply Hact; [reflexivity|].
    repeat split; auto. cbn. intros ->. reflexivity.
Qed.

Lemma run_inactive inputs :
  forall st,
    active st = false -> timers st = [] ->
    active (run st inputs) = false
    /\ connectionAttempts (run st inputs) = connectionAttempts st
    /\ timers (run st inputs) = [].
Proof.
  induction inputs as [|i l IH]; intros st Ha Ht; [repeat split; auto|].
  destruct (step_inactive st i Ha) as (Ha' & Hc' & Ht').
  destruct (IH (step st i) Ha' (Ht' Ht)) as (Ha2 & Hc2 & Ht2).
  repeat split;
    [exact Ha2 | exact (eq_trans Hc2 Hc') | exact Ht2].
Qed.

Lemma attempts_scheduleReconnect st :
  connectionAttempts (scheduleReconnect st) = connectionAttempts st.
Proof. unfold scheduleReconnect. rewrite attempts_act. reflexivity. Qed.

(** An active session's [connect] makes one connection attempt. *)
Lemma connect_attempts c st :
  active st = true ->
  connectionAttempts (connect c st) = S (connectionAttempts st).
Proof.
  intros Ha. unfold connect, Websocket.connect. rewrite Ha. cbn [negb].
  destruct c.
  - cbn [act active]. rewrite Ha.
    rewrite attempts_scheduleReconnect, !attempts_act. reflexivity.
  - change (connectionAttempts (act (NewWebSocket endpoint) st)
            = S (connectionAttempts st)).
    rewrite attempts_act. reflexivity.
Qed.

(** While active, the [close] event of the session's socket leaves one
    pending timer of [RECONNECT_DELAY], whose expiry makes a connection
    attempt. *)
Lemma close_schedules_reconnect st s :
  Inv st -> active st = true -> hasSocket s (sockets st) = true ->
  exists id,
    timers (step st (SocketClosed s)) = [(id, RECONNECT_DELAY)]
    /\ reconnectTimeout (step st (SocketClosed s)) = Some id
    /\ active (step st (SocketClosed s)) = true
    /\ forall c,
         connectionAttempts (step (step st (SocketClosed s)) (TimerFired id c))
         = S (connectionAttempts (step st (SocketClosed s))).
Proof.
  intros [Hs Hn] Ha Hh.
  destruct Hs as [Ht Hk | x Ht Hk | x _ Ht Hk Hr Hid];
    try (rewrite Hk in Hh; discriminate Hh).
  exists (nextTimer st).
  assert (Hstep : step st (SocketClosed s)
                  = scheduleReconnect
                      (act (Console "closed. Reconnecting") (closed s st))).
  { unfold step. cbn [Websocket.step]. rewrite Hh.
    unfold onclose. cbn [closed active]. rewrite Ha. reflexivity. }
  rewrite Hstep.
  assert (Htm : timers (scheduleReconnect
                          (act (Console "closed. Reconnecting") (closed s st)))
                = [(nextTimer st, RECONNECT_DELAY)]).
  { cbn. rewrite Ht. reflexivity. }
  repeat split; [exact Htm | exact Ha |].
  intros c. unfold step at 1. cbn [Websocket.step]. rewrite Htm.
  cbn [hasTimer existsb fst]. rewrite Nat.eqb_refl. cbn [orb].
  etransitivity; [apply connect_attempts; exact Ha | reflexivity].
Qed.

Lemma Retrying_connect c st :
  active st = true -> timers st = [] -> sockets st = [] ->
  Retrying (connect c st).
Proof.
  intros Ha Ht Hk. unfold connect, Websocket.connect. rewrite Ha. cbn [negb].
  destruct c.
  - cbn [act active]. rewrite Ha. right. exists (nextTimer st).
    cbn. rewrite Ht. repeat split. exact Hk.
  - left. exists (nextSocket st). cbn. rewrite Hk. split; [reflexivity|exact Ht].
Qed.

(** While it is active a session is connected or about to reconnect,
    whatever the sockets do. *)
Lemma Retrying_step st i :
  Inv st -> active st = true -> Retrying st -> i <> Unsubscribe ->
  Retrying (step st i).
Proof.
  intros [Hs Hn] Ha Hr Hi.
  destruct i as [s | s data | s | s | id c |];
    unfold step; cbn [Websocket.step]; try contradiction.
  - destruct (hasSocket s (sockets st)); exact Hr.
  - destruct (hasSocket s (sockets st)); [|exact Hr].
    destruct (onmessage data); exact Hr.
  - destruct (hasSocket s (sockets st)); exact Hr.
  - destruct (hasSocket s (sockets st)) eqn:Hh; [|exact Hr].
    destruct Hs as [Ht Hk | x Ht Hk | x _ Ht Hk Hrt Hid];
      try (rewrite Hk in Hh; discriminate Hh).
    rewrite Hk in Hh. apply hasSocket_single in Hh. subst x.
    unfold onclose. cbn [closed active]. rewrite Ha.
    right. exists (nextTimer st). cbn. rewrite Ht, Hk, removeSocket_single.
    repeat split.
  - destruct (hasTimer id (timers st)) eqn:Hh; [|exact Hr].
    destruct Hs as [Ht Hk | x Ht Hk | x _ Ht Hk Hrt Hid];
      try (rewrite Ht in Hh; discriminate Hh).
    rewrite Ht in Hh. apply hasTimer_single in Hh. subst x.
    apply Retrying_connect; cbn; try assumption.
    rewrite Ht. apply removeTimer_single.
Qed.

Lemma run_without_unsubscribe inputs :
  forall st,
    Inv st -> active st = true -> Retrying st ->
    ~ In Unsubscribe inputs ->
    active (run st inputs) = true /\ Retrying (run st inputs).
Proof.
  induction inputs as [|i l IH]; intros st HI Ha Hr Hn; [split; assumption|].
  assert (Hi : i <> Unsubscribe) by (intros ->; apply Hn; left; reflexivity).
  apply (IH (step st i)).
  - apply Inv_step, HI.
  - rewrite <- Ha. apply step_keeps_active, Hi.
  - apply Retrying_step; assumption.
  - intros H. apply Hn. right. exact H.
Qed.

(** C9.  Take a session at any point of its life.  Once its cleanup
    function is called, it stays inactive whatever happens next: no timer
    is pending, none is scheduled, and the number of connection attempts
    stays what it was.  While it is active, the [close] event of its
    socket leaves exactly one pending timer of [RECONNECT_DELAY], held in
    [reconnectTimeout], whose expiry makes a connection attempt.  And as
    long as the cleanup function has not been called the session is
    active and either connected or waiting to reconnect, whatever errors,
    closes and failed constructions it went through. *)
Theorem unsubscribe_alone_ends_reconnection :
  forall constructorThrows history,
    let st := run (subscribe endpoint constructorThrows) history in
    (forall future,
       let st' := run (step st Unsubscribe) future in
       active st' = false
       /\ timers st' = []
       /\ connectionAttempts st' = connectionAttempts st)
    /\ (forall s,
          active st = true -> hasSocket s (sockets st) = true ->
          exists id,
            timers (step st (SocketClosed s)) = [(id, RECONNECT_DELAY)]
            /\ reconnectTimeout (step st (SocketClosed s)) = Some id
            /\ active (step st (SocketClosed s)) = true
            /\ forall c,
                 connectionAttempts
                   (step (step st (SocketClosed s)) (TimerFired id c))
                 = S (connectionAttempts (step st (SocketClosed s))))
    /\ (~ In Unsubscribe history -> active st = true /\ Retrying st).
Proof.
  intros c0 history st.
  assert (HI : Inv st) by apply Inv_run, Inv_subscribe.
  split; [|split].
  - intros future st'.
    destruct (Inv_cleanup st HI) as [_ Ht].
    destruct (step_inactive (deactivate st) Unsubscribe eq_refl)
      as (Ha & Hc & _).
    assert (Ha1 : active (step st Unsubscribe) = false) by exact Ha.
    assert (Hc1 : connectionAttempts (step st Unsubscribe)
                  = connectionAttempts st) by exact Hc.
    destruct (run_inactive future (step st Unsubscribe) Ha1 Ht)
      as (Ha2 & Hc2 & Ht2).
    repeat split; [exact Ha2 | exact Ht2 | exact (eq_trans Hc2 Hc1)].
  - intros s Ha Hh. apply close_schedules_reconnect; assumption.
  - intros Hn. apply run_without_unsubscribe; try assumption.
    + apply Inv_subscribe.
    + unfold subscribe, Websocket.connect. cbn [fresh active negb].
      destruct c0; reflexivity.
    + apply Retrying_connect; reflexivity.
Qed.

End SessionProperties.

(** A session whose first socket closes: one timer of [RECONNECT_DELAY]
    is pending. *)
Lemma ticker_session_example :
  exists id,
    timers (Websocket.step "wss://x" (fun _ => Skipped)
              (subscribe "wss://x" false) (SocketClosed 0))
    = [(id, RECONNECT_DELAY)].
Proof.
  destruct (unsubscribe_alone_ends_reconnection
              "wss://x" (fun _ => Skipped) false [])
    as (_ & Hclose & _).
  destruct (Hclose 0%nat eq_refl eq_refl) as (id & Ht & _).
  exists id. exact Ht.
Defined.

(* ================================================================== *)
(** * Further properties *)
(* ================================================================== *)

(** ** Symbols and their rules *)

Lemma upperChar_idempotent c : upperChar (upperChar c) = upperChar c.
Proof. destruct c as [[] [] [] [] [] [] [] []]; reflexivity. Qed.

Lemma upperChar_lowerChar c : upperChar (lowerChar c) = upperChar c.
Proof. destruct c as [[] [] [] [] [] [] [] []]; reflexivity. Qed.

Lemma toUpperCase_idempotent s : toUpperCase (toUpperCase s) = toUpperCase s.
Proof.
  induction s as [|c s IH]; [reflexivity|].
  cbn [toUpperCase]. rewrite upperChar_idempotent, IH. reflexivity.
Qed.

Lemma toUpperCase_toLowerCase s : toUpperCase (toLowerCase s) = toUpperCase s.
Proof.
  induction s as [|c s IH]; [reflexivity|].
  cbn [toUpperCase toLowerCase]. rewrite upperChar_lowerChar, IH. reflexivity.
Qed.

(** X1.  The rules of a symbol do not depend on the case of its letters:
    the symbol in upper case and the symbol in lower case have the rules of
    the symbol as typed. *)
Theorem getSymbolRules_ignores_case :
  forall symbol,
    getSymbolRules (toUpperCase symbol) = getSymbolRules symbol
    /\ getSymbolRules (toLowerCase symbol) = getSymbolRules symbol.
Proof.
  intros symbol. unfold getSymbolRules.
  rewrite toUpperCase_idempotent, toUpperCase_toLowerCase. split; reflexivity.
Qed.

(** X2.  Whatever the symbol, its rules allow between 1 and 5 price
    decimals (within the range of [toFixed]), at most 3 quantity decimals,
    and a minimum quantity between 0.001 and 1; a symbol that is not in the
    table has the rules of 'DEFAULT'. *)
Theorem getSymbolRules_bounds :
  forall symbol,
    let rules := getSymbolRules symbol in
    (1 <= priceDecimals rules <= 5)%nat
    /\ (qtyDecimals rules <= 3)%nat
    /\ (1 # 1000) <= minQty rules <= 1
    /\ (lookup (toUpperCase symbol) TRADING_RULES = None ->
        rules = DEFAULT_RULES).
Proof.
  intros symbol rules. subst rules. unfold getSymbolRules.
  set (k := toUpperCase symbol). clearbody k.
  unfold TRADING_RULES. cbn [lookup].
  repeat match goal with
         | |- context [String.eqb k ?x] => destruct (String.eqb k x)
         end;
    cbn; (split; [lia|]); (split; [lia|]); (split; [split; discriminate|]);
    try discriminate; reflexivity.
Qed.

(** ** Counting decimals *)

Lemma indexOfFrom_noPoint s i :
  hasNoPoint s = true -> indexOfFrom "." s i = (-1)%Z.
Proof.
  revert i. induction s as [|c s IH]; intros i H; [reflexivity|].
  cbn [hasNoPoint] in H. apply andb_true_iff in H as [Hc Hs].
  cbn [indexOfFrom]. apply negb_true_iff in Hc. rewrite Hc. apply IH, Hs.
Qed.

Lemma split_noPoint s : hasNoPoint s = true -> split "." s = [s].
Proof.
  induction s as [|c s IH]; [reflexivity|].
  cbn [hasNoPoint]. intros [Hc Hs]%andb_true_iff.
  apply negb_true_iff in Hc. cbn [split]. rewrite Hc, (IH Hs). reflexivity.
Qed.

Lemma split_at_point s r :
  hasNoPoint s = true -> split "." (s ++ String "." r) = s :: split "." r.
Proof.
  induction s as [|c s IH]; [reflexivity|].
  cbn [hasNoPoint]. intros [Hc Hs]%andb_true_iff.
  apply negb_true_iff in Hc. cbn [append split]. rewrite Hc, (IH Hs).
  reflexivity.
Qed.

(** X3.  [countDecimals] is textual: it is the number of characters
    between the first point and the second point or the end, whatever they
    are, and 0 when there is no point. *)
Theorem countDecimals_counts_characters :
  forall a b r,
    hasNoPoint a = true -> hasNoPoint b = true ->
    countDecimals a = O
    /\ countDecimals (a ++ "." ++ b) = String.length b
    /\ countDecimals (a ++ "." ++ b ++ "." ++ r) = String.length b.
Proof.
  intros a b r Ha Hb. unfold countDecimals, indexOf. split; [|split].
  - rewrite (indexOfFrom_noPoint a 0 Ha). reflexivity.
  - pose proof (indexOfFrom_found a b 0 (Z.le_refl 0)) as Hi.
    change (a ++ "." ++ b) with (a ++ String "." b).
    destruct (indexOfFrom "." (a ++ String "." b) 0 =? -1)%Z eqn:E;
      [apply Z.eqb_eq in E; lia|].
    rewrite (split_at_point a b Ha), (split_noPoint b Hb). reflexivity.
  - pose proof (indexOfFrom_found a (b ++ String "." r) 0 (Z.le_refl 0)) as Hi.
    change (a ++ "." ++ b ++ "." ++ r)
      with (a ++ String "." (b ++ String "." r)).
    destruct (indexOfFrom "." (a ++ String "." (b ++ String "." r)) 0 =? -1)%Z
      eqn:E; [apply Z.eqb_eq in E; lia|].
    rewrite (split_at_point a _ Ha), (split_at_point b r Hb). reflexivity.
Qed.

(** A number in exponent notation has no decimals, and what follows the
    point is counted to the next point. *)
Lemma countDecimals_counts_characters_example :
  countDecimals "1e-7" = O
  /\ countDecimals ("1e-7" ++ "." ++ "5e-7") = 4%nat
  /\ countDecimals ("1e-7" ++ "." ++ "5e-7" ++ "." ++ "25") = 4%nat.
Proof.
  apply (countDecimals_counts_characters "1e-7" "5e-7" "25"); reflexivity.
Defined.

(** ** Text after a number *)

Lemma append_nil_r s : s ++ "" = s.
Proof. induction s; simpl; congruence. Qed.

Lemma spanDigits_trailing a t :
  allDigits a = true -> isTrailingText t = true -> spanDigits (a ++ t) = (a, t).
Proof.
  intros Ha Ht. destruct t as [|c r].
  - rewrite append_nil_r. apply spanDigits_all, Ha.
  - apply spanDigits_stop; [exact Ha|].
    cbn [isTrailingText] in Ht.
    destruct (isDigit c); [discriminate Ht|reflexivity].
Qed.

Lemma parseExponent_trailing t : isTrailingText t = true -> parseExponent t = 0%Z.
Proof.
  destruct t as [|c r]; [reflexivity|]. cbn [isTrailingText parseExponent].
  destruct (isDigit c), (Ascii.eqb c "e"), (Ascii.eqb c "E");
    cbn; try discriminate; reflexivity.
Qed.

Lemma trailing_not_point t :
  isTrailingText t = true ->
  match t with String "." r => spanDigits r | _ => ("", t) end = ("", t).
Proof.
  destruct t as [|c r]; [reflexivity|]. cbn [isTrailingText hasNoPoint].
  intros H. apply andb_true_iff in H as [_ H].
  apply andb_true_iff in H as [H _]. apply negb_true_iff in H.
  destruct c as [[] [] [] [] [] [] [] []]; try reflexivity; discriminate H.
Qed.

Lemma parseFloat_trailing a t :
  allDigits a = true -> a <> "" -> isTrailingText t = true ->
  parseFloat (a ++ t) = parseFloat a.
Proof.
  intros Ha Hne Ht. unfold parseFloat.
  rewrite (readLiteral_digits a Ha Hne).
  destruct a as [|c r]; [congruence|].
  pose proof Ha as Hc. simpl in Hc. apply andb_true_iff in Hc as [Hc _].
  destruct (digit_starts_number c (r ++ t) Hc) as (Hs1 & Hs2 & Hs3).
  unfold readLiteral.
  change (String c r ++ t) with (String c (r ++ t)).
  rewrite Hs1, Hs2, Hs3.
  change (String c (r ++ t)) with (String c r ++ t).
  rewrite (spanDigits_trailing _ t Ha Ht), (trailing_not_point t Ht).
  rewrite (parseExponent_trailing t Ht), append_nil_r. reflexivity.
Qed.

Lemma hasNoPoint_digits a : allDigits a = true -> hasNoPoint a = true.
Proof.
  induction a as [|c a IH]; [reflexivity|].
  cbn [allDigits hasNoPoint]. intros [Hc Ha]%andb_true_iff.
  rewrite (digit_not_point c Hc), (IH Ha). reflexivity.
Qed.

Lemma hasNoPoint_app a b :
  hasNoPoint (a ++ b) = hasNoPoint a && hasNoPoint b.
Proof.
  induction a as [|c a IH]; [reflexivity|].
  cbn [append hasNoPoint]. rewrite IH. apply andb_assoc.
Qed.

Lemma hasNoPoint_trailing t : isTrailingText t = true -> hasNoPoint t = true.
Proof.
  destruct t as [|c r]; [reflexivity|]. cbn [isTrailingText].
  intros H. apply andb_true_iff in H as [_ H]. exact H.
Qed.

Lemma countDecimals_noPoint s : hasNoPoint s = true -> countDecimals s = O.
Proof.
  intros Hs. unfold countDecimals, indexOf.
  rewrite (indexOfFrom_noPoint s 0 Hs). reflexivity.
Qed.

Lemma truthy_app a t : a <> "" -> truthy (a ++ t) = truthy a.
Proof. destruct a; [congruence|reflexivity]. Qed.

(** X4.  Both validators read a quantity made of digits followed by other
    text as they read the digits alone: the text changes the verdict of
    neither. *)
Theorem validators_ignore_text_after_quantity :
  forall order symbol minPrice maxPrice a t,
    allDigits a = true -> a <> "" -> isTrailingText t = true ->
    validateOrderInput (withQuantity order (a ++ t))
    = validateOrderInput (withQuantity order a)
    /\ validateGridInput symbol minPrice maxPrice (a ++ t)
       = validateGridInput symbol minPrice maxPrice a.
Proof.
  intros order symbol minPrice maxPrice a t Ha Hne Ht.
  assert (Hc1 : countDecimals (a ++ t) = O).
  { apply countDecimals_noPoint.
    rewrite hasNoPoint_app, (hasNoPoint_digits a Ha), (hasNoPoint_trailing t Ht).
    reflexivity. }
  assert (Hc2 : countDecimals a = O)
    by apply countDecimals_noPoint, hasNoPoint_digits, Ha.
  unfold validateOrderInput, validateGridInput, validatePrice,
    validateStopPrice, withQuantity.
  cbn [Types.symbol Types.quantity Types.type Types.price Types.stopPrice].
  rewrite (parseFloat_trailing a t Ha Hne Ht), (truthy_app a t Hne), Hc1, Hc2.
  split; reflexivity.
Qed.

(** The quantity "5 units" on SOLUSDT. *)
Lemma validators_ignore_text_after_quantity_example :
  validateOrderInput (withQuantity (marketOrder "SOLUSDT" BUY "" None None None)
                        ("5" ++ " units"))
  = validateOrderInput (withQuantity (marketOrder "SOLUSDT" BUY "" None None None)
                          "5")
  /\ validateGridInput "SOLUSDT" "10" "20" ("5" ++ " units")
     = validateGridInput "SOLUSDT" "10" "20" "5".
Proof.
  apply (validators_ignore_text_after_quantity
           (marketOrder "SOLUSDT" BUY "" None None None)
           "SOLUSDT" "10" "20" "5" " units");
    [reflexivity | discriminate | reflexivity].
Defined.

(** ** The ticker's message handler *)

Lemma midPrice_NaN bid ask :
  isNaN bid = true \/ isNaN ask = true ->
  Streams.midPrice bid ask = NaN.
Proof.
  unfold Streams.midPrice.
  destruct bid as [|nb|qb], ask as [|na|qa];
    intros [H|H]; try discriminate H; try reflexivity;
    cbn [add]; destruct (Bool.eqb _ _); reflexivity.
Qed.

Lemma formatMid_finite big mid :
  Streams.formatMid big (Fin mid) = toFixed big (Fin mid) (midDecimals mid).
Proof.
  unfold Streams.formatMid, midDecimals.
  rewrite (ofZ_exact 10) by (vm_compute; discriminate). cbn [lt].
  destruct (Qltb mid (inject_Z 10)); reflexivity.
Qed.

(** The rounding of a number between 0 and a number of the format stays
    between them. *)
Lemma rounded_between q c :
  0 <= q <= c -> rounded c == c -> c < pow2 1024 ->
  round64 q = Fin (rounded q) /\ 0 <= rounded q <= c.
Proof.
  intros [H0 Hc] Ec Hbig.
  pose proof (rounded_mono q c H0 Hc) as Hm. rewrite Ec in Hm.
  pose proof (rounded_nonneg q H0) as Hn.
  split; [|split; assumption].
  destruct (round64_cases q) as [[E _]|[_ B]]; [exact E|exfalso].
  rewrite <- (rounded_eq q), Qabs_pos in B by exact Hn.
  set (x := pow2 1024) in *. clearbody x. lra.
Qed.

(** The mid-price of a bid and an ask that add up to at most 10^21 is a
    number below 10^21. *)
Lemma midPrice_value bid ask :
  0 <= bid -> 0 <= ask -> bid + ask <= inject_Z (10 ^ 21) ->
  exists mid,
    Streams.midPrice (Fin bid) (Fin ask) = Fin mid
    /\ 0 <= mid /\ mid < inject_Z (10 ^ 21).
Proof.
  intros Hb Ha Hsum. unfold Streams.midPrice. cbn [add].
  destruct (rounded_between (bid + ask) (inject_Z (10 ^ 21))) as (-> & S0 & S1).
  - split; [lra|exact Hsum].
  - vm_compute. reflexivity.
  - vm_compute. reflexivity.
  - rewrite (ofZ_exact 2) by (vm_compute; discriminate). cbn [div].
    change (Qzero (inject_Z 2)) with false. cbv iota.
    set (s := rounded (bid + ask)) in *. clearbody s.
    destruct (rounded_between (s / inject_Z 2) (inject_Z (5 * 10 ^ 20)))
      as (-> & M0 & M1).
    + split; [apply Qle_shift_div_l; [reflexivity|lra]|].
      apply Qle_shift_div_r; [reflexivity|].
      eapply Qle_trans; [exact S1|]. vm_compute. discriminate.
    + vm_compute. reflexivity.
    + vm_compute. reflexivity.
    + eexists. split; [reflexivity|]. split; [exact M0|].
      eapply Qle_lt_trans; [exact M1|]. vm_compute. reflexivity.
Qed.

(** X5.  A ticker message of type 'bookTicker' whose bid and ask read as
    non-negative numbers adding up to at most 10^21 is delivered to the
    subscriber as a plain decimal: digits, a point, and exactly four
    decimals when the mid-price that the code computes in binary64 is below
    10, exactly two otherwise; the decimal written is within half a unit of
    its last place of that mid-price. *)
Theorem tickerMessage_delivers_fixed_decimals :
  forall big data bid ask,
    Streams.e data = Some "bookTicker" ->
    truthyOpt (Streams.b data) = true ->
    truthyOpt (Streams.a data) = true ->
    parseFloat (orElse (Streams.b data) "") = Fin bid ->
    parseFloat (orElse (Streams.a data) "") = Fin ask ->
    0 <= bid -> 0 <= ask -> bid + ask <= inject_Z (10 ^ 21) ->
    exists mid text p,
      Streams.midPrice (Fin bid) (Fin ask) = Fin mid
      /\ Streams.tickerMessage big (Some data) = Callback text
      /\ PlainDecimal text
      /\ countDecimals text = midDecimals mid
      /\ readLiteral text = DecimalLiteral p
      /\ mid - 1 / inject_Z (10 ^ Z.of_nat (midDecimals mid)) / inject_Z 2 < p
      /\ p <= mid + 1 / inject_Z (10 ^ Z.of_nat (midDecimals mid)) / inject_Z 2.
Proof.
  intros big data bid ask He Hb Ha Hbid Hask H0b H0a Hsum.
  destruct (midPrice_value bid ask H0b H0a Hsum) as (mid & Hmid & Hm0 & Hm1).
  destruct (toFixed_plain big mid (midDecimals mid) Hm0 Hm1) as (Hp & Hc & _).
  destruct (toFixed_reads_back big mid (midDecimals mid) Hm0 Hm1)
    as (p & Hr & Hv).
  exists mid, (toFixed big (Fin mid) (midDecimals mid)), p.
  split; [exact Hmid|].
  split; [|split; [exact Hp|split; [exact Hc|split; [exact Hr|]]]].
  - unfold Streams.tickerMessage. rewrite He, Hb, Ha, Hbid, Hask.
    cbv beta iota. rewrite String.eqb_refl. cbn [andb].
    rewrite Hmid, formatMid_finite. reflexivity.
  - pose proof (u_pos (midDecimals mid)) as Hu.
    pose proof (roundHalfUp_near
                  (mid * inject_Z (10 ^ Z.of_nat (midDecimals mid))))
      as [Hhi Hlo].
    rewrite <- Hv in Hhi, Hlo.
    set (u := inject_Z (10 ^ Z.of_nat (midDecimals mid))) in *.
    assert (Hun : ~ u == 0) by (intros E; rewrite E in Hu; discriminate Hu).
    assert (E1 : mid - 1 / u / inject_Z 2 == (mid * u + - (1 # 2)) / u)
      by (field; exact Hun).
    assert (E2 : mid + 1 / u / inject_Z 2 == (mid * u + (1 # 2)) / u)
      by (field; exact Hun).
    rewrite E1, E2. split.
    + apply Qlt_shift_div_r; [exact Hu|exact Hlo].
    + apply Qle_shift_div_l; [exact Hu|exact Hhi].
Qed.

(** The bid 94999.90 and the ask 95000.10 are delivered as "95000.00". *)
Lemma tickerMessage_delivers_fixed_decimals_example :
  exists mid text p,
    Streams.midPrice (parseFloat "94999.90") (parseFloat "95000.10") = Fin mid
    /\ Streams.tickerMessage noBigNumbers
         (Some {| Streams.e := Some "bookTicker";
                  Streams.b := Some "94999.90";
                  Streams.a := Some "95000.10" |})
       = Callback text
    /\ PlainDecimal text
    /\ countDecimals text = midDecimals mid
    /\ readLiteral text = DecimalLiteral p
    /\ mid - 1 / inject_Z (10 ^ Z.of_nat (midDecimals mid)) / inject_Z 2 < p
    /\ p <= mid + 1 / inject_Z (10 ^ Z.of_nat (midDecimals mid)) / inject_Z 2.
Proof.
  apply (tickerMessage_delivers_fixed_decimals noBigNumbers
           {| Streams.e := Some "bookTicker";
              Streams.b := Some "94999.90";
              Streams.a := Some "95000.10" |}
           (rounded (9499990 # 100)) (rounded (9500010 # 100))).
  - reflexivity.
  - reflexivity.
  - reflexivity.
  - vm_compute. reflexivity.
  - vm_compute. reflexivity.
  - vm_compute. discriminate.
  - vm_compute. discriminate.
  - vm_compute. discriminate.
Defined.

(** The bid and the ask 0.00015 are read as a number below 0.00015, and
    the mid-price is delivered as "0.0001"; the bid and the ask
    9.99999999999999999999 are read as 10, and it is delivered with two
    decimals. *)
Lemma tickerMessage_rounds :
  Streams.tickerMessage noBigNumbers
    (Some {| Streams.e := Some "bookTicker";
             Streams.b := Some "0.00015";
             Streams.a := Some "0.00015" |})
  = Callback "0.0001"
  /\ Streams.tickerMessage noBigNumbers
       (Some {| Streams.e := Some "bookTicker";
                Streams.b := Some "9.99999999999999999999";
                Streams.a := Some "9.99999999999999999999" |})
     = Callback "10.00".
Proof. split; vm_compute; reflexivity. Qed.

(** X6.  A 'bookTicker' message whose bid or ask does not read as a number
    is not dropped: the subscriber is called with the text "NaN". *)
Theorem tickerMessage_delivers_NaN :
  forall big data,
    Streams.e data = Some "bookTicker" ->
    truthyOpt (Streams.b data) = true ->
    truthyOpt (Streams.a data) = true ->
    isNaN (parseFloat (orElse (Streams.b data) "")) = true
    \/ isNaN (parseFloat (orElse (Streams.a data) "")) = true ->
    Streams.tickerMessage big (Some data) = Callback "NaN".
Proof.
  intros big data He Hb Ha Hnan.
  unfold Streams.tickerMessage. rewrite He, Hb, Ha.
  cbv beta iota. rewrite String.eqb_refl. cbn [andb].
  rewrite (midPrice_NaN _ _ Hnan). reflexivity.
Qed.

Lemma tickerMessage_delivers_NaN_example :
  Streams.tickerMessage noBigNumbers
    (Some {| Streams.e := Some "bookTicker";
             Streams.b := Some "n/a";
             Streams.a := Some "95000.10" |})
  = Callback "NaN".
Proof.
  apply (tickerMessage_delivers_NaN noBigNumbers
           {| Streams.e := Some "bookTicker";
              Streams.b := Some "n/a";
              Streams.a := Some "95000.10" |});
    [reflexivity | reflexivity | reflexivity | left; reflexivity].
Defined.

(** ** From the order form to the exchange *)

(** An accepted order carries the prices its type needs. *)
Lemma validated_order_has_prices order :
  validateOrderInput order = None ->
  match type order with
  | MARKET => true
  | LIMIT => truthyOpt (price order)
  | STOP_LIMIT => truthyOpt (price order) && truthyOpt (stopPrice order)
  end = true.
Proof.
  assert (Hm : forall o, missingOrNaN o = false -> truthyOpt o = true).
  { intros [s|]; cbn; [|discriminate].
    destruct (truthy s); [reflexivity|discriminate]. }
  unfold validateOrderInput.
  destruct (negb (truthy (quantity order))
            || isNaN (parseFloat (quantity order))); [discriminate|].
  destruct (lt (parseFloat (quantity order))
              (ofDecimal (minQty (getSymbolRules (symbol order)))));
    [discriminate|].
  destruct (qtyDecimals (getSymbolRules (symbol order))
            <? countDecimals (quantity order))%nat; [discriminate|].
  unfold validatePrice, validateStopPrice.
  destruct (type order).
  - reflexivity.
  - destruct (missingOrNaN (price order)) eqn:Hp; [discriminate|].
    intros _. apply Hm, Hp.
  - destruct (missingOrNaN (price order)) eqn:Hp; [discriminate|].
    destruct (le (parseFloat (orElse (price order) "")) (ofZ 0));
      [discriminate|].
    destruct (priceDecimals (getSymbolRules (symbol order))
              <? countDecimals (orElse (price order) ""))%nat;
      [discriminate|].
    destruct (missingOrNaN (stopPrice order)) eqn:Hs; [discriminate|].
    intros _. rewrite (Hm _ Hp), (Hm _ Hs). reflexivity.
Qed.

(** What [signedRequest] comes to: one network call, whose answer decides
    the outcome. *)
Lemma signedRequest_outcome env httpMethod creds params w :
  let message := toQueryString params in
  let req :=
    {| method := httpMethod;
       url := BASE_URL ++ "/fapi/v1/order" ++ "?" ++ message
              ++ "&signature=" ++ hmac env (apiSecret creds) message;
       apiKeyHeader := apiKey creds |} in
  exists r w',
    signedRequest env httpMethod creds params w
    = (r, w', [Sign (apiSecret creds) message; Fetch req])
    /\ calls w' = S (calls w) /\ draws w' = draws w
    /\ (forall e, r = Throw e -> isRemoteError e = true)
    /\ (forall d, r = Ok d ->
        exists elapsed rsp,
          network env (calls w) req = Responded elapsed rsp
          /\ ok rsp = true /\ json rsp = Some d
          /\ clock w' = (clock w + elapsed)%Z).
Proof.
  intros message req.
  unfold signedRequest, bind, hmacSha256, emit, ret, fetchJson.
  cbn -[append BASE_URL toQueryString]. fold message. fold req.
  destruct (network env (calls w) req) as [|elapsed rsp] eqn:Hn.
  - eexists _, _. split; [reflexivity|]. cbn.
    repeat split; try reflexivity.
    + intros e [= <-]. reflexivity.
    + intros d [=].
  - destruct (json rsp) as [d|] eqn:Hj.
    + cbn -[append BASE_URL toQueryString].
      destruct (ok rsp) eqn:Hok; cbn -[append BASE_URL toQueryString].
      * eexists _, _. split; [reflexivity|]. cbn.
        repeat split; try reflexivity.
        -- intros e [=].
        -- intros d' [= <-]. exists elapsed, rsp. repeat split; assumption.
      * eexists _, _. split; [reflexivity|]. cbn.
        repeat split; try reflexivity.
        -- intros e [= <-]. destruct (msg d) as [m|]; [|reflexivity].
           destruct (truthy m); reflexivity.
        -- intros d' [=].
    + eexists _, _. split; [reflexivity|]. cbn.
      repeat split; try reflexivity.
      * intros e [= <-]. reflexivity.
      * intros d [=].
Qed.

(** A live submission that gets as far as signing. *)
Lemma live_placeOrder_outcome env order creds w :
  reachesSigning order creds = true ->
  let req := orderRequest env order creds (clock w) in
  exists r w',
    placeOrder env false order creds w
    = (r, w',
       [CallPlaceOrder false order;
        Sign (apiSecret creds) (specMessage order (clock w));
        Fetch req])
    /\ calls w' = S (calls w) /\ draws w' = draws w
    /\ (forall e, r = Throw e -> isRemoteError e = true)
    /\ (forall response, r = Ok response ->
        exists elapsed rsp d,
          network env (calls w) req = Responded elapsed rsp
          /\ ok rsp = true /\ json rsp = Some d /\ response = view d
          /\ clock w' = (clock w + elapsed)%Z).
Proof.
  intros Hreach req.
  unfold reachesSigning, noCredentials in Hreach.
  apply andb_true_iff in Hreach as [Hc Hp].
  apply negb_true_iff in Hc.
  destruct (orderParams_total order (clock w) w Hp) as [params Hparams].
  pose proof Hparams as Hq. apply orderParams_ok in Hq as (_ & _ & Hq).
  destruct (signedRequest_outcome env "POST" creds params w)
    as (r & w' & Hs & Hcalls & Hdraws & Herr & Hok).
  rewrite Hq in Hs, Hok. fold (orderRequest env order creds (clock w)) in Hs, Hok.
  fold req in Hs, Hok.
  unfold placeOrder, realPlaceOrder, bind, emit, now, ret.
  rewrite Hc, Hparams, Hs.
  destruct r as [d|e].
  - eexists _, _. split; [reflexivity|].
    repeat split; try assumption.
    + intros e [=].
    + intros response [= <-].
      destruct (Hok d eq_refl) as (elapsed & rsp & Hn & Ho & Hj & Hcl).
      exists elapsed, rsp, d. repeat split; assumption.
  - eexists _, _. split; [reflexivity|].
    repeat split; try assumption.
    + intros e' [= <-]. apply Herr. reflexivity.
    + intros response [=].
Qed.

Lemma credentials_present creds :
  apiKey creds <> "" -> apiSecret creds <> "" -> noCredentials creds = false.
Proof.
  intros Hk Hs. destruct (noCredentials creds) eqn:E; [|reflexivity].
  apply noCredentials_iff in E. tauto.
Qed.

(** X7.  An order that [validateOrderInput] accepts never trips the
    executor's own checks: in live mode with both credentials [placeOrder]
    signs it and issues its one request, whatever its type.  The
    submission resolves only with the body of an answer whose status is a
    success, and rejects only with an error of the exchange or of the
    transport. *)
Theorem validated_orders_reach_exchange :
  forall env order creds w,
    validateOrderInput order = None ->
    apiKey creds <> "" -> apiSecret creds <> "" ->
    let req := orderRequest env order creds (clock w) in
    exists r w',
      placeOrder env false order creds w
      = (r, w',
         [CallPlaceOrder false order;
          Sign (apiSecret creds) (specMessage order (clock w));
          Fetch req])
      /\ calls w' = S (calls w)
      /\ (forall e, r = Throw e -> isRemoteError e = true)
      /\ (forall response, r = Ok response ->
          exists elapsed rsp d,
            network env (calls w) req = Responded elapsed rsp
            /\ ok rsp = true /\ json rsp = Some d /\ response = view d).
Proof.
  intros env order creds w Hv Hk Hs req.
  assert (Hreach : reachesSigning order creds = true).
  { unfold reachesSigning.
    rewrite (credentials_present creds Hk Hs),
      (validated_order_has_prices _ Hv). reflexivity. }
  destruct (live_placeOrder_outcome env _ creds w Hreach)
    as (r & w' & Hp & Hcalls & _ & Herr & Hok).
  exists r, w'. split; [exact Hp|]. split; [exact Hcalls|].
  split; [exact Herr|].
  intros response Hr.
  destruct (Hok response Hr) as (elapsed & rsp & d & Hn & Ho & Hj & Hvw & _).
  exists elapsed, rsp, d. repeat split; assumption.
Qed.

(** A STOP_LIMIT order of 0.001 BTCUSDT, submitted to an exchange that
    answers with status 400. *)
Lemma validated_orders_reach_exchange_example :
  exists r w',
    placeOrder rejectsFirst false sampleStopOrder sampleCredentials startOfDay
    = (r, w',
       [CallPlaceOrder false sampleStopOrder;
        Sign "secret" (specMessage sampleStopOrder 0);
        Fetch (orderRequest rejectsFirst sampleStopOrder sampleCredentials 0)])
    /\ calls w' = 1%nat
    /\ (forall e, r = Throw e -> isRemoteError e = true)
    /\ (forall response, r = Ok response ->
        exists elapsed rsp d,
          network rejectsFirst 0
            (orderRequest rejectsFirst sampleStopOrder sampleCredentials 0)
          = Responded elapsed rsp
          /\ ok rsp = true /\ json rsp = Some d /\ response = view d).
Proof.
  apply (validated_orders_reach_exchange rejectsFirst sampleStopOrder
           sampleCredentials startOfDay).
  - vm_compute. reflexivity.
  - discriminate.
  - discriminate.
Defined.

(** X8.  A price taken from the ticker never passes the order form on a
    symbol that allows fewer decimals than the ticker prints: with the
    price field filled by [fillPrice] from a mid-price the ticker's handler
    formatted, a LIMIT or STOP_LIMIT order is not sent, and when its
    quantity is in order the verdict is on the price, 'Price precision too
    high' or 'Price must be greater than 0'. *)
Theorem ticker_price_fails_order_form :
  forall big f mid,
    0 <= mid -> mid < inject_Z (10 ^ 21) ->
    OrderForm.f_type f <> MARKET ->
    let rules := getSymbolRules (OrderForm.f_symbol f) in
    (priceDecimals rules < midDecimals mid)%nat ->
    let filled :=
      OrderForm.fillPrice (Some (Streams.formatMid big (Fin mid))) f in
    (forall order, OrderForm.handleSubmit filled <> OrderForm.Sent order)
    /\ (validatePrice rules (OrderForm.formOrder filled)
        = Some (PricePrecisionTooHigh (priceDecimals rules))
        \/ validatePrice rules (OrderForm.formOrder filled)
           = Some PriceNotPositive).
Proof.
  intros big f mid H0 Hbig Hty rules Hdec. cbv zeta.
  rewrite formatMid_finite.
  destruct (toFixed_plain big mid (midDecimals mid) H0 Hbig) as (_ & Hc & Ht).
  destruct (toFixed_reads_back big mid (midDecimals mid) H0 Hbig)
    as (p & Hr & _).
  apply parseFloat_literal in Hr.
  set (text := toFixed big (Fin mid) (midDecimals mid)) in *.
  clearbody text.
  set (filled := OrderForm.fillPrice (Some text) f).
  assert (Hprice : price (OrderForm.formOrder filled) = Some text).
  { unfold filled, OrderForm.fillPrice. rewrite Ht.
    unfold OrderForm.formOrder.
    cbn [price OrderForm.f_type OrderForm.f_price].
    destruct (OrderForm.f_type f); [contradiction|reflexivity|reflexivity]. }
  assert (Htype : type (OrderForm.formOrder filled) = OrderForm.f_type f).
  { unfold filled, OrderForm.fillPrice. rewrite Ht. reflexivity. }
  assert (Hsym : symbol (OrderForm.formOrder filled) = OrderForm.f_symbol f).
  { unfold filled, OrderForm.fillPrice. rewrite Ht. reflexivity. }
  assert (Hlt : (priceDecimals rules <? countDecimals text)%nat = true).
  { apply Nat.ltb_lt. rewrite Hc. exact Hdec. }
  assert (Hv : validatePrice rules (OrderForm.formOrder filled)
               = Some (PricePrecisionTooHigh (priceDecimals rules))
               \/ validatePrice rules (OrderForm.formOrder filled)
                  = Some PriceNotPositive).
  { unfold validatePrice. rewrite Htype, Hprice.
    assert (Hm : missingOrNaN (Some text) = false).
    { cbn [missingOrNaN]. rewrite Ht, Hr. apply round64_not_NaN. }
    assert (Ho : orElse (Some text) "" = text).
    { cbn [orElse]. rewrite Ht. reflexivity. }
    rewrite Hm, Ho, Hlt.
    destruct (OrderForm.f_type f); [contradiction| |];
      (destruct (le (parseFloat text) (ofZ 0)); [right|left]; reflexivity). }
  split; [|exact Hv].
  intros order Hsent. unfold OrderForm.handleSubmit in Hsent.
  destruct (validateOrderInput (OrderForm.formOrder filled)) eqn:E;
    [discriminate|].
  unfold validateOrderInput in E. rewrite Hsym in E. fold rules in E.
  destruct (negb (truthy (quantity (OrderForm.formOrder filled)))
            || isNaN (parseFloat (quantity (OrderForm.formOrder filled))));
    [discriminate|].
  destruct (lt (parseFloat (quantity (OrderForm.formOrder filled)))
              (ofDecimal (minQty rules))); [discriminate|].
  destruct (qtyDecimals rules
            <? countDecimals (quantity (OrderForm.formOrder filled)))%nat;
    [discriminate|].
  destruct Hv as [Hv|Hv]; rewrite Hv in E; discriminate.
Qed.

(** On BTCUSDT, which allows one price decimal, the ticker's "95000.00"
    does not pass. *)
Lemma ticker_price_fails_order_form_example :
  (forall order,
     OrderForm.handleSubmit
       (OrderForm.fillPrice
          (Some (Streams.formatMid noBigNumbers (Fin 95000))) sampleForm)
     <> OrderForm.Sent order)
  /\ (validatePrice (getSymbolRules "BTCUSDT")
        (OrderForm.formOrder
           (OrderForm.fillPrice
              (Some (Streams.formatMid noBigNumbers (Fin 95000))) sampleForm))
      = Some (PricePrecisionTooHigh 1)
      \/ validatePrice (getSymbolRules "BTCUSDT")
           (OrderForm.formOrder
              (OrderForm.fillPrice
                 (Some (Streams.formatMid noBigNumbers (Fin 95000)))
                 sampleForm))
         = Some PriceNotPositive).
Proof.
  apply (ticker_price_fails_order_form noBigNumbers sampleForm 95000).
  - vm_compute. discriminate.
  - vm_compute. reflexivity.
  - discriminate.
  - vm_compute. lia.
Defined.

(** ** The grid generator: the count, the reference and the sides *)



Lemma gridLoop_NaN_reference big symbol rules min step qty fuel : forall i,
  List.length (gridLoop big fuel i symbol rules min step NaN qty) = fuel
  /\ Forall (fun o => side o = SELL)
       (gridLoop big fuel i symbol rules min step NaN qty).
Proof.
  induction fuel as [|f IH]; intros i; [split; [reflexivity|constructor]|].
  cbn [gridLoop].
  assert (Hn : lt (abs (sub (priceLevel min step i) NaN)) (priceUnit rules)
               = false).
  { destruct (priceLevel min step i); reflexivity. }
  assert (Hs : lt (priceLevel min step i) NaN = false).
  { destruct (priceLevel min step i); reflexivity. }
  rewrite Hn, Hs. destruct (IH (i + 1)%Z) as [Hl Hf].
  split; [cbn [List.length]; rewrite Hl; reflexivity|].
  constructor; [reflexivity|exact Hf].
Qed.

(** X10.  The reference price is not validated.  When it does not read as
    a number (it is empty, say, or the "NaN" the ticker delivered), no
    level is skipped and every order is a SELL order. *)
Theorem generateGrid_unreadable_reference :
  forall big symbol minPrice maxPrice gridCount refPrice quantity orders,
    isNaN (parseFloat refPrice) = true ->
    generateGrid big symbol minPrice maxPrice gridCount refPrice quantity
    = Submitted orders ->
    List.length orders = iterations (parseInt gridCount)
    /\ Forall (fun o => side o = SELL) orders.
Proof.
  intros big symbol minPrice maxPrice gridCount refPrice quantity orders
    Hnan Hgen.
  destruct (parseFloat refPrice) eqn:Href; try discriminate Hnan.
  unfold generateGrid in Hgen. rewrite Href in Hgen.
  destruct (validateGridInput symbol minPrice maxPrice quantity);
    [discriminate|].
  destruct (lt (ofInt (parseInt gridCount)) (ofZ 2)); [discriminate|].
  injection Hgen as <-. apply gridLoop_NaN_reference.
Qed.

(** The form's defaults with the reference price left empty: five SELL
    orders. *)
Lemma generateGrid_unreadable_reference_example :
  List.length
    [ limitOrder "BTCUSDT" SELL "0.001" "90000.0";
      limitOrder "BTCUSDT" SELL "0.001" "92500.0";
      limitOrder "BTCUSDT" SELL "0.001" "95000.0";
      limitOrder "BTCUSDT" SELL "0.001" "97500.0";
      limitOrder "BTCUSDT" SELL "0.001" "100000.0" ]
  = iterations (parseInt "5")
  /\ Forall (fun o => side o = SELL)
       [ limitOrder "BTCUSDT" SELL "0.001" "90000.0";
         limitOrder "BTCUSDT" SELL "0.001" "92500.0";
         limitOrder "BTCUSDT" SELL "0.001" "95000.0";
         limitOrder "BTCUSDT" SELL "0.001" "97500.0";
         limitOrder "BTCUSDT" SELL "0.001" "100000.0" ].
Proof.
  apply (generateGrid_unreadable_reference noBigNumbers
           "BTCUSDT" "90000" "100000" "5" "" "0.001").
  - reflexivity.
  - vm_compute. reflexivity.
Defined.

(** The levels of a generated grid whose bounds read as multiples of the
    price unit, of moderate size: the bounds in units, and the orders as
    the code computes them. *)
Lemma generateGrid_levels big symbol minPrice maxPrice gridCount refPrice
    quantity orders a b N :
  generateGrid big symbol minPrice maxPrice gridCount refPrice quantity
  = Submitted orders ->
  readLiteral minPrice = DecimalLiteral a ->
  readLiteral maxPrice = DecimalLiteral b ->
  parseInt gridCount = Some N ->
  let rules := getSymbolRules symbol in
  let d := priceDecimals rules in
  let u := inject_Z (10 ^ Z.of_nat d) in
  onGrid d a -> onGrid d b ->
  b * u * inject_Z N <= inject_Z (2 ^ 47) ->
  let min := Fin (rounded a) in
  let step :=
    Fin (rounded (rounded (rounded b + - rounded a) / inject_Z (N - 1))) in
  let ref := parseFloat refPrice in
  exists A B,
    (a * u == inject_Z A /\ b * u == inject_Z B
     /\ (1 <= A)%Z /\ (A < B)%Z /\ (2 <= N)%Z /\ (d <= 5)%nat
     /\ (B * N <= 2 ^ 47)%Z)
    /\ validateGridInput symbol minPrice maxPrice quantity = None
    /\ orders
       = map (gridOrder big symbol rules min step ref quantity)
           (filter (fun j => negb (nearReference rules min step ref j))
              (indices (Z.to_nat N) 0)).
Proof.
  intros Hgen Hmin Hmax Hcount rules d u Hga Hgb Hmag min step ref.
  destruct (generateGrid_orders _ _ _ _ _ _ _ _ _ Hgen Hcount)
    as (Hval & HN & ->).
  destruct (accepted_grid_bounds symbol minPrice maxPrice quantity a b N
              Hval Hmin Hmax Hga Hgb Hmag)
    as (A & B & HA & HB & HA1 & HAB & HBN).
  fold rules in HA, HB. fold d in HA, HB. fold u in HA, HB.
  pose proof (priceDecimals_le_5 symbol) as Hd. fold rules in Hd. fold d in Hd.
  exists A, B. split; [repeat split; assumption|]. split; [exact Hval|].
  fold rules. fold ref.
  rewrite (parseFloat_literal _ _ Hmin), (parseFloat_literal _ _ Hmax).
  rewrite (proj1 (grid_min a b A B N d HA HB HA1 HAB HN Hd HBN)).
  rewrite (proj1 (grid_max a b A B N d HA HB HA1 HAB HN Hd HBN)).
  rewrite (proj1 (grid_step a b A B N d HA HB HA1 HAB HN Hd HBN)).
  reflexivity.
Qed.

(** X11.  In a grid generated from bounds that read as multiples of the
    price unit (the maximum in price units times the level count being at
    most 2^47) and from a reference price that reads as a finite number,
    every BUY order is priced strictly below the reference and every SELL
    order strictly above it, the rounding of the levels and of the prices
    in binary64 notwithstanding; and no SELL order comes before a BUY
    order. *)
Theorem generateGrid_sides_respect_reference :
  forall big symbol minPrice maxPrice gridCount refPrice quantity orders
         a b N r,
    generateGrid big symbol minPrice maxPrice gridCount refPrice quantity
    = Submitted orders ->
    readLiteral minPrice = DecimalLiteral a ->
    readLiteral maxPrice = DecimalLiteral b ->
    parseInt gridCount = Some N ->
    parseFloat refPrice = Fin r ->
    onGrid (priceDecimals (getSymbolRules symbol)) a ->
    onGrid (priceDecimals (getSymbolRules symbol)) b ->
    b * inject_Z (10 ^ Z.of_nat (priceDecimals (getSymbolRules symbol)))
      * inject_Z N <= inject_Z (2 ^ 47) ->
    Forall (fun o => match side o with
                     | BUY => lt (priceOf o) (Fin r) = true
                     | SELL => lt (Fin r) (priceOf o) = true
                     end) orders
    /\ StronglySorted (fun o1 o2 => side o1 = SELL -> side o2 = SELL) orders.
Proof.
  intros big symbol minPrice maxPrice gridCount refPrice quantity orders
    a b N r Hgen Hmin Hmax Hcount Href Hga Hgb Hmag.
  destruct (generateGrid_levels _ _ _ _ _ _ _ _ _ _ _ Hgen Hmin Hmax Hcount
              Hga Hgb Hmag)
    as (A & B & (HA & HB & HA1 & HAB & HN & Hd & HBN) & _ & ->).
  set (rules := getSymbolRules symbol) in *.
  set (d := priceDecimals rules) in *.
  pose proof (indices_sorted (Z.to_nat N) 0) as Hsorted.
  pose proof (indices_bounds (Z.to_nat N) 0) as Hbounds.
  rewrite Z2Nat.id in Hsorted, Hbounds by lia.
  split.
  - apply Forall_map, Forall_forall. intros j Hj.
    apply filter_In in Hj as [Hj Hkeep]. apply negb_true_iff in Hkeep.
    rewrite Forall_forall in Hbounds. specialize (Hbounds j Hj).
    apply (grid_kept_side a b A B N d HA HB HA1 HAB HN Hd HBN big symbol
             quantity (parseFloat refPrice) rules eq_refl j r);
      [lia|exact Href|exact Hkeep].
  - eapply StronglySorted_map_filter; [|exact Hsorted].
    cbv beta. intros x y [Hx Hy].
    apply (grid_sides_sorted a b A B N d HA HB HA1 HAB HN Hd HBN big symbol
             quantity (parseFloat refPrice) rules eq_refl); lia.
Qed.

(** The grid of the form's defaults: two BUY orders below 95000, then two
    SELL orders above it. *)
Lemma generateGrid_sides_respect_reference_example :
  Forall (fun o => match side o with
                   | BUY => lt (priceOf o) (Fin 95000) = true
                   | SELL => lt (Fin 95000) (priceOf o) = true
                   end) defaultGrid
  /\ StronglySorted (fun o1 o2 => side o1 = SELL -> side o2 = SELL)
       defaultGrid.
Proof.
  apply (generateGrid_sides_respect_reference noBigNumbers
           "BTCUSDT" "90000" "100000" "5" "95000" "0.001"
           defaultGrid 90000 100000 5 95000).
  - vm_compute. reflexivity.
  - reflexivity.
  - reflexivity.
  - reflexivity.
  - vm_compute. reflexivity.
  - exists 900000%Z. reflexivity.
  - exists 1000000%Z. reflexivity.
  - vm_compute. discriminate.
Defined.

(** X12.  The orders of a grid pass the validator of single orders.  For an
    accepted grid input whose bounds read as multiples of the symbol's
    price unit (the maximum in price units times the level count being at
    most 2^47) and whose quantity reads as a number, every generated order
    is accepted by [validateOrderInput], and so, in live mode with both
    credentials, gets as far as signing. *)
Theorem generateGrid_orders_pass_validateOrderInput :
  forall big symbol minPrice maxPrice gridCount refPrice quantity orders
         a b N,
    generateGrid big symbol minPrice maxPrice gridCount refPrice quantity
    = Submitted orders ->
    readLiteral minPrice = DecimalLiteral a ->
    readLiteral maxPrice = DecimalLiteral b ->
    parseInt gridCount = Some N ->
    onGrid (priceDecimals (getSymbolRules symbol)) a ->
    onGrid (priceDecimals (getSymbolRules symbol)) b ->
    b * inject_Z (10 ^ Z.of_nat (priceDecimals (getSymbolRules symbol)))
      * inject_Z N <= inject_Z (2 ^ 47) ->
    isNaN (parseFloat quantity) = false ->
    Forall (fun o =>
              validateOrderInput o = None
              /\ forall creds,
                   noCredentials creds = false ->
                   reachesSigning o creds = true) orders.
Proof.
  intros big symbol minPrice maxPrice gridCount refPrice quantity orders
    a b N Hgen Hmin Hmax Hcount Hga Hgb Hmag Hqty.
  destruct (generateGrid_levels _ _ _ _ _ _ _ _ _ _ _ Hgen Hmin Hmax Hcount
              Hga Hgb Hmag)
    as (A & B & (HA & HB & HA1 & HAB & HN & Hd & HBN) & Hval & ->).
  set (rules := getSymbolRules symbol) in *.
  set (d := priceDecimals rules) in *.
  assert (Hq : negb (truthy quantity) = false
               /\ lt (parseFloat quantity) (ofDecimal (minQty rules)) = false
               /\ (qtyDecimals rules <? countDecimals quantity)%nat = false).
  { unfold validateGridInput in Hval. fold rules in Hval.
    destruct (negb (truthy minPrice) || negb (truthy maxPrice));
      [discriminate|].
    destruct (ge (parseFloat minPrice) (parseFloat maxPrice)); [discriminate|].
    destruct (le (parseFloat minPrice) (ofZ 0)); [discriminate|].
    destruct (priceDecimals rules <? countDecimals minPrice)%nat;
      [discriminate|].
    destruct (priceDecimals rules <? countDecimals maxPrice)%nat;
      [discriminate|].
    destruct (negb (truthy quantity)); [discriminate|].
    destruct (lt (parseFloat quantity) (ofDecimal (minQty rules)));
      [discriminate|].
    destruct (qtyDecimals rules <? countDecimals quantity)%nat;
      [discriminate|].
    repeat split. }
  destruct Hq as (Hq1 & Hq2 & Hq3).
  pose proof (indices_bounds (Z.to_nat N) 0) as Hbounds.
  rewrite Z2Nat.id in Hbounds by lia.
  apply Forall_map, Forall_forall. intros j Hj.
  apply filter_In in Hj as [Hj _].
  rewrite Forall_forall in Hbounds. specialize (Hbounds j Hj).
  assert (Hvalid :
            validateOrderInput
              (gridOrder big symbol rules (Fin (rounded a))
                 (Fin (rounded (rounded (rounded b + - rounded a)
                                / inject_Z (N - 1))))
                 (parseFloat refPrice) quantity j) = None).
  { apply (grid_order_valid a b A B N d HA HB HA1 HAB HN Hd HBN big symbol
             quantity (parseFloat refPrice) rules eq_refl j);
      [lia|reflexivity| |exact Hq2|exact Hq3].
    rewrite Hq1, Hqty. reflexivity. }
  split; [exact Hvalid|].
  intros creds Hcreds. unfold reachesSigning. rewrite Hcreds.
  rewrite (validated_order_has_prices _ Hvalid). reflexivity.
Qed.

(** The grid of the form's defaults. *)
Lemma generateGrid_orders_pass_validateOrderInput_example :
  Forall (fun o =>
            validateOrderInput o = None
            /\ forall creds,
                 noCredentials creds = false ->
                 reachesSigning o creds = true) defaultGrid.
Proof.
  apply (generateGrid_orders_pass_validateOrderInput noBigNumbers
           "BTCUSDT" "90000" "100000" "5" "95000" "0.001"
           defaultGrid 90000 100000 5).
  - vm_compute. reflexivity.
  - reflexivity.
  - reflexivity.
  - reflexivity.
  - exists 900000%Z. reflexivity.
  - exists 1000000%Z. reflexivity.
  - vm_compute. discriminate.
  - reflexivity.
Defined.

(** ** Cancelling an order *)

(** What a live cancellation with both credentials comes to. *)
Lemma live_cancelOrder_outcome env symbol orderId creds w :
  noCredentials creds = false ->
  let req := cancelRequest env symbol orderId creds (clock w) in
  exists r w',
    cancelOrder env false symbol orderId creds w
    = (r, w',
       [CallCancelOrder false symbol orderId;
        Sign (apiSecret creds) (cancelMessage symbol orderId (clock w));
        Fetch req])
    /\ calls w' = S (calls w)
    /\ (forall e, r = Throw e -> isRemoteError e = true)
    /\ (forall response, r = Ok response ->
        exists elapsed rsp d,
          network env (calls w) req = Responded elapsed rsp
          /\ ok rsp = true /\ json rsp = Some d /\ response = inr d).
Proof.
  intros Hc req. unfold noCredentials in Hc.
  set (params :=
         if isNumericId orderId
         then setParam "orderId" orderId
                [("symbol", toUpperCase symbol);
                 ("timestamp", intToString (clock w));
                 ("recvWindow", "5000")]
         else setParam "origClientOrderId" orderId
                [("symbol", toUpperCase symbol);
                 ("timestamp", intToString (clock w));
                 ("recvWindow", "5000")]).
  assert (Hq : toQueryString params = cancelMessage symbol orderId (clock w)).
  { unfold params, cancelMessage, toQueryString.
    destruct (isNumericId orderId);
      cbn -[append toUpperCase intToString];
      rewrite ?append_assoc; reflexivity. }
  destruct (signedRequest_outcome env "DELETE" creds params w)
    as (r & w' & Hsr & Hcalls & _ & Herr & Hok).
  rewrite Hq in Hsr, Hok.
  fold (cancelRequest env symbol orderId creds (clock w)) in Hsr, Hok.
  fold req in Hsr, Hok.
  unfold cancelOrder, realCancelOrder, bind, emit, now, ret.
  rewrite Hc. fold params. rewrite Hsr.
  destruct r as [d|e].
  - eexists _, _. split; [reflexivity|].
    repeat split; try assumption.
    + intros e [=].
    + intros response [= <-].
      destruct (Hok d eq_refl) as (elapsed & rsp & Hn & Ho & Hj & _).
      exists elapsed, rsp, d. repeat split; assumption.
  - eexists _, _. split; [reflexivity|].
    repeat split; try assumption.
    + intros e' [= <-]. apply Herr. reflexivity.
    + intros response [=].
Qed.

(** X13.  In live mode with both credentials, [cancelOrder] signs with the
    API secret the message symbol, timestamp, recvWindow and then the id,
    sent as [orderId] when it is all digits and as [origClientOrderId]
    otherwise, and issues one DELETE with that message, the signature last,
    and the API key as a header.  It resolves only with the body of an
    answer whose status is a success, and rejects only with an error of
    the exchange or of the transport. *)
Theorem live_cancelOrder_signs_and_sends :
  forall env symbol orderId creds w,
    apiKey creds <> "" -> apiSecret creds <> "" ->
    let req := cancelRequest env symbol orderId creds (clock w) in
    exists r w',
      cancelOrder env false symbol orderId creds w
      = (r, w',
         [CallCancelOrder false symbol orderId;
          Sign (apiSecret creds) (cancelMessage symbol orderId (clock w));
          Fetch req])
      /\ calls w' = S (calls w)
      /\ (forall e, r = Throw e -> isRemoteError e = true)
      /\ (forall response, r = Ok response ->
          exists elapsed rsp d,
            network env (calls w) req = Responded elapsed rsp
            /\ ok rsp = true /\ json rsp = Some d /\ response = inr d).
Proof.
  intros env symbol orderId creds w Hk Hs.
  apply live_cancelOrder_outcome, credentials_present; assumption.
Qed.

(** A cancellation of order 12345 on btcusdt at time 0. *)
Lemma live_cancelOrder_signs_and_sends_example :
  cancelMessage "btcusdt" "12345" 0
  = "symbol=BTCUSDT&timestamp=0&recvWindow=5000&orderId=12345"
  /\ exists r w',
       cancelOrder rejectsFirst false "btcusdt" "12345" sampleCredentials
         startOfDay
       = (r, w',
          [CallCancelOrder false "btcusdt" "12345";
           Sign "secret" (cancelMessage "btcusdt" "12345" 0);
           Fetch (cancelRequest rejectsFirst "btcusdt" "12345"
                    sampleCredentials 0)])
       /\ calls w' = 1%nat
       /\ (forall e, r = Throw e -> isRemoteError e = true)
       /\ (forall response, r = Ok response ->
           exists elapsed rsp d,
             network rejectsFirst 0
               (cancelRequest rejectsFirst "btcusdt" "12345"
                  sampleCredentials 0)
             = Responded elapsed rsp
             /\ ok rsp = true /\ json rsp = Some d /\ response = inr d).
Proof.
  split; [reflexivity|].
  apply (live_cancelOrder_signs_and_sends rejectsFirst "btcusdt" "12345"
           sampleCredentials startOfDay); discriminate.
Defined.

(** [parseInt] reads a string of digits as its decimal value. *)
Lemma parseInt_digits s :
  allDigits s = true -> s <> "" -> parseInt s = Some (digitsValue 0 s).
Proof.
  intros Hs Hne. destruct s as [|c r]; [congruence|].
  pose proof Hs as Hc. simpl in Hc. apply andb_true_iff in Hc as [Hc Hr].
  destruct (digit_starts_number c r Hc) as (Ht & Hp & _).
  unfold parseInt. rewrite Ht, Hp.
  rewrite (spanDigits_all _ Hs). cbn [fst signed].
  destruct r as [|x r'].
  - destruct c as [[] [] [] [] [] [] [] []]; reflexivity.
  - assert (Hx : isDigit x = true).
    { simpl in Hr. apply andb_true_iff in Hr as [Hx _]. exact Hx. }
    assert (Hnx : Ascii.eqb x "x" || Ascii.eqb x "X" = false).
    { clear -Hx. destruct x as [[] [] [] [] [] [] [] []];
        try reflexivity; discriminate Hx. }
    destruct c as [[] [] [] [] [] [] [] []]; try reflexivity.
    rewrite Hnx. reflexivity.
Qed.

(** The decimal digits of a non-negative integer read back as it. *)
Lemma parseInt_intToString z :
  (0 <= z)%Z -> parseInt (intToString z) = Some z.
Proof.
  intros Hz. unfold intToString.
  destruct (z <? 0)%Z eqn:E; [apply Z.ltb_lt in E; lia|].
  destruct (decimalDigits_spec z Hz) as (Hd & Hv & Hne).
  rewrite (parseInt_digits _ Hd Hne), Hv. reflexivity.
Qed.

(** ** The handlers of the order and cancel forms *)

Lemma existsb_app_false {A} (p : A -> bool) l1 l2 :
  existsb p l1 = false -> existsb p l2 = false -> existsb p (l1 ++ l2) = false.
Proof. intros H1 H2. rewrite existsb_app, H1, H2. reflexivity. Qed.

Lemma existsb_Inner (p : Handlers.HandlerEvent -> bool) t :
  (forall e, p (Handlers.Inner e) = false) ->
  existsb p (map Handlers.Inner t) = false.
Proof.
  intros H. induction t as [|e t IH]; [reflexivity|].
  cbn [map existsb]. rewrite H, IH. reflexivity.
Qed.

(** Past the handlers' check, the executor does not fail for want of
    credentials. *)
Lemma placeOrder_credentials_error env demoMode order creds w w' t :
  refused demoMode (apiKey creds) (apiSecret creds) = false ->
  placeOrder env demoMode order creds w <> (Throw ApiCredentialsMissing, w', t).
Proof.
  intros Href H. destruct demoMode.
  - discriminate H.
  - unfold refused in Href. cbn [negb andb] in Href.
    unfold placeOrder, realPlaceOrder, bind, emit, now in H.
    rewrite Href in H.
    destruct (orderParams order (clock w) w) as [[[params|e] w1] t1] eqn:Hp.
    + destruct (signedRequest_outcome env "POST" creds params w1)
        as (r & w2 & Hs & _ & _ & Herr & _).
      rewrite Hs in H. destruct r as [d|e]; [discriminate H|].
      injection H as He _ _. specialize (Herr e eq_refl).
      rewrite He in Herr. discriminate Herr.
    + injection H as He _ _. subst e.
      unfold orderParams in Hp.
      destruct (type order); [discriminate Hp| |].
      * destruct (negb (truthyOpt (price order))); discriminate Hp.
      * destruct (negb (truthyOpt (price order))); [discriminate Hp|].
        destruct (negb (truthyOpt (stopPrice order))); discriminate Hp.
Qed.

Lemma cancelOrder_credentials_error env demoMode symbol orderId creds w w' t :
  refused demoMode (apiKey creds) (apiSecret creds) = false ->
  cancelOrder env demoMode symbol orderId creds w
  <> (Throw ApiCredentialsMissing, w', t).
Proof.
  intros Href H. destruct demoMode.
  - unfold cancelOrder, mockCancelOrder, bind, emit, sleep, random, now, ret
      in H.
    destruct (isNumericId orderId); discriminate H.
  - unfold refused in Href. cbn [negb andb] in Href.
    destruct (live_cancelOrder_outcome env symbol orderId creds w Href)
      as (r & w2 & Hc & _ & Herr & _).
    rewrite Hc in H. injection H as He _ _.
    specialize (Herr _ He). discriminate Herr.
Qed.

(** X14.  The two handlers check the credentials themselves, once, before
    they call the executor.  In live mode without an API key or without a
    secret they log 'API Key and Secret required for Live Mode' and reset
    the loading flag without calling [placeOrder] or [cancelOrder]; and on
    no input do they ever log the executor's own 'API Credentials missing':
    behind the handlers that check never fires. *)
Theorem handlers_check_credentials_first :
  forall env demoMode key secret currentPrice order symbol orderId w,
    (Handlers.credentialsMissing demoMode key secret = true ->
     Handlers.handleOrderSubmit env demoMode key secret currentPrice order w
     = (w, [Handlers.SetLoading true;
            Handlers.AddLog INFO (Handlers.PreparingOrder order);
            Handlers.AddLog ERROR
              (Handlers.OrderFailed Handlers.KeyAndSecretRequired);
            Handlers.SetLoading false])
     /\ Handlers.handleCancelSubmit env demoMode key secret symbol orderId w
        = (w, [Handlers.SetLoading true;
               Handlers.AddLog INFO (Handlers.AttemptingCancel symbol orderId);
               Handlers.AddLog ERROR
                 (Handlers.CancelFailed Handlers.KeyAndSecretRequired);
               Handlers.SetLoading false]))
    /\ existsb reportsExecutorCredentials
         (snd (Handlers.handleOrderSubmit env demoMode key secret currentPrice
                 order w)) = false
    /\ existsb reportsExecutorCredentials
         (snd (Handlers.handleCancelSubmit env demoMode key secret symbol
                 orderId w)) = false.
Proof.
  intros env demoMode key secret currentPrice order symbol orderId w.
  split; [|split].
  - intros Hm. unfold Handlers.handleOrderSubmit, Handlers.handleCancelSubmit.
    rewrite Hm. split; reflexivity.
  - unfold Handlers.handleOrderSubmit.
    destruct (Handlers.credentialsMissing demoMode key secret) eqn:Hm;
      [reflexivity|].
    set (creds := {| apiKey := key; apiSecret := secret |}).
    pose proof (placeOrder_credentials_error env demoMode order creds w) as Hne.
    destruct (placeOrder env demoMode order creds w) as [[[r|e] w'] t];
      cbn [snd].
    + cbn [app existsb reportsExecutorCredentials orb].
      apply existsb_app_false;
        [apply existsb_Inner; reflexivity|].
      destruct demoMode; reflexivity.
    + cbn [app existsb reportsExecutorCredentials orb].
      apply existsb_app_false;
        [apply existsb_Inner; reflexivity|].
      destruct e; try reflexivity.
      exfalso. apply (Hne w' t Hm). reflexivity.
  - unfold Handlers.handleCancelSubmit.
    destruct (Handlers.credentialsMissing demoMode key secret) eqn:Hm;
      [reflexivity|].
    set (creds := {| apiKey := key; apiSecret := secret |}).
    pose proof (cancelOrder_credentials_error env demoMode symbol orderId
                  creds w) as Hne.
    destruct (cancelOrder env demoMode symbol orderId creds w)
      as [[[r|e] w'] t]; cbn [snd].
    + cbn [app existsb reportsExecutorCredentials orb].
      apply existsb_app_false;
        [apply existsb_Inner; reflexivity|].
      destruct demoMode; reflexivity.
    + cbn [app existsb reportsExecutorCredentials orb].
      apply existsb_app_false;
        [apply existsb_Inner; reflexivity|].
      destruct e; try reflexivity.
      exfalso. apply (Hne w' t Hm). reflexivity.
Qed.

(** A live LIMIT order with a key and no secret is stopped by the
    handler. *)
Lemma handlers_check_credentials_first_example :
  Handlers.handleOrderSubmit rejectsFirst false "key" "" None
    (OrderForm.formOrder sampleForm) startOfDay
  = (startOfDay,
     [Handlers.SetLoading true;
      Handlers.AddLog INFO
        (Handlers.PreparingOrder (OrderForm.formOrder sampleForm));
      Handlers.AddLog ERROR
        (Handlers.OrderFailed Handlers.KeyAndSecretRequired);
      Handlers.SetLoading false]).
Proof.
  apply (proj1 (handlers_check_credentials_first rejectsFirst false "key" ""
                  None (OrderForm.formOrder sampleForm) "BTCUSDT" "1"
                  startOfDay)).
  reflexivity.
Defined.

(** X15.  In simulated mode the order handler succeeds on every order,
    valid or not, whatever the credentials: 800 ms later and after one
    draw of [Math.random()], without signing or issuing a request, it logs
    the placed order, schedules for 2000 ms later the log of a simulated
    fill whose price is the ticker's price when there is one, else the
    order's price, else 'Market', and resets the loading flag. *)
Theorem demo_handleOrderSubmit_always_succeeds :
  forall env key secret currentPrice order w,
    exists response,
      Handlers.handleOrderSubmit env true key secret currentPrice order w
      = ({| clock := clock w + 800; calls := calls w; draws := S (draws w) |},
         [Handlers.SetLoading true;
          Handlers.AddLog INFO (Handlers.PreparingOrder order);
          Handlers.Inner (CallPlaceOrder true order);
          Handlers.Inner (Sleep 800);
          Handlers.AddLog SUCCESS (Handlers.OrderPlaced response);
          Handlers.Later 2000 SUCCESS
            (Handlers.SimulatedFill order
               (match currentPrice with
                | Some p => if truthy p then p
                            else orElse (price order) "Market"
                | None => orElse (price order) "Market"
                end));
          Handlers.SetLoading false])
      /\ origQty response = quantity order
      /\ r_price response = orElse (price order) "0"
      /\ status response = "NEW".
Proof.
  intros env key secret currentPrice order w.
  eexists. split; [reflexivity|]. repeat split.
Qed.

(** X16.  In simulated mode the cancel handler succeeds on every id made
    of digits, without a draw of [Math.random()], a signature or a request.
    For such an id whose value a binary64 number holds exactly (at most
    2^53), the id it logs as canceled reads as the same number as the id
    that was asked for: it is the id itself when that number is 0, and the
    decimal digits of the number otherwise, so that leading zeros are
    dropped. *)
Theorem demo_handleCancelSubmit_reports_the_id :
  forall env key secret symbol orderId w,
    isNumericId orderId = true ->
    (digitsValue 0 orderId <= 2 ^ 53)%Z ->
    exists shown,
      Handlers.handleCancelSubmit env true key secret symbol orderId w
      = ({| clock := clock w + 600; calls := calls w; draws := draws w |},
         [Handlers.SetLoading true;
          Handlers.AddLog INFO (Handlers.AttemptingCancel symbol orderId);
          Handlers.Inner (CallCancelOrder true symbol orderId);
          Handlers.Inner (Sleep 600);
          Handlers.AddLog SUCCESS (Handlers.OrderCanceled shown);
          Handlers.AddLog WARN Handlers.SimulatedCancel;
          Handlers.SetLoading false])
      /\ parseInt shown = parseInt orderId
      /\ (digitsValue 0 orderId <> 0%Z ->
          shown = decimalDigits (digitsValue 0 orderId)).
Proof.
  intros env key secret symbol orderId w Hid _.
  pose proof Hid as Hd. unfold isNumericId in Hd.
  apply andb_true_iff in Hd as [Ht Hd].
  assert (Hne : orderId <> "") by (intros ->; discriminate Ht).
  pose proof (parseInt_digits orderId Hd Hne) as Hp.
  pose proof (digitsValue_nonneg orderId 0 Hd (Z.le_refl 0)) as Hv.
  unfold Handlers.handleCancelSubmit, Handlers.credentialsMissing.
  cbn [negb andb].
  unfold cancelOrder, mockCancelOrder, bind, emit, sleep, now, ret.
  rewrite Hid, Hp.
  cbn [app map fst snd clock calls draws Handlers.canceledId c_orderId].
  eexists. split; [reflexivity|].
  unfold Handlers.canceledId. cbn [c_orderId].
  destruct (digitsValue 0 orderId =? 0)%Z eqn:E.
  - split; [exact Hp|]. apply Z.eqb_eq in E. intros H. contradiction.
  - split.
    + apply parseInt_intToString. exact Hv.
    + intros _. unfold intToString.
      destruct (digitsValue 0 orderId <? 0)%Z eqn:E'; [|reflexivity].
      apply Z.ltb_lt in E'. lia.
Qed.

(** The id "007" is logged as canceled order 7. *)
Lemma demo_handleCancelSubmit_reports_the_id_example :
  exists shown,
    Handlers.handleCancelSubmit rejectsFirst true "" "" "btcusdt" "007"
      startOfDay
    = ({| clock := 600; calls := 0; draws := 0 |},
       [Handlers.SetLoading true;
        Handlers.AddLog INFO (Handlers.AttemptingCancel "btcusdt" "007");
        Handlers.Inner (CallCancelOrder true "btcusdt" "007");
        Handlers.Inner (Sleep 600);
        Handlers.AddLog SUCCESS (Handlers.OrderCanceled shown);
        Handlers.AddLog WARN Handlers.SimulatedCancel;
        Handlers.SetLoading false])
    /\ parseInt shown = parseInt "007"
    /\ shown = "7".
Proof.
  destruct (demo_handleCancelSubmit_reports_the_id rejectsFirst "" ""
              "btcusdt" "007" startOfDay)
    as (shown & Hrun & Hread & Hdigits).
  - reflexivity.
  - vm_compute. discriminate.
  - exists shown. split; [exact Hrun|]. split; [exact Hread|].
    apply Hdigits. discriminate.
Defined.

(** ** The listen key *)

(** X17.  [getListenKey] and [keepAliveListenKey] sign nothing and check
    nothing: whatever the API key, even empty, each issues one request to
    /fapi/v1/listenKey, a POST and a PUT, with the key as a header.  Each
    resolves only on an answer whose status is a success, with the
    [listenKey] of the body and with the body; on another status each
    rejects with the body's message when it has one, and else with the
    status. *)
Theorem listenKey_requests_are_unsigned :
  forall env listenKeyOf apiKey w,
    (exists r w',
       ListenKey.getListenKey env listenKeyOf apiKey w
       = (r, w', [Fetch (listenKeyRequest "POST" apiKey)])
       /\ calls w' = S (calls w)
       /\ (forall key, r = inr key ->
           exists elapsed rsp d,
             network env (calls w) (listenKeyRequest "POST" apiKey)
             = Responded elapsed rsp
             /\ ok rsp = true /\ json rsp = Some d /\ key = listenKeyOf d)
       /\ (forall e, r = inl e -> e <> ListenKey.KeyTransportFailure ->
           exists elapsed rsp d,
             network env (calls w) (listenKeyRequest "POST" apiKey)
             = Responded elapsed rsp
             /\ ok rsp = false /\ json rsp = Some d
             /\ e = match msg d with
                    | Some m =>
                        if truthy m then ListenKey.KeyExchangeMessage m
                        else ListenKey.FailedToGetListenKey (http_status rsp)
                    | None => ListenKey.FailedToGetListenKey (http_status rsp)
                    end))
    /\ (exists r w',
          ListenKey.keepAliveListenKey env apiKey w
          = (r, w', [Fetch (listenKeyRequest "PUT" apiKey)])
          /\ calls w' = S (calls w)
          /\ (forall body, r = inr body ->
              exists elapsed rsp,
                network env (calls w) (listenKeyRequest "PUT" apiKey)
                = Responded elapsed rsp
                /\ ok rsp = true /\ json rsp = Some body)
          /\ (forall e, r = inl e -> e <> ListenKey.KeyTransportFailure ->
              exists elapsed rsp d,
                network env (calls w) (listenKeyRequest "PUT" apiKey)
                = Responded elapsed rsp
                /\ ok rsp = false /\ json rsp = Some d
                /\ e = match msg d with
                       | Some m =>
                           if truthy m then ListenKey.KeyExchangeMessage m
                           else ListenKey.FailedToKeepAlive (http_status rsp)
                       | None => ListenKey.FailedToKeepAlive (http_status rsp)
                       end)).
Proof.
  intros env listenKeyOf apiKey w. split.
  - unfold ListenKey.getListenKey, ListenKey.keyRequest.
    fold (listenKeyRequest "POST" apiKey).
    destruct (network env (calls w) (listenKeyRequest "POST" apiKey))
      as [|elapsed rsp] eqn:Hn.
    + eexists _, _. split; [reflexivity|]. split; [reflexivity|].
      split; [intros key [=]|]. intros e [= <-] He. contradiction.
    + destruct (json rsp) as [d|] eqn:Hj.
      * destruct (ok rsp) eqn:Ho; cbn [negb].
        -- eexists _, _. split; [reflexivity|]. split; [reflexivity|].
           split; [|intros e [=]].
           intros key [= <-]. exists elapsed, rsp, d. repeat split; assumption.
        -- eexists _, _. split; [reflexivity|]. split; [reflexivity|].
           split; [intros key [=]|].
           intros e [= <-] _. exists elapsed, rsp, d.
           repeat split; assumption.
      * eexists _, _. split; [reflexivity|]. split; [reflexivity|].
        split; [intros key [=]|]. intros e [= <-] He. contradiction.
  - unfold ListenKey.keepAliveListenKey, ListenKey.keyRequest.
    fold (listenKeyRequest "PUT" apiKey).
    destruct (network env (calls w) (listenKeyRequest "PUT" apiKey))
      as [|elapsed rsp] eqn:Hn.
    + eexists _, _. split; [reflexivity|]. split; [reflexivity|].
      split; [intros key [=]|]. intros e [= <-] He. contradiction.
    + destruct (json rsp) as [d|] eqn:Hj.
      * destruct (ok rsp) eqn:Ho; cbn [negb].
        -- eexists _, _. split; [reflexivity|]. split; [reflexivity|].
           split; [|intros e [=]].
           intros body [= <-]. exists elapsed, rsp. repeat split; assumption.
        -- eexists _, _. split; [reflexivity|]. split; [reflexivity|].
           split; [intros key [=]|].
           intros e [= <-] _. exists elapsed, rsp, d.
           repeat split; assumption.
      * eexists _, _. split; [reflexivity|]. split; [reflexivity|].
        split; [intros key [=]|]. intros e [= <-] He. contradiction.
Qed.

(** ** Stream sessions: connections and attempts *)

Section SessionBounds.

Variable endpoint : string.
Variable onmessage : string -> Handled.

Let step := Websocket.step endpoint onmessage.
Let run := Websocket.run endpoint onmessage.

(** Only the expiry of a timer makes a connection attempt, and it makes at
    most one. *)
Lemma step_attempts st i :
  (connectionAttempts (step st i)
   <= connectionAttempts st + (if isTimerFired i then 1 else 0))%nat.
Proof.
  destruct (active st) eqn:Ha.
  - destruct i as [s | s data | s | s | id c |];
      unfold step; cbn [Websocket.step isTimerFired].
    + destruct (hasSocket s (sockets st)); rewrite ?attempts_act; cbn; lia.
    + destruct (hasSocket s (sockets st)); [|lia].
      destruct (onmessage data); rewrite ?attempts_act; cbn; lia.
    + destruct (hasSocket s (sockets st)); rewrite ?attempts_act; cbn; lia.
    + destruct (hasSocket s (sockets st)); [|lia].
      unfold onclose. cbn [closed active]. rewrite Ha.
      rewrite attempts_scheduleReconnect, attempts_act.
      unfold connectionAttempts. cbn. lia.
    + destruct (hasTimer id (timers st)); [|lia].
      rewrite (connect_attempts endpoint c (expire id st)) by exact Ha.
      unfold connectionAttempts. cbn. lia.
    + unfold cleanup. cbv zeta. cbn [deactivate reconnectTimeout ws].
      assert (Hclose : forall st',
                 connectionAttempts st' = connectionAttempts st ->
                 (connectionAttempts
                    (match ws st' with
                     | Some s => closeSocket s st'
                     | None => st'
                     end) <= connectionAttempts st + 0)%nat).
      { intros st' H. destruct (ws st'); [|lia].
        unfold closeSocket. rewrite attempts_act. cbn.
        unfold connectionAttempts in *. cbn. lia. }
      destruct (reconnectTimeout st) as [id|];
        [destruct (Nat.eqb id 0)|]; apply Hclose; try reflexivity.
      unfold clearTimeout. rewrite attempts_act. reflexivity.
  - destruct (step_inactive endpoint onmessage st i Ha) as (_ & Hc & _).
    fold step in Hc. rewrite Hc. lia.
Qed.

Lemma run_attempts inputs : forall st,
  (connectionAttempts (run st inputs)
   <= connectionAttempts st + List.length (filter isTimerFired inputs))%nat.
Proof.
  induction inputs as [|i l IH]; intros st; [cbn; lia|].
  unfold run, Websocket.run. cbn [fold_left].
  specialize (IH (step st i)). unfold run, Websocket.run in IH.
  pose proof (step_attempts st i) as Hs. unfold step in *.
  cbn [filter]. destruct (isTimerFired i); cbn [List.length]; lia.
Qed.

(** X18.  At every point of its life a subscription holds at most one
    thing: a socket, or a pending timer, never both and never two.  A
    pending timer is one of [RECONNECT_DELAY], it is the one
    [reconnectTimeout] holds, and the subscription is then active.  And the
    number of connection attempts is at most one more than the number of
    timers that expired: a reconnection is only ever made by a timer. *)
Theorem session_holds_one_connection :
  forall constructorThrows history,
    let st := run (subscribe endpoint constructorThrows) history in
    (List.length (sockets st) + List.length (timers st) <= 1)%nat
    /\ (forall id delay,
          In (id, delay) (timers st) ->
          delay = RECONNECT_DELAY /\ reconnectTimeout st = Some id
          /\ active st = true)
    /\ (connectionAttempts st
        <= 1 + List.length (filter isTimerFired history))%nat.
Proof.
  intros c history st.
  assert (HI : Inv st) by apply Inv_run, Inv_subscribe.
  destruct HI as [Hs _].
  split; [|split].
  - destruct Hs as [Ht Hk | s Ht Hk | id Ha Ht Hk Hr Hid];
      rewrite Ht, Hk; cbn; lia.
  - intros id delay Hin.
    destruct Hs as [Ht Hk | s Ht Hk | x Ha Ht Hk Hr Hid];
      rewrite Ht in Hin; cbn in Hin; try contradiction.
    destruct Hin as [[= <- <-]|[]]. repeat split; assumption.
  - pose proof (run_attempts history (subscribe endpoint c)) as Hr.
    fold st in Hr.
    assert (H1 : connectionAttempts (subscribe endpoint c) = 1%nat).
    { unfold subscribe.
      rewrite (connect_attempts endpoint c fresh eq_refl). reflexivity. }
    rewrite H1 in Hr. exact Hr.
Qed.

End SessionBounds.

(** ** The effect that subscribes to the ticker *)

Section TickerEffectProperties.

Variable onmessage : string -> Handled.

Let step := TickerEffect.step onmessage.
Let run := TickerEffect.run onmessage.

(** A subscription that is alive: active, and connected or about to
    reconnect. *)
Let alive (p : string * Session) : Prop :=
  Inv (snd p) /\ active (snd p) = true /\ Retrying (snd p).

Lemma browser_not_unsubscribe b : TickerEffect.browser b <> Unsubscribe.
Proof. destruct b; discriminate. Qed.

Lemma subscribe_alive symbol c s :
  subscribeToTicker symbol c = Some s -> alive (symbol, s).
Proof.
  unfold subscribeToTicker. destruct (negb (truthy symbol)); [discriminate|].
  intros [= <-]. unfold alive. cbn [snd]. split; [apply Inv_subscribe|].
  split.
  - unfold subscribe, connect. cbn [fresh active negb]. destruct c; reflexivity.
  - apply Retrying_connect; reflexivity.
Qed.

Lemma Forall_onNth {A} (P : A -> Prop) (f : A -> A) l : forall k,
  (forall x, P x -> P (f x)) -> Forall P l ->
  Forall P (TickerEffect.onNth k f l).
Proof.
  induction l as [|x l IH]; intros k Hf Hl; [constructor|].
  apply Forall_cons_iff in Hl as [Hx Hl].
  destruct k; cbn [TickerEffect.onNth]; constructor; auto.
Qed.

Lemma length_onNth {A} (f : A -> A) l : forall k,
  List.length (TickerEffect.onNth k f l) = List.length l.
Proof.
  induction l as [|x l IH]; intros k; [reflexivity|].
  destruct k; cbn [TickerEffect.onNth List.length]; [reflexivity|].
  rewrite IH. reflexivity.
Qed.

Lemma effectCleanup_spec st :
  TickerEffect.effectCleanup st
  = {| TickerEffect.handler := None;
       TickerEffect.subscriptions := TickerEffect.subscriptions st |}.
Proof. reflexivity. Qed.

Lemma step_alive st i :
  Forall alive (TickerEffect.subscriptions st) ->
  Forall alive (TickerEffect.subscriptions (step st i)).
Proof.
  intros H. destruct i as [symbol | c | | k b]; unfold step;
    cbn [TickerEffect.step].
  - exact H.
  - unfold TickerEffect.handlerCallback.
    destruct (TickerEffect.handler st) as [symbol|]; [|exact H].
    destruct (3 <=? String.length symbol)%nat; [|exact H].
    destruct (subscribeToTicker symbol c) as [s|] eqn:Hs; [|exact H].
    cbn [TickerEffect.subscriptions]. apply Forall_app. split; [exact H|].
    constructor; [|constructor]. apply (subscribe_alive symbol c s Hs).
  - exact H.
  - cbn [TickerEffect.subscriptions]. apply Forall_onNth; [|exact H].
    intros [symbol s] (HI & Ha & Hr). unfold alive in *. cbn [fst snd] in *.
    split; [apply Inv_step; exact HI|]. split.
    + rewrite <- Ha. apply step_keeps_active, browser_not_unsubscribe.
    + apply Retrying_step; try assumption. apply browser_not_unsubscribe.
Qed.

Lemma step_count st i rest :
  (List.length (TickerEffect.subscriptions (step st i))
   + subscribingExpiries (TickerEffect.handler (step st i)) rest
   = List.length (TickerEffect.subscriptions st)
     + subscribingExpiries (TickerEffect.handler st) (i :: rest))%nat.
Proof.
  destruct i as [symbol | c | | k b]; unfold step;
    cbn [TickerEffect.step subscribingExpiries].
  - reflexivity.
  - unfold TickerEffect.handlerCallback.
    destruct (TickerEffect.handler st) as [symbol|] eqn:Hh;
      [|rewrite Hh; reflexivity].
    destruct (3 <=? String.length symbol)%nat eqn:Hl; [|reflexivity].
    unfold subscribeToTicker.
    assert (Ht : truthy symbol = true).
    { destruct symbol; [discriminate Hl|reflexivity]. }
    rewrite Ht. cbn [negb TickerEffect.subscriptions TickerEffect.handler].
    rewrite length_app. cbn [List.length]. lia.
  - reflexivity.
  - cbn [TickerEffect.subscriptions TickerEffect.handler].
    rewrite length_onNth. reflexivity.
Qed.

Lemma run_alive inputs : forall st,
  Forall alive (TickerEffect.subscriptions st) ->
  Forall alive (TickerEffect.subscriptions (run st inputs))
  /\ (List.length (TickerEffect.subscriptions (run st inputs))
      = List.length (TickerEffect.subscriptions st)
        + subscribingExpiries (TickerEffect.handler st) inputs)%nat.
Proof.
  induction inputs as [|i l IH]; intros st H.
  - split; [exact H|]. cbn. lia.
  - destruct (IH (step st i) (step_alive st i H)) as [Ha Hn].
    split; [exact Ha|].
    unfold run, TickerEffect.run in *. cbn [fold_left].
    unfold step in *. rewrite Hn. apply step_count.
Qed.

(** X19.  The effect never closes a ticker stream.  Through every sequence
    of symbol changes, expiries of the 500 ms timer, events of the browser
    and the unmounting of the component, each subscription made so far is
    still active and connected or about to reconnect: the cleanup function
    of a subscription is dropped when it is made, and the effect's own
    cleanup cancels the pending timer only.  The subscriptions are as many
    as the expiries of the timer that found a symbol of three characters
    or more pending; a symbol changed before the timer expires is never
    subscribed to. *)
Theorem ticker_effect_never_unsubscribes :
  forall symbol inputs,
    let st := run (TickerEffect.mount symbol) inputs in
    Forall (fun p => active (snd p) = true /\ Retrying (snd p))
      (TickerEffect.subscriptions st)
    /\ List.length (TickerEffect.subscriptions st)
       = subscribingExpiries (Some symbol) inputs.
Proof.
  intros symbol inputs st.
  destruct (run_alive inputs (TickerEffect.mount symbol)) as [Ha Hn];
    [constructor|].
  split; [|exact Hn].
  eapply Forall_impl; [|exact Ha].
  intros p (_ & H1 & H2). split; assumption.
Qed.

End TickerEffectProperties.

(** ** From the forms to the exchange, in live mode *)

(** X20.  An order the order form sends, handled in live mode with both
    credentials: the handler sets the loading flag, logs the order, has
    [placeOrder] sign it and issue its one request, logs one outcome, and
    resets the loading flag.  The outcome is the success of the placed
    order or an error of the exchange or of the transport; no simulated
    fill is scheduled. *)
Theorem order_form_live_flow :
  forall env key secret currentPrice f order w,
    OrderForm.handleSubmit f = OrderForm.Sent order ->
    key <> "" -> secret <> "" ->
    let creds := {| apiKey := key; apiSecret := secret |} in
    order = OrderForm.formOrder f
    /\ exists w' outcome,
         Handlers.handleOrderSubmit env false key secret currentPrice order w
         = (w',
            [Handlers.SetLoading true;
             Handlers.AddLog INFO (Handlers.PreparingOrder order);
             Handlers.Inner (CallPlaceOrder false order);
             Handlers.Inner (Sign secret (specMessage order (clock w)));
             Handlers.Inner (Fetch (orderRequest env order creds (clock w)));
             outcome;
             Handlers.SetLoading false])
         /\ calls w' = S (calls w)
         /\ ((exists response,
                outcome = Handlers.AddLog SUCCESS (Handlers.OrderPlaced response))
             \/ (exists e,
                   outcome = Handlers.AddLog ERROR
                               (Handlers.OrderFailed (Handlers.Executor e))
                   /\ isRemoteError e = true)).
Proof.
  intros env key secret currentPrice f order w Hsent Hk Hs creds.
  unfold OrderForm.handleSubmit in Hsent.
  destruct (validateOrderInput (OrderForm.formOrder f)) eqn:Hv;
    [discriminate|].
  injection Hsent as <-. split; [reflexivity|].
  assert (Hc : noCredentials creds = false)
    by (apply credentials_present; assumption).
  assert (Hreach : reachesSigning (OrderForm.formOrder f) creds = true).
  { unfold reachesSigning.
    rewrite Hc, (validated_order_has_prices _ Hv). reflexivity. }
  destruct (live_placeOrder_outcome env _ creds w Hreach)
    as (r & w' & Hp & Hcalls & _ & Herr & _).
  unfold Handlers.handleOrderSubmit, Handlers.credentialsMissing.
  unfold noCredentials in Hc. cbn [apiKey apiSecret creds] in Hc.
  rewrite Hc. cbn [negb andb]. fold creds. rewrite Hp.
  destruct r as [response|e].
  - eexists _, _. split; [reflexivity|]. split; [exact Hcalls|].
    left. eexists. reflexivity.
  - eexists _, _. split; [reflexivity|]. split; [exact Hcalls|].
    right. exists e. split; [reflexivity|]. apply Herr. reflexivity.
Qed.

(** The form's LIMIT order of 0.001 BTCUSDT at 95000.0, handled with the
    credentials "key" and "secret". *)
Lemma order_form_live_flow_example :
  exists w' outcome,
       Handlers.handleOrderSubmit rejectsFirst false "key" "secret" None
         (OrderForm.formOrder sampleForm) startOfDay
       = (w',
          [Handlers.SetLoading true;
           Handlers.AddLog INFO
             (Handlers.PreparingOrder (OrderForm.formOrder sampleForm));
           Handlers.Inner (CallPlaceOrder false (OrderForm.formOrder sampleForm));
           Handlers.Inner
             (Sign "secret" (specMessage (OrderForm.formOrder sampleForm) 0));
           Handlers.Inner
             (Fetch (orderRequest rejectsFirst (OrderForm.formOrder sampleForm)
                       sampleCredentials 0));
           outcome;
           Handlers.SetLoading false])
       /\ calls w' = 1%nat
       /\ ((exists response,
              outcome = Handlers.AddLog SUCCESS (Handlers.OrderPlaced response))
           \/ (exists e,
                 outcome = Handlers.AddLog ERROR
                             (Handlers.OrderFailed (Handlers.Executor e))
                 /\ isRemoteError e = true)).
Proof.
  apply (proj2 (order_form_live_flow rejectsFirst "key" "secret" None
                  sampleForm (OrderForm.formOrder sampleForm) startOfDay
                  eq_refl ltac:(discriminate) ltac:(discriminate))).
Defined.

(** X21.  The cancel form submits what was typed, and only when neither
    the symbol nor the id is empty.  Handled in live mode with both
    credentials, the cancellation is signed and issued as one DELETE that
    names the order by that id, one outcome is logged, and the loading
    flag is reset.  The outcome is an error of the exchange or of the
    transport, or the success, which shows the numeric [orderId] of the
    answer, or, when that is 0, the id that was typed. *)
Theorem cancel_form_live_flow :
  forall env key secret symbol orderId s o w,
    CancelForm.handleSubmit symbol orderId = Some (s, o) ->
    key <> "" -> secret <> "" ->
    let creds := {| apiKey := key; apiSecret := secret |} in
    s = symbol /\ o = orderId /\ s <> "" /\ o <> ""
    /\ exists w' outcome,
         Handlers.handleCancelSubmit env false key secret s o w
         = (w',
            [Handlers.SetLoading true;
             Handlers.AddLog INFO (Handlers.AttemptingCancel s o);
             Handlers.Inner (CallCancelOrder false s o);
             Handlers.Inner (Sign secret (cancelMessage s o (clock w)));
             Handlers.Inner (Fetch (cancelRequest env s o creds (clock w)));
             outcome;
             Handlers.SetLoading false])
         /\ calls w' = S (calls w)
         /\ ((exists d,
                outcome
                = Handlers.AddLog SUCCESS
                    (Handlers.OrderCanceled
                       (if (Effects.orderId (view d) =? 0)%Z then o
                        else intToString (Effects.orderId (view d)))))
             \/ (exists e,
                   outcome = Handlers.AddLog ERROR
                               (Handlers.CancelFailed (Handlers.Executor e))
                   /\ isRemoteError e = true)).
Proof.
  intros env key secret symbol orderId s o w Hform Hk Hs creds.
  unfold CancelForm.handleSubmit in Hform.
  destruct (negb (truthy symbol) || negb (truthy orderId)) eqn:Ht;
    [discriminate|].
  injection Hform as <- <-.
  apply orb_false_iff in Ht as [Ht1 Ht2].
  apply negb_false_iff in Ht1, Ht2.
  split; [reflexivity|]. split; [reflexivity|].
  split; [intros ->; discriminate Ht1|].
  split; [intros ->; discriminate Ht2|].
  assert (Hc : noCredentials creds = false)
    by (apply credentials_present; assumption).
  destruct (live_cancelOrder_outcome env symbol orderId creds w Hc)
    as (r & w' & Hp & Hcalls & Herr & Hok).
  unfold Handlers.handleCancelSubmit, Handlers.credentialsMissing.
  unfold noCredentials in Hc. cbn [apiKey apiSecret creds] in Hc.
  rewrite Hc. cbn [negb andb]. fold creds. rewrite Hp.
  destruct r as [response|e].
  - destruct (Hok response eq_refl) as (_ & _ & d & _ & _ & _ & ->).
    eexists _, _. split; [reflexivity|]. split; [exact Hcalls|].
    left. exists d. reflexivity.
  - eexists _, _. split; [reflexivity|]. split; [exact Hcalls|].
    right. exists e. split; [reflexivity|]. apply Herr. reflexivity.
Qed.

(** The cancellation of order 12345 on BTCUSDT. *)
Lemma cancel_form_live_flow_example :
  exists w' outcome,
    Handlers.handleCancelSubmit rejectsFirst false "key" "secret"
      "BTCUSDT" "12345" startOfDay
    = (w',
       [Handlers.SetLoading true;
        Handlers.AddLog INFO (Handlers.AttemptingCancel "BTCUSDT" "12345");
        Handlers.Inner (CallCancelOrder false "BTCUSDT" "12345");
        Handlers.Inner (Sign "secret" (cancelMessage "BTCUSDT" "12345" 0));
        Handlers.Inner
          (Fetch (cancelRequest rejectsFirst "BTCUSDT" "12345"
                    sampleCredentials 0));
        outcome;
        Handlers.SetLoading false])
    /\ calls w' = 1%nat
    /\ ((exists d,
           outcome
           = Handlers.AddLog SUCCESS
               (Handlers.OrderCanceled
                  (if (Effects.orderId (view d) =? 0)%Z then "12345"
                   else intToString (Effects.orderId (view d)))))
        \/ (exists e,
              outcome = Handlers.AddLog ERROR
                          (Handlers.CancelFailed (Handlers.Executor e))
              /\ isRemoteError e = true)).
Proof.
  apply (cancel_form_live_flow rejectsFirst "key" "secret"
           "BTCUSDT" "12345" "BTCUSDT" "12345" startOfDay);
    [reflexivity | discriminate | discriminate].
Defined.

(** ** Deployments of a grid *)

Lemma submitEach_demo env creds orders : forall s f w,
  submitEach env true creds orders s f w
  = (Ok ((s + Z.of_nat (List.length orders))%Z, f),
     {| clock := clock w + 1000 * Z.of_nat (List.length orders);
        calls := calls w;
        draws := draws w + List.length orders |},
     flat_map demoOrderEvents orders).
Proof.
  induction orders as [|o l IH]; intros s f w.
  - destruct w as [c k d]. unfold ret.
    cbn [submitEach List.length flat_map clock calls draws Z.of_nat].
    rewrite Z.mul_0_r, !Z.add_0_r, Nat.add_0_r. reflexivity.
  - cbn [submitEach]. unfold bind at 1.
    unfold tryCatch, placeOrder, mockPlaceOrder, bind, emit, sleep, random,
      now, ret, addLog.
    cbn -[Z.mul Z.add Z.of_nat Nat.add submitEach].
    rewrite IH.
    cbn -[Z.mul Z.add Z.of_nat Nat.add].
    replace (s + 1 + Z.of_nat (List.length l))%Z
      with (s + Z.of_nat (S (List.length l)))%Z by lia.
    replace (clock w + 800 + 200 + 1000 * Z.of_nat (List.length l))%Z
      with (clock w + 1000 * Z.of_nat (S (List.length l)))%Z by lia.
    replace (S (draws w) + List.length l)%nat
      with (draws w + S (List.length l))%nat by lia.
    reflexivity.
Qed.

(** X22.  A simulated deployment never fails and reaches no network: for
    [n] orders, whatever they and the credentials are, it takes 1000 ms
    and one draw of [Math.random()] per order, logs each order as placed,
    in the order given, and ends with the counts [n] and 0. *)
Theorem demo_grid_deployment :
  forall env key secret orders w,
    let n := List.length orders in
    handleGridSubmit env true key secret orders w
    = (Ok tt,
       {| clock := clock w + 1000 * Z.of_nat n;
          calls := calls w;
          draws := draws w + n |},
       ([SetIsLoading true; Log INFO (GridStarting n)]
        ++ flat_map demoOrderEvents orders
        ++ [Log INFO (GridComplete (Z.of_nat n) 0); SetIsLoading false])%list).
Proof.
  intros env key secret orders w n.
  unfold handleGridSubmit, setIsLoading, addLog, bind, emit.
  cbn [negb andb]. rewrite submitEach_demo.
  cbn [fst snd app]. rewrite Z.add_0_l. reflexivity.
Qed.




(** ** Infinite quantities and prices *)

(** X24.  Both validators accept the text "Infinity": an order whose
    quantity, price and stop price are "Infinity" is accepted on every
    symbol and for every type, and so is a grid whose maximum price and
    quantity are "Infinity". *)
Theorem validators_accept_Infinity :
  forall symbol side type tif,
    validateOrderInput (infiniteOrder symbol side type tif) = None
    /\ validateGridInput symbol "1" "Infinity" "Infinity" = None.
Proof.
  intros symbol side type tif.
  assert (Hp : parseFloat "Infinity" = Infinity false) by reflexivity.
  assert (Hc : countDecimals "Infinity" = O) by reflexivity.
  assert (H1 : parseFloat "1" = Fin (inject_Z 1)) by reflexivity.
  assert (Hc1 : countDecimals "1" = O) by reflexivity.
  assert (Hq : forall q, lt (Infinity false) (ofDecimal q) = false).
  { intros q. unfold ofDecimal.
    destruct (round64_cases q) as [[-> _]|[-> _]]; reflexivity. }
  split.
  - unfold validateOrderInput, validatePrice, validateStopPrice,
      infiniteOrder.
    cbn [Types.symbol Types.quantity Types.type Types.price Types.stopPrice
         missingOrNaN orElse].
    rewrite Hp, Hc, Hq, ofZ_0. destruct type; reflexivity.
  - unfold validateGridInput. rewrite Hp, Hc, H1, Hc1, Hq, ofZ_0. reflexivity.
Qed.

(** ** The levels a grid skips *)

Lemma filter_at_most_one {A} (p : A -> bool) (R : A -> A -> Prop) l :
  StronglySorted R l ->
  (forall x y, R x y -> p x = true -> p y = true -> False) ->
  (List.length (filter p l) <= 1)%nat.
Proof.
  intros Hs Hno. induction Hs as [|x l Hs IH Hf]; [cbn; lia|].
  cbn [filter]. destruct (p x) eqn:Hx; [|exact IH].
  assert (Hnone : filter p l = []).
  { rewrite Forall_forall in Hf.
    destruct (filter p l) as [|y r] eqn:E; [reflexivity|].
    assert (Hy : In y (filter p l)) by (rewrite E; left; reflexivity).
    apply filter_In in Hy as [Hy Hpy].
    exfalso. exact (Hno x y (Hf y Hy) Hx Hpy). }
  rewrite Hnone. cbn. lia.
Qed.

(** X25.  When the step between two levels is at least three price units,
    for bounds that read as multiples of the price unit (the maximum in
    price units times the level count being at most 2^47), at most one
    level is skipped for being near the reference price: a grid of [N]
    levels has [N] or [N - 1] orders. *)
Theorem generateGrid_skips_at_most_one_level :
  forall big symbol minPrice maxPrice gridCount refPrice quantity orders
         a b N,
    generateGrid big symbol minPrice maxPrice gridCount refPrice quantity
    = Submitted orders ->
    readLiteral minPrice = DecimalLiteral a ->
    readLiteral maxPrice = DecimalLiteral b ->
    parseInt gridCount = Some N ->
    onGrid (priceDecimals (getSymbolRules symbol)) a ->
    onGrid (priceDecimals (getSymbolRules symbol)) b ->
    b * inject_Z (10 ^ Z.of_nat (priceDecimals (getSymbolRules symbol)))
      * inject_Z N <= inject_Z (2 ^ 47) ->
    3 / inject_Z (10 ^ Z.of_nat (priceDecimals (getSymbolRules symbol)))
    <= (b - a) / (inject_Z N - 1) ->
    (Z.to_nat N - 1 <= List.length orders <= Z.to_nat N)%nat.
Proof.
  intros big symbol minPrice maxPrice gridCount refPrice quantity orders
    a b N Hgen Hmin Hmax Hcount Hga Hgb Hmag Hstep.
  destruct (generateGrid_levels _ _ _ _ _ _ _ _ _ _ _ Hgen Hmin Hmax Hcount
              Hga Hgb Hmag)
    as (A & B & (HA & HB & HA1 & HAB & HN & Hd & HBN) & _ & ->).
  set (rules := getSymbolRules symbol) in *.
  set (d := priceDecimals rules) in *.
  set (u := inject_Z (10 ^ Z.of_nat d)) in *.
  assert (Hu : 0 < u) by apply u_pos.
  assert (Hune : ~ u == 0) by (intros E; rewrite E in Hu; discriminate Hu).
  assert (Hn : 0 < inject_Z N - 1).
  { assert (H : 2 <= inject_Z N).
    { change 2 with (inject_Z 2). rewrite <- Zle_Qle. exact HN. }
    lra. }
  assert (Hunits : (3 * (N - 1) <= B - A)%Z).
  { apply (Qmult_le_compat_r _ _ (u * (inject_Z N - 1))) in Hstep;
      [|apply Qlt_le_weak, Qmult_lt_0_compat; assumption].
    assert (E1 : 3 / u * (u * (inject_Z N - 1)) == inject_Z (3 * (N - 1))).
    { rewrite inject_Z_mult. unfold Z.sub.
      rewrite inject_Z_plus, inject_Z_opp.
      change (inject_Z 1) with 1. change (inject_Z 3) with 3.
      field. exact Hune. }
    assert (E2 : (b - a) / (inject_Z N - 1) * (u * (inject_Z N - 1))
                 == inject_Z (B - A)).
    { unfold Z.sub. rewrite inject_Z_plus, inject_Z_opp, <- HA, <- HB.
      field. intros E. rewrite E in Hn. discriminate Hn. }
    rewrite E1, E2, <- Zle_Qle in Hstep. exact Hstep. }
  rewrite length_map, filter_complement, length_indices.
  pose proof (indices_sorted (Z.to_nat N) 0) as Hsorted.
  rewrite Z2Nat.id in Hsorted by lia.
  assert (Hone : (List.length
                    (filter
                       (nearReference rules (Fin (rounded a))
                          (Fin (rounded (rounded (rounded b + - rounded a)
                                         / inject_Z (N - 1))))
                          (parseFloat refPrice))
                       (indices (Z.to_nat N) 0)) <= 1)%nat).
  { apply (filter_at_most_one _ _ _ Hsorted).
    intros x y [Hxy Hy] Hx Hy'.
    apply (grid_near_once a b A B N d HA HB HA1 HAB HN Hd HBN
             (parseFloat refPrice) rules eq_refl x y Hunits);
      [lia|lia|exact Hx|exact Hy']. }
  lia.
Qed.

(** The grid of the form's defaults: the step is 2500, the price unit is
    0.1, and one of the five levels is skipped. *)
Lemma generateGrid_skips_at_most_one_level_example :
  (Z.to_nat 5 - 1 <= List.length defaultGrid <= Z.to_nat 5)%nat.
Proof.
  apply (generateGrid_skips_at_most_one_level noBigNumbers
           "BTCUSDT" "90000" "100000" "5" "95000" "0.001"
           defaultGrid 90000 100000 5).
  - vm_compute. reflexivity.
  - reflexivity.
  - reflexivity.
  - reflexivity.
  - exists 900000%Z. reflexivity.
  - exists 1000000%Z. reflexivity.
  - vm_compute. discriminate.
  - vm_compute. discriminate.
Defined.

(** ** The effect that connects the user data stream *)

Section UserDataEffectProperties.

Variable onmessage : string -> Handled.

Let step := UserDataEffect.step onmessage.
Let run := UserDataEffect.run onmessage.

(** The subscription of a run, if there is one, is a session in one of
    the shapes of [Inv]. *)
Let sound (r : UserDataEffect.Run) : Prop :=
  forall k s, UserDataEffect.cleanupFn r = Some (k, s) -> Inv s.

(** A run that is over: nothing is awaited, the interval is cleared, and
    the subscription, if there is one, is inactive without a timer. *)
Let over (r : UserDataEffect.Run) : Prop :=
  UserDataEffect.awaiting r = false
  /\ UserDataEffect.intervalRunning r = false
  /\ forall k s, UserDataEffect.cleanupFn r = Some (k, s) ->
                 active s = false /\ timers s = [].

(** A run that goes on: the interval is running and the subscription is
    active and connected or about to reconnect. *)
Let live (listenKey : string) (r : UserDataEffect.Run) : Prop :=
  UserDataEffect.awaiting r = false
  /\ UserDataEffect.intervalRunning r = true
  /\ exists s, UserDataEffect.cleanupFn r = Some (listenKey, s)
               /\ Inv s /\ active s = true /\ Retrying s.

Lemma sound_start demoMode key : sound (UserDataEffect.start demoMode key).
Proof.
  unfold sound, UserDataEffect.start. intros k s.
  destruct (negb demoMode && truthy key); discriminate.
Qed.

Lemma sound_step r i : sound r -> sound (step r i).
Proof.
  unfold sound. intros H k s.
  destruct i as [result c | result | | b]; unfold step;
    cbn [UserDataEffect.step].
  - unfold UserDataEffect.keySettled.
    destruct (UserDataEffect.awaiting r); [|apply H].
    destruct result as [e|key]; cbn [UserDataEffect.cleanupFn]; [apply H|].
    intros [= <- <-]. apply Inv_subscribe.
  - unfold UserDataEffect.intervalFired.
    destruct (UserDataEffect.intervalRunning r); [|apply H]. apply H.
  - unfold UserDataEffect.cleanup. cbn [UserDataEffect.cleanupFn].
    destruct (UserDataEffect.cleanupFn r) as [[k' s']|] eqn:E; [|discriminate].
    intros [= <- <-].
    apply (Inv_step (UserDataEffect.userEndpoint k') onmessage s' Unsubscribe).
    apply (H k' s'). reflexivity.
  - cbn [UserDataEffect.cleanupFn].
    destruct (UserDataEffect.cleanupFn r) as [[k' s']|] eqn:E; [|discriminate].
    intros [= <- <-].
    apply (Inv_step (UserDataEffect.userEndpoint k') onmessage s'
             (TickerEffect.browser b)).
    apply (H k' s'). reflexivity.
Qed.

Lemma sound_run inputs : forall r, sound r -> sound (run r inputs).
Proof.
  induction inputs as [|i l IH]; intros r H; [exact H|].
  apply IH, sound_step, H.
Qed.

Lemma over_cleanup r :
  sound r -> UserDataEffect.awaiting r = false ->
  over (step r UserDataEffect.CleanupCalled).
Proof.
  intros Hs Ha. unfold over, step. cbn [UserDataEffect.step].
  unfold UserDataEffect.cleanup.
  cbn [UserDataEffect.awaiting UserDataEffect.intervalRunning
       UserDataEffect.cleanupFn].
  split; [exact Ha|]. split; [reflexivity|].
  intros k s.
  destruct (UserDataEffect.cleanupFn r) as [[k' s']|] eqn:E; [|discriminate].
  intros [= <- <-].
  destruct (Inv_cleanup s' (Hs k' s' E)) as [_ Ht].
  split; [|exact Ht].
  destruct (step_inactive (UserDataEffect.userEndpoint k') onmessage
              (deactivate s') Unsubscribe eq_refl) as (Hact & _ & _).
  exact Hact.
Qed.

Lemma over_step r i :
  over r ->
  over (step r i)
  /\ filter isUserRequest (UserDataEffect.done (step r i))
     = filter isUserRequest (UserDataEffect.done r).
Proof.
  intros (Ha & Hi & Hs).
  destruct i as [result c | result | | b]; unfold step;
    cbn [UserDataEffect.step].
  - unfold UserDataEffect.keySettled. rewrite Ha.
    split; [exact (conj Ha (conj Hi Hs))|reflexivity].
  - unfold UserDataEffect.intervalFired. rewrite Hi.
    split; [exact (conj Ha (conj Hi Hs))|reflexivity].
  - unfold UserDataEffect.cleanup. rewrite Hi.
    split; [|reflexivity].
    unfold over.
    cbn [UserDataEffect.awaiting UserDataEffect.intervalRunning
         UserDataEffect.cleanupFn].
    split; [exact Ha|]. split; [reflexivity|].
    intros k s.
    destruct (UserDataEffect.cleanupFn r) as [[k' s']|] eqn:E;
      [|discriminate].
    intros [= <- <-]. destruct (Hs k' s' eq_refl) as [Hact Ht].
    destruct (step_inactive (UserDataEffect.userEndpoint k') onmessage
                s' Unsubscribe Hact) as (Hact' & _ & Ht').
    split; [exact Hact'|exact (Ht' Ht)].
  - split; [|reflexivity].
    unfold over.
    cbn [UserDataEffect.awaiting UserDataEffect.intervalRunning
         UserDataEffect.cleanupFn].
    split; [exact Ha|]. split; [exact Hi|].
    intros k s.
    destruct (UserDataEffect.cleanupFn r) as [[k' s']|] eqn:E;
      [|discriminate].
    intros [= <- <-]. destruct (Hs k' s' eq_refl) as [Hact Ht].
    destruct (step_inactive (UserDataEffect.userEndpoint k') onmessage
                s' (TickerEffect.browser b) Hact) as (Hact' & _ & Ht').
    split; [exact Hact'|exact (Ht' Ht)].
Qed.

Lemma over_run inputs : forall r,
  over r ->
  over (run r inputs)
  /\ filter isUserRequest (UserDataEffect.done (run r inputs))
     = filter isUserRequest (UserDataEffect.done r).
Proof.
  induction inputs as [|i l IH]; intros r H; [split; [exact H|reflexivity]|].
  destruct (over_step r i H) as [Ho Hd].
  destruct (IH (step r i) Ho) as [Ho' Hd'].
  split; [exact Ho'|]. unfold run, UserDataEffect.run in *. cbn [fold_left].
  unfold step in *. rewrite Hd'. exact Hd.
Qed.

Lemma live_step listenKey r i :
  isCleanupCalled i = false -> live listenKey r -> live listenKey (step r i).
Proof.
  intros Hi (Hw & Hrun & s & Hs & HI & Ha & Hr).
  destruct i as [result c | result | | b]; unfold step;
    cbn [UserDataEffect.step]; try discriminate Hi.
  - unfold UserDataEffect.keySettled. rewrite Hw.
    split; [exact Hw|]. split; [exact Hrun|].
    exists s. exact (conj Hs (conj HI (conj Ha Hr))).
  - unfold UserDataEffect.intervalFired. rewrite Hrun.
    split; [exact Hw|]. split; [exact Hrun|].
    exists s. exact (conj Hs (conj HI (conj Ha Hr))).
  - unfold live.
    cbn [UserDataEffect.awaiting UserDataEffect.intervalRunning
         UserDataEffect.cleanupFn].
    split; [exact Hw|]. split; [exact Hrun|]. rewrite Hs.
    eexists. split; [reflexivity|].
    assert (Hb : TickerEffect.browser b <> Unsubscribe)
      by apply browser_not_unsubscribe.
    split; [apply Inv_step; exact HI|]. split.
    + rewrite <- Ha. apply step_keeps_active, Hb.
    + apply Retrying_step; assumption.
Qed.

Lemma live_run listenKey inputs : forall r,
  existsb isCleanupCalled inputs = false ->
  live listenKey r -> live listenKey (run r inputs).
Proof.
  induction inputs as [|i l IH]; intros r Hn H; [exact H|].
  cbn [existsb] in Hn. apply orb_false_iff in Hn as [Hi Hl].
  apply (IH (step r i) Hl), live_step; assumption.
Qed.

Lemma idle_run inputs : forall r,
  UserDataEffect.cleanupFn r = None -> UserDataEffect.awaiting r = false ->
  UserDataEffect.cleanupFn (run r inputs) = None.
Proof.
  induction inputs as [|i l IH]; intros r Hn Ha; [exact Hn|].
  unfold run, UserDataEffect.run. cbn [fold_left].
  apply IH.
  - destruct i as [result c | result | | b]; cbn [UserDataEffect.step].
    + unfold UserDataEffect.keySettled. rewrite Ha. exact Hn.
    + unfold UserDataEffect.intervalFired.
      destruct (UserDataEffect.intervalRunning r); exact Hn.
    + unfold UserDataEffect.cleanup. cbn [UserDataEffect.cleanupFn].
      rewrite Hn. reflexivity.
    + cbn [UserDataEffect.cleanupFn]. rewrite Hn. reflexivity.
  - destruct i as [result c | result | | b]; cbn [UserDataEffect.step].
    + unfold UserDataEffect.keySettled. rewrite Ha. exact Ha.
    + unfold UserDataEffect.intervalFired.
      destruct (UserDataEffect.intervalRunning r); exact Ha.
    + exact Ha.
    + exact Ha.
Qed.

Lemma settled_step r i :
  UserDataEffect.awaiting r = false ->
  UserDataEffect.awaiting (step r i) = false.
Proof.
  intros Ha. destruct i as [result c | result | | b]; unfold step;
    cbn [UserDataEffect.step].
  - unfold UserDataEffect.keySettled. rewrite Ha. exact Ha.
  - unfold UserDataEffect.intervalFired.
    destruct (UserDataEffect.intervalRunning r); exact Ha.
  - exact Ha.
  - exact Ha.
Qed.

Lemma settled_run inputs : forall r,
  UserDataEffect.awaiting r = false ->
  UserDataEffect.awaiting (run r inputs) = false.
Proof.
  induction inputs as [|i l IH]; intros r Ha; [exact Ha|].
  apply (IH (step r i)), settled_step, Ha.
Qed.

(** While the listen key is awaited, neither closure variable is set. *)
Lemma awaiting_run inputs : forall r,
  UserDataEffect.cleanupFn r = None ->
  UserDataEffect.intervalRunning r = false ->
  UserDataEffect.awaiting (run r inputs) = true ->
  UserDataEffect.cleanupFn (run r inputs) = None
  /\ UserDataEffect.intervalRunning (run r inputs) = false.
Proof.
  induction inputs as [|i l IH]; intros r Hc Hi Hw; [split; assumption|].
  change (run r (i :: l)) with (run (step r i) l) in *.
  destruct (UserDataEffect.awaiting (step r i)) eqn:Hw1.
  - apply IH; [| |exact Hw].
    + destruct i as [result c | result | | b]; unfold step in *;
        cbn [UserDataEffect.step] in *.
      * unfold UserDataEffect.keySettled in *.
        destruct (UserDataEffect.awaiting r); [|exact Hc].
        destruct result; [exact Hc|discriminate Hw1].
      * unfold UserDataEffect.intervalFired. rewrite Hi. exact Hc.
      * unfold UserDataEffect.cleanup. cbn [UserDataEffect.cleanupFn].
        rewrite Hc. reflexivity.
      * cbn [UserDataEffect.cleanupFn]. rewrite Hc. reflexivity.
    + destruct i as [result c | result | | b]; unfold step in *;
        cbn [UserDataEffect.step] in *.
      * unfold UserDataEffect.keySettled in *.
        destruct (UserDataEffect.awaiting r); [|exact Hi].
        destruct result; [exact Hi|discriminate Hw1].
      * unfold UserDataEffect.intervalFired. rewrite Hi. exact Hi.
      * reflexivity.
      * exact Hi.
  - rewrite (settled_run l _ Hw1) in Hw. discriminate Hw.
Qed.

(** X26.  The function the user data effect returns ends the run when it
    is called after the listen key's request has settled: whatever
    happened before and whatever happens next, the keep-alive interval is
    cleared, the stream's subscription, if one was made, is inactive with
    no reconnection pending, and the run makes no further request.  And
    in simulated mode or without an API key a run is over from the start:
    it requests no listen key, subscribes to nothing and sets no
    interval. *)
Theorem user_data_effect_cleanup_after_settling :
  forall demoMode key history future,
    let r := run (UserDataEffect.start demoMode key) history in
    (UserDataEffect.awaiting r = false ->
     let r' := run (step r UserDataEffect.CleanupCalled) future in
     UserDataEffect.awaiting r' = false
     /\ UserDataEffect.intervalRunning r' = false
     /\ (forall k s, UserDataEffect.cleanupFn r' = Some (k, s) ->
                     active s = false /\ timers s = [])
     /\ filter isUserRequest (UserDataEffect.done r')
        = filter isUserRequest (UserDataEffect.done r))
    /\ (negb demoMode && truthy key = false ->
        UserDataEffect.cleanupFn r = None
        /\ UserDataEffect.intervalRunning r = false
        /\ filter isUserRequest (UserDataEffect.done r) = []).
Proof.
  intros demoMode key history future r. split.
  - intros Hw r'.
    assert (Hs : sound r) by apply sound_run, sound_start.
    pose proof (over_cleanup r Hs Hw) as Ho.
    destruct (over_run future _ Ho) as [(Ha & Hi & Hc) Hd].
    fold r' in Ha, Hi, Hc, Hd.
    split; [exact Ha|]. split; [exact Hi|]. split; [exact Hc|].
    rewrite Hd. unfold step. cbn [UserDataEffect.step].
    unfold UserDataEffect.cleanup. cbn [UserDataEffect.done].
    destruct (UserDataEffect.intervalRunning r); [|reflexivity].
    rewrite filter_app. cbn [filter isUserRequest]. apply app_nil_r.
  - intros Hoff.
    assert (Hstart : UserDataEffect.start demoMode key
                     = {| UserDataEffect.apiKey := key;
                          UserDataEffect.awaiting := false;
                          UserDataEffect.cleanupFn := None;
                          UserDataEffect.intervalRunning := false;
                          UserDataEffect.done := [] |}).
    { unfold UserDataEffect.start. rewrite Hoff. reflexivity. }
    assert (Ho : over (UserDataEffect.start demoMode key)).
    { rewrite Hstart. repeat split; try reflexivity; discriminate. }
    destruct (over_run history _ Ho) as [(_ & Hi & _) Hd].
    fold r in Hi, Hd.
    split; [|split; [exact Hi|]].
    + apply idle_run; rewrite Hstart; reflexivity.
    + rewrite Hd, Hstart. reflexivity.
Qed.

(** X27.  The function the user data effect returns does not end a run
    when it is called while the listen key is still awaited: [cleanupFn]
    and [keepAliveInterval] are then unset and it does nothing.  When the
    key arrives afterwards the stream is subscribed to and the interval
    is set all the same, and since React calls the function only once,
    the subscription stays active, connected or about to reconnect, and
    the interval keeps running, whatever happens next. *)
Theorem user_data_effect_cleanup_before_settling :
  forall demoMode key history listenKey constructorThrows future,
    let r := run (UserDataEffect.start demoMode key) history in
    UserDataEffect.awaiting r = true ->
    existsb isCleanupCalled future = false ->
    let late :=
      step (step r UserDataEffect.CleanupCalled)
        (UserDataEffect.KeySettled (inr listenKey) constructorThrows) in
    UserDataEffect.done (step r UserDataEffect.CleanupCalled)
    = UserDataEffect.done r
    /\ UserDataEffect.intervalRunning (run late future) = true
    /\ exists s,
         UserDataEffect.cleanupFn (run late future) = Some (listenKey, s)
         /\ active s = true /\ Retrying s.
Proof.
  intros demoMode key history listenKey c future r Hw Hn late.
  assert (Hidle : UserDataEffect.cleanupFn r = None
                  /\ UserDataEffect.intervalRunning r = false).
  { apply awaiting_run; [| |exact Hw];
      unfold UserDataEffect.start;
      destruct (negb demoMode && truthy key); reflexivity. }
  destruct Hidle as [Hc Hi].
  split.
  - unfold step. cbn [UserDataEffect.step]. unfold UserDataEffect.cleanup.
    rewrite Hi. reflexivity.
  - assert (Hlive : live listenKey late).
    { unfold late, step. cbn [UserDataEffect.step].
      unfold UserDataEffect.keySettled, UserDataEffect.cleanup.
      cbn [UserDataEffect.awaiting]. rewrite Hw.
      unfold live.
      cbn [UserDataEffect.awaiting UserDataEffect.intervalRunning
           UserDataEffect.cleanupFn].
      split; [reflexivity|]. split; [reflexivity|].
      eexists. split; [reflexivity|].
      split; [apply Inv_subscribe|]. split.
      - unfold subscribeToUserData, subscribe, connect.
        cbn [fresh active negb]. destruct c; reflexivity.
      - apply Retrying_connect; reflexivity. }
    destruct (live_run listenKey future late Hn Hlive)
      as (_ & Hrun & s & Hs & _ & Ha & Hr).
    split; [exact Hrun|]. exists s. exact (conj Hs (conj Ha Hr)).
Qed.

End UserDataEffectProperties.

(** A live run whose key arrived, and a run in simulated mode. *)
Lemma user_data_effect_cleanup_after_settling_example :
  UserDataEffect.intervalRunning
    (UserDataEffect.run (fun _ => Skipped)
       (UserDataEffect.start false "key")
       [UserDataEffect.KeySettled (inr "lk") false;
        UserDataEffect.CleanupCalled;
        UserDataEffect.Stream (TickerEffect.Closed 0);
        UserDataEffect.IntervalFired (inl ListenKey.KeyTransportFailure)])
  = false
  /\ UserDataEffect.done
       (UserDataEffect.run (fun _ => Skipped)
          (UserDataEffect.start true "key")
          [UserDataEffect.KeySettled (inr "lk") false]) = [].
Proof.
  split.
  - apply (proj1 (user_data_effect_cleanup_after_settling (fun _ => Skipped)
                    false "key"
                    [UserDataEffect.KeySettled (inr "lk") false]
                    [UserDataEffect.Stream (TickerEffect.Closed 0);
                     UserDataEffect.IntervalFired
                       (inl ListenKey.KeyTransportFailure)])
                 eq_refl).
  - reflexivity.
Defined.

(** A live run whose cleanup comes before the listen key: the stream is
    subscribed to and reconnects after its socket closes. *)
Lemma user_data_effect_cleanup_before_settling_example :
  UserDataEffect.done
    (UserDataEffect.step (fun _ => Skipped)
       (UserDataEffect.start false "key") UserDataEffect.CleanupCalled)
  = UserDataEffect.done (UserDataEffect.start false "key")
  /\ UserDataEffect.intervalRunning
       (UserDataEffect.run (fun _ => Skipped)
          (UserDataEffect.step (fun _ => Skipped)
             (UserDataEffect.step (fun _ => Skipped)
                (UserDataEffect.start false "key")
                UserDataEffect.CleanupCalled)
             (UserDataEffect.KeySettled (inr "lk") false))
          [UserDataEffect.Stream (TickerEffect.Closed 0)]) = true
  /\ exists s,
       UserDataEffect.cleanupFn
         (UserDataEffect.run (fun _ => Skipped)
            (UserDataEffect.step (fun _ => Skipped)
               (UserDataEffect.step (fun _ => Skipped)
                  (UserDataEffect.start false "key")
                  UserDataEffect.CleanupCalled)
               (UserDataEffect.KeySettled (inr "lk") false))
            [UserDataEffect.Stream (TickerEffect.Closed 0)])
       = Some ("lk", s)
       /\ active s = true /\ Retrying s.
Proof.
  apply (user_data_effect_cleanup_before_settling (fun _ => Skipped)
           false "key" [] "lk" false
           [UserDataEffect.Stream (TickerEffect.Closed 0)]);
    reflexivity.
Defined.
